(** * Normalization and grading engine of the lunar quiz

    A shallow embedding of [lib/normalize.ts] (text, date and number
    normalization), [lib/grading.ts] (per-question grading and the objective
    summary) and the rule types of [lib/types.ts].

    Conventions of the embedding.
    - A JavaScript string is the list of its UTF-16 code units ([jsstring]);
      [js "..."] reads a source literal (UTF-8 in this file) into that form.
    - A JavaScript number is an IEEE 754 binary64 value: the kernel's
      primitive [float], whose operations round to nearest-even as the
      language requires.
    - Property access on an object literal goes through the prototype chain:
      [object_get] looks at the own properties first and at the members of
      [Object.prototype] next, as [OrdinaryGet] does.
    - [Number(string)] and [String(number)] are written out from the
      language specification (StringToNumber, Number::toString).
    - So are [encodeURIComponent], whose result is [None] when it throws
      a URIError, and [Object.fromEntries].
    - Two services of the runtime stay abstract, as the interface
      [Builtins]: [String.prototype.toLowerCase], whose table depends on
      the Unicode version of the engine, and [RegExp].  The definitions
      that use them are parametric in it; [small_builtins] is an
      executable instance.
    - The records a caller passes ([answers.mcq], [answers.fillins], the
      examinee's choices and inputs) are read only by [record[id]]; they
      are lookup functions into the declared value type.
    - Exceptions and the diagnostic log are explicit: a computation of type
      [eff A] yields a completion (a value or a thrown error) and the list of
      warnings it wrote with [console.warn]. *)

From Stdlib Require Import ZArith List Bool Lia String Ascii.
From Stdlib Require Import DecimalString PrimFloat SpecFloat FloatOps.
From Stdlib Require Import FloatAxioms Permutation.
Import ListNotations.

Set Warnings "-inexact-float".
Local Open Scope Z_scope.

(* ------------------------------------------------------------------ *)
(** ** JavaScript strings *)

Definition jsstring := list Z.

Definition jsstring_eq_dec : forall a b : jsstring, {a = b} + {a <> b} :=
  list_eq_dec Z.eq_dec.

Fixpoint str_eqb (a b : jsstring) : bool :=
  match a, b with
  | [], [] => true
  | x :: a', y :: b' => (x =? y) && str_eqb a' b'
  | _, _ => false
  end.

Definition byte_values (s : string) : list Z :=
  map (fun a => Z.of_nat (nat_of_ascii a)) (list_ascii_of_string s).

Definition cont (b : Z) : Z := Z.land b 0x3F.

(** Code points of a UTF-8 byte sequence (well-formed input is all the
    literals of this file need; a truncated sequence yields U+FFFD). *)
Fixpoint utf8_code_points (bs : list Z) : list Z :=
  match bs with
  | [] => []
  | b0 :: r0 =>
    if b0 <? 0x80 then b0 :: utf8_code_points r0
    else
      match r0 with
      | [] => [0xFFFD]
      | b1 :: r1 =>
        if b0 <? 0xE0 then
          Z.lor (Z.shiftl (Z.land b0 0x1F) 6) (cont b1) :: utf8_code_points r1
        else
          match r1 with
          | [] => [0xFFFD]
          | b2 :: r2 =>
            if b0 <? 0xF0 then
              Z.lor (Z.shiftl (Z.land b0 0x0F) 12)
                    (Z.lor (Z.shiftl (cont b1) 6) (cont b2))
              :: utf8_code_points r2
            else
              match r2 with
              | [] => [0xFFFD]
              | b3 :: r3 =>
                Z.lor (Z.shiftl (Z.land b0 0x07) 18)
                      (Z.lor (Z.shiftl (cont b1) 12)
                             (Z.lor (Z.shiftl (cont b2) 6) (cont b3)))
                :: utf8_code_points r3
              end
          end
      end
  end.

Definition utf16_units (cp : Z) : list Z :=
  if cp <? 0x10000 then [cp]
  else
    let v := cp - 0x10000 in
    [0xD800 + Z.shiftr v 10; 0xDC00 + Z.land v 0x3FF].

(** The JavaScript string denoted by a literal of this file. *)
Definition js (s : string) : jsstring :=
  flat_map utf16_units (utf8_code_points (byte_values s)).

(** [String.fromCharCode(n)]: the argument is reduced with ToUint16. *)
Definition fromCharCode (n : Z) : jsstring := [Z.land n 0xFFFF].

(** [s.split('')]: one string per code unit. *)
Definition split_units (s : jsstring) : list jsstring :=
  map (fun c => [c]) s.

(** The characters [String.prototype.trim] removes and [\s] matches:
    WhiteSpace and LineTerminator of the language specification. *)
Definition isWhiteSpace (c : Z) : bool :=
  ((0x09 <=? c) && (c <=? 0x0D))
  || (c =? 0x20) || (c =? 0xA0) || (c =? 0x1680)
  || ((0x2000 <=? c) && (c <=? 0x200A))
  || (c =? 0x2028) || (c =? 0x2029) || (c =? 0x202F) || (c =? 0x205F)
  || (c =? 0x3000) || (c =? 0xFEFF).

Fixpoint trimStart (s : jsstring) : jsstring :=
  match s with
  | c :: s' => if isWhiteSpace c then trimStart s' else s
  | [] => []
  end.

Definition trimEnd (s : jsstring) : jsstring := rev (trimStart (rev s)).

Definition trim (s : jsstring) : jsstring := trimEnd (trimStart s).

(** [s.replace(/\s+/g, ' ')]: each maximal run of white space becomes one
    space ([inRun] tells that the previous unit was white space). *)
Fixpoint collapseRuns (inRun : bool) (s : jsstring) : jsstring :=
  match s with
  | [] => []
  | c :: s' =>
    if isWhiteSpace c then
      if inRun then collapseRuns true s' else 0x20 :: collapseRuns true s'
    else c :: collapseRuns false s'
  end.

(** [s.split(' ')]: the pieces between single spaces; the empty string
    splits into one empty piece. *)
Fixpoint split_on (sep : Z) (s : jsstring) : list jsstring :=
  match s with
  | [] => [[]]
  | c :: s' =>
    if c =? sep then [] :: split_on sep s'
    else
      match split_on sep s' with
      | w :: ws => (c :: w) :: ws
      | [] => [[c]]
      end
  end.

(** [Array.prototype.join] on strings. *)
Fixpoint join (sep : jsstring) (l : list jsstring) : jsstring :=
  match l with
  | [] => []
  | [a] => a
  | a :: rest => a ++ sep ++ join sep rest
  end.

(* ------------------------------------------------------------------ *)
(** ** Values, objects used as tables, completions *)

(** The values a table lookup of this program can produce: a string, or a
    member inherited from [Object.prototype] (the prototype object itself
    through the [__proto__] accessor, or one of its built-in methods). *)
Inductive jsvalue : Type :=
| JString (s : jsstring)
| JObjectPrototype
| JBuiltinFunction (name : jsstring).

(** The properties every object literal inherits from [Object.prototype]
    (ECMAScript, "Properties of the Object Prototype Object", with the
    legacy accessor methods that browsers and Node provide). *)
Definition ObjectPrototype : list (jsstring * jsvalue) :=
  [ (js "constructor", JBuiltinFunction (js "Object"));
    (js "__defineGetter__", JBuiltinFunction (js "__defineGetter__"));
    (js "__defineSetter__", JBuiltinFunction (js "__defineSetter__"));
    (js "hasOwnProperty", JBuiltinFunction (js "hasOwnProperty"));
    (js "__lookupGetter__", JBuiltinFunction (js "__lookupGetter__"));
    (js "__lookupSetter__", JBuiltinFunction (js "__lookupSetter__"));
    (js "isPrototypeOf", JBuiltinFunction (js "isPrototypeOf"));
    (js "propertyIsEnumerable", JBuiltinFunction (js "propertyIsEnumerable"));
    (js "toString", JBuiltinFunction (js "toString"));
    (js "valueOf", JBuiltinFunction (js "valueOf"));
    (js "__proto__", JObjectPrototype);
    (js "toLocaleString", JBuiltinFunction (js "toLocaleString")) ].

Fixpoint assoc {V : Type} (k : jsstring) (l : list (jsstring * V)) : option V :=
  match l with
  | [] => None
  | (k', v) :: l' => if str_eqb k k' then Some v else assoc k l'
  end.

(** [obj[key]] for an object literal [obj] with own string properties
    [own]: [None] is [undefined]. *)
Definition object_get (own : list (jsstring * jsstring)) (key : jsstring)
  : option jsvalue :=
  match assoc key own with
  | Some s => Some (JString s)
  | None => assoc key ObjectPrototype
  end.

(** [x ?? d] where [x] is a lookup result. *)
Definition nullish {A : Type} (x : option A) (d : A) : A :=
  match x with Some v => v | None => d end.

(** ToString of a value, as [Array.prototype.join] applies it.  The text of
    a built-in function is the NativeFunction form that V8 and
    JavaScriptCore print. *)
Definition ToString (v : jsvalue) : jsstring :=
  match v with
  | JString s => s
  | JObjectPrototype => js "[object Object]"
  | JBuiltinFunction name => js "function " ++ name ++ js "() { [native code] }"
  end.

Inductive jserror : Type :=
| TypeError (what : string).

Inductive completion (A : Type) : Type :=
| Normal (a : A)
| Throw (e : jserror).
Arguments Normal {A} a.
Arguments Throw {A} e.

(** A line written by [console.warn]. *)
Inductive warning : Type :=
| InvalidRegex (pattern : jsstring).

(** Computations that may throw and may write warnings. *)
Definition eff (A : Type) : Type := completion A * list warning.

Definition ret {A : Type} (a : A) : eff A := (Normal a, []).

Definition throw {A : Type} (e : jserror) : eff A := (Throw e, []).

Definition warn (w : warning) : eff unit := (Normal tt, [w]).

Definition bind {A B : Type} (m : eff A) (k : A -> eff B) : eff B :=
  match m with
  | (Normal a, w) => let (r, w') := k a in (r, w ++ w')
  | (Throw e, w) => (Throw e, w)
  end.

Declare Scope eff_scope.
Delimit Scope eff_scope with eff.
Notation "x <- m ;; k" := (bind m (fun x => k))
  (at level 61, m at next level, right associativity) : eff_scope.

(* ------------------------------------------------------------------ *)
(** ** What the runtime provides *)

Class Builtins : Type := {
  (** [String.prototype.toLowerCase] *)
  toLowerCase : jsstring -> jsstring;
  (** compiled regular expressions *)
  RegExp : Type;
  (** [new RegExp(pattern)]; [None] when it throws a SyntaxError *)
  RegExp_new : jsstring -> option RegExp;
  (** [regex.test(value)] for a regex without flags *)
  RegExp_test : RegExp -> jsstring -> bool
}.

(* ------------------------------------------------------------------ *)
(** ** normalize.ts *)

Definition FULLWIDTH_OFFSET : Z := 0xFF10 - 0x30.

Definition fullWidthMap : list (jsstring * jsstring) :=
  [ (js "，", js ",");
    (js "。", js ".");
    (js "；", js ";");
    (js "：", js ":");
    (js "！", js "!");
    (js "？", js "?");
    (js "（", js "(");
    (js "）", js ")");
    (js "【", js "[");
    (js "】", js "]");
    (js "“", [0x22]);
    (js "”", [0x22]);
    (js "‘", js "'");
    (js "’", js "'");
    (js "、", js ",");
    (js "　", js " ") ].

(** Both tables are object literals: what [table[key]] yields is given by
    [object_get], own properties first, then those of [Object.prototype]. *)
Definition zhSynonyms : list (jsstring * jsstring) :=
  [ (js "北京时间", js "utc+8");
    (js "utc+8", js "utc+8");
    (js "东八区", js "utc+8") ].

Record NormalizeOptions : Type := { lowercase : option bool }.

Definition no_options : NormalizeOptions := {| lowercase := None |}.

Definition toHalfWidth_char (char : jsstring) : jsvalue :=
  let code := nth 0 char 0 in
  if (0xFF10 <=? code) && (code <=? 0xFF19) then
    JString (fromCharCode (code - FULLWIDTH_OFFSET))
  else if (0xFF21 <=? code) && (code <=? 0xFF3A) then
    JString (fromCharCode (code - 0xFEE0))
  else if (0xFF41 <=? code) && (code <=? 0xFF5A) then
    JString (fromCharCode (code - 0xFEE0))
  else nullish (object_get fullWidthMap char) (JString char).

Definition toHalfWidth (input : jsstring) : jsstring :=
  join [] (map ToString (map toHalfWidth_char (split_units input))).

Definition normalizeWhitespace (input : jsstring) : jsstring :=
  collapseRuns false (trim input).

Section Normalize.
Context {B : Builtins}.

Definition normalizeText (value : jsstring) (options : NormalizeOptions)
  : jsstring :=
  let halfWidth := toHalfWidth value in
  let collapsed := normalizeWhitespace halfWidth in
  let lower :=
    match lowercase options with
    | Some false => collapsed
    | _ => toLowerCase collapsed
    end in
  let unified :=
    join (js " ")
      (map ToString
        (map (fun word => nullish (object_get zhSynonyms word) (JString word))
             (split_on 0x20 lower))) in
  unified.

End Normalize.

(* ------------------------------------------------------------------ *)
(** ** Numbers: [Number(string)], [parseInt], decimal text *)

Definition isDigit (c : Z) : bool := (0x30 <=? c) && (c <=? 0x39).

(** The longest prefix of decimal digits, and what follows it. *)
Fixpoint take_digits (s : jsstring) : jsstring * jsstring :=
  match s with
  | c :: s' =>
    if isDigit c then let (d, r) := take_digits s' in (c :: d, r)
    else ([], s)
  | [] => ([], [])
  end.

(** The number a sequence of digits denotes in base [base]; [digit_of]
    gives the value of one digit. *)
Definition digits_value (base : Z) (digit_of : Z -> Z) (ds : jsstring) : Z :=
  fold_left (fun acc c => acc * base + digit_of c) ds 0.

Definition decimal_digit (c : Z) : Z := c - 0x30.

Definition hex_digit (c : Z) : option Z :=
  if isDigit c then Some (c - 0x30)
  else if (0x61 <=? c) && (c <=? 0x66) then Some (c - 0x61 + 10)
  else if (0x41 <=? c) && (c <=? 0x46) then Some (c - 0x41 + 10)
  else None.

(** The digits of a non-decimal integer literal, when all are below
    [base]; [None] for an empty or ill-formed digit sequence. *)
Definition radix_value (base : Z) (ds : jsstring) : option Z :=
  match ds with
  | [] => None
  | _ =>
    if forallb (fun c => match hex_digit c with
                         | Some v => v <? base
                         | None => false
                         end) ds
    then Some (digits_value base (fun c => nullish (hex_digit c) 0) ds)
    else None
  end.

(** The binary64 value nearest to [n / d] (ties to even), for [0 < n] and
    [0 < d]: the rounding of the specification's mathematical value. *)
Definition nearest_double (n d : Z) : float :=
  let e0 := Z.log2 n - Z.log2 d in
  let below :=
    if 0 <=? e0 then n <? d * 2 ^ e0 else n * 2 ^ (- e0) <? d in
  let e := if below then e0 - 1 else e0 in
  let q := Z.max (e - 52) (-1074) in
  let num := if q <? 0 then n * 2 ^ (- q) else n in
  let den := if q <? 0 then d else d * 2 ^ q in
  let m0 := num / den in
  let r := num mod den in
  let m :=
    if 2 * r <? den then m0
    else if 2 * r =? den then (if Z.even m0 then m0 else m0 + 1)
    else m0 + 1 in
  if m =? 0 then PrimFloat.zero
  else if 1024 <=? Z.log2 m + q then PrimFloat.infinity
  else SF2Prim (S754_finite false (Z.to_pos m) q).

Fixpoint strip_zeros (ds : jsstring) : jsstring :=
  match ds with
  | c :: ds' => if c =? 0x30 then strip_zeros ds' else ds
  | [] => []
  end.

(** The binary64 value of [digits * 10 ^ exp10]. *)
Definition decimal_to_double (digits : jsstring) (exp10 : Z) : float :=
  let sig := strip_zeros digits in
  let nd := Z.of_nat (List.length sig) in
  if nd =? 0 then PrimFloat.zero
  else if 400 <? exp10 + nd then PrimFloat.infinity
  else if exp10 + nd <? -400 then PrimFloat.zero
  else
    let m := digits_value 10 decimal_digit sig in
    if 0 <=? exp10 then nearest_double (m * 10 ^ exp10) 1
    else nearest_double m (10 ^ (- exp10)).

Definition signed (negative : bool) (x : float) : float :=
  if negative then PrimFloat.opp x else x.

(** ExponentPart (after the [e]): an optional sign and at least one digit,
    up to the end of the string. *)
Definition exponent_part (s : jsstring) : option Z :=
  let (negative, ds) :=
    match s with
    | 0x2B :: r => (false, r)
    | 0x2D :: r => (true, r)
    | _ => (false, s)
    end in
  match take_digits ds with
  | (c :: d, []) =>
    let v := digits_value 10 decimal_digit (c :: d) in
    Some (if negative then - v else v)
  | _ => None
  end.

(** StrUnsignedDecimalLiteral other than [Infinity]. *)
Definition unsigned_decimal (s : jsstring) : option float :=
  let (ip, r1) := take_digits s in
  let '(fp, r2) :=
    match r1 with
    | 0x2E :: r => take_digits r
    | _ => ([], r1)
    end in
  match ip ++ fp with
  | [] => None
  | ds =>
    let frac := Z.of_nat (List.length fp) in
    match r2 with
    | [] => Some (decimal_to_double ds (- frac))
    | c :: r3 =>
      if (c =? 0x65) || (c =? 0x45) then
        match exponent_part r3 with
        | Some e => Some (decimal_to_double ds (e - frac))
        | None => None
        end
      else None
    end
  end.

Definition decimal_literal (s : jsstring) : option float :=
  let (negative, body) :=
    match s with
    | 0x2B :: r => (false, r)
    | 0x2D :: r => (true, r)
    | _ => (false, s)
    end in
  if str_eqb body (js "Infinity") then Some (signed negative PrimFloat.infinity)
  else
    match unsigned_decimal body with
    | Some x => Some (signed negative x)
    | None => None
    end.

Definition integer_to_double (v : Z) : float :=
  if v =? 0 then PrimFloat.zero else nearest_double v 1.

(** [Number(s)] for a string [s] (StringToNumber): white space is trimmed,
    the empty string is [+0], a StrNumericLiteral has its rounded value and
    anything else is [NaN]. *)
Definition Number_of_string (s : jsstring) : float :=
  match trim s with
  | [] => PrimFloat.zero
  | t =>
    let radix :=
      match t with
      | 0x30 :: c :: ds =>
        if (c =? 0x78) || (c =? 0x58) then Some (radix_value 16 ds)
        else if (c =? 0x6F) || (c =? 0x4F) then Some (radix_value 8 ds)
        else if (c =? 0x62) || (c =? 0x42) then Some (radix_value 2 ds)
        else None
      | _ => None
      end in
    match radix with
    | Some (Some v) => integer_to_double v
    | Some None => PrimFloat.nan
    | None =>
      match decimal_literal t with
      | Some x => x
      | None => PrimFloat.nan
      end
    end
  end.

(** [Number.isFinite]. *)
Definition Number_isFinite (x : float) : bool :=
  negb (PrimFloat.is_nan x) && negb (PrimFloat.is_infinity x).

(** [Number.EPSILON]: 2^-52, the gap between 1 and the next number. *)
Definition Number_EPSILON : float := 0x1p-52%float.

(** The decimal text of a non-negative integer (it is [String(n)] for an
    integral [n] below 10^21). *)
Definition decimal_text (n : Z) : jsstring :=
  byte_values (NilZero.string_of_int (Z.to_int n)).

(** *** [String(n)]: Number::toString in radix 10 *)

(** [floor (n / d * 10 ^ p)] and whether twice the remainder is below,
    equal to or above the divisor. *)
Definition scaled (n d p : Z) : Z * comparison :=
  let num := if 0 <=? p then n * 10 ^ p else n in
  let den := if 0 <=? p then d else d * 10 ^ (- p) in
  (num / den, (2 * (num mod den)) ?= den).

(** The binary64 value of [c * 10 ^ p]. *)
Definition decimal_value (c p : Z) : float :=
  if 0 <=? p then nearest_double (c * 10 ^ p) 1
  else nearest_double c (10 ^ (- p)).

(** The exponent [n] with [10 ^ (n - 1) <= x < 10 ^ n] for [x = n0 / d0]. *)
Definition decade (n0 d0 : Z) : Z :=
  let est := (Z.log2 n0 - Z.log2 d0) * 30103 / 100000 + 1 in
  nullish
    (find (fun n => let v := fst (scaled n0 d0 (1 - n)) in
                    (1 <=? v) && (v <=? 9))
          [est - 1; est; est + 1; est - 2; est + 2])
    est.

(** The shortest digit string that reads back as [x = n0 / d0], trying
    [k] digits, then [k + 1], ...: the integers [s] and [n - k] of the
    specification, [s] being the one nearest to [x] when two qualify. *)
Fixpoint shortest_digits (fuel : nat) (x : float) (n0 d0 n k : Z) : Z * Z :=
  let '(lo, half) := scaled n0 d0 (k - n) in
  let hi := lo + 1 in
  let ok c := (0 <? c) && PrimFloat.eqb (decimal_value c (n - k)) x in
  let nearest :=
    match half with
    | Lt => lo
    | Gt => hi
    | Eq => if Z.even lo then lo else hi
    end in
  let other := if nearest =? lo then hi else lo in
  if ok nearest then (nearest, n - k)
  else if ok other then (other, n - k)
  else
    match fuel with
    | O => (nearest, n - k)
    | S fuel' => shortest_digits fuel' x n0 d0 n (k + 1)
    end.

Fixpoint strip_trailing_zeros (fuel : nat) (s p : Z) : Z * Z :=
  match fuel with
  | O => (s, p)
  | S fuel' =>
    if (s mod 10 =? 0) && negb (s =? 0)
    then strip_trailing_zeros fuel' (s / 10) (p + 1)
    else (s, p)
  end.

Definition zeros (count : Z) : jsstring := repeat 0x30 (Z.to_nat count).

(** The text of a positive finite number [m * 2 ^ e]. *)
Definition finite_text (x : float) (m : positive) (e : Z) : jsstring :=
  let n0 := if 0 <=? e then Z.pos m * 2 ^ e else Z.pos m in
  let d0 := if 0 <=? e then 1 else 2 ^ (- e) in
  let '(s0, p0) := shortest_digits 17 x n0 d0 (decade n0 d0) 1 in
  let '(s, p) := strip_trailing_zeros 400 s0 p0 in
  let digits := decimal_text s in
  let k := Z.of_nat (List.length digits) in
  let n := p + k in
  if (k <=? n) && (n <=? 21) then digits ++ zeros (n - k)
  else if (0 <? n) && (n <=? 21) then
    firstn (Z.to_nat n) digits ++ js "." ++ skipn (Z.to_nat n) digits
  else if (-6 <? n) && (n <=? 0) then js "0." ++ zeros (- n) ++ digits
  else
    let e10 := n - 1 in
    let exponent :=
      (if e10 <? 0 then js "-" else js "+") ++ decimal_text (Z.abs e10) in
    match digits with
    | [c] => [c] ++ js "e" ++ exponent
    | c :: rest => [c] ++ js "." ++ rest ++ js "e" ++ exponent
    | [] => []
    end.

Definition Number_toString (x : float) : jsstring :=
  match Prim2SF x with
  | S754_nan => js "NaN"
  | S754_zero _ => js "0"
  | S754_infinity negative =>
    (if negative then js "-" else []) ++ js "Infinity"
  | S754_finite negative m e =>
    (if negative then js "-" else []) ++ finite_text (PrimFloat.abs x) m e
  end.

(** [s.padStart(2, '0')]. *)
Definition padStart2 (s : jsstring) : jsstring :=
  match s with
  | [] => js "00"
  | [c] => [0x30; c]
  | _ => s
  end.

(** [parseInt(s, 10)]; [None] is [NaN].  Leading white space and a sign are
    accepted, then the longest run of digits is read. *)
Definition parseInt10 (s : jsstring) : option Z :=
  let t := trimStart s in
  let (negative, body) :=
    match t with
    | c :: r =>
      if c =? 0x2B then (false, r)
      else if c =? 0x2D then (true, r)
      else (false, t)
    | [] => (false, t)
    end in
  match fst (take_digits body) with
  | [] => None
  | ds =>
    let v := digits_value 10 decimal_digit ds in
    Some (if negative then - v else v)
  end.

Definition pad (value : Z) : jsstring := padStart2 (decimal_text value).

(** *** The date pattern [(\d{4})[-/年.](\d{1,2})[-/月.](\d{1,2})] *)

Definition yearSeparator (c : Z) : bool :=
  (c =? 0x2D) || (c =? 0x2F) || (c =? 0x5E74) || (c =? 0x2E).

Definition monthSeparator (c : Z) : bool :=
  (c =? 0x2D) || (c =? 0x2F) || (c =? 0x6708) || (c =? 0x2E).

(** [\d{4}] at the head of [s]. *)
Definition digits4 (s : jsstring) : option (jsstring * jsstring) :=
  match s with
  | a :: b :: c :: d :: r =>
    if isDigit a && isDigit b && isDigit c && isDigit d
    then Some ([a; b; c; d], r) else None
  | _ => None
  end.

(** The ways [\d{1,2}] can match at the head of [s], in the order a greedy
    quantifier tries them: two digits, then one. *)
Definition digits_1_2 (s : jsstring) : list (jsstring * jsstring) :=
  match s with
  | a :: r =>
    if isDigit a then
      match r with
      | b :: r' => if isDigit b then [([a; b], r'); ([a], r)] else [([a], r)]
      | [] => [([a], r)]
      end
    else []
  | [] => []
  end.

(** The first alternative on which the continuation succeeds. *)
Fixpoint first_match {A R : Type} (alts : list A) (k : A -> option R)
  : option R :=
  match alts with
  | [] => None
  | a :: alts' =>
    match k a with
    | Some r => Some r
    | None => first_match alts' k
    end
  end.

(** A match of the date pattern starting at the head of [s]: the three
    captured groups. *)
Definition date_match_at (s : jsstring)
  : option (jsstring * jsstring * jsstring) :=
  match digits4 s with
  | Some (year, c1 :: r1) =>
    if yearSeparator c1 then
      first_match (digits_1_2 r1) (fun '(month, r2) =>
        match r2 with
        | c2 :: r3 =>
          if monthSeparator c2 then
            first_match (digits_1_2 r3) (fun '(day, _) =>
              Some (year, month, day))
          else None
        | [] => None
        end)
    else None
  | _ => None
  end.

(** [s.match(pattern)] without the global flag: the leftmost match. *)
Fixpoint date_match (s : jsstring)
  : option (jsstring * jsstring * jsstring) :=
  match date_match_at s with
  | Some m => Some m
  | None =>
    match s with
    | [] => None
    | _ :: s' => date_match s'
    end
  end.

Record EqualsTextOptions : Type := {
  caseInsensitive : option bool;
  normalizeZh : option bool
}.

Definition default_equals : EqualsTextOptions :=
  {| caseInsensitive := None; normalizeZh := None |}.

Section NormalizeApi.
Context {B : Builtins}.

Definition parseDateString (input : jsstring) : option jsstring :=
  let normalized := normalizeText input {| lowercase := Some false |} in
  match date_match normalized with
  | None => None
  | Some (year, month, day) =>
    match parseInt10 year, parseInt10 month, parseInt10 day with
    | Some y, Some m, Some d =>
      Some (decimal_text y ++ js "-" ++ pad m ++ js "-" ++ pad d)
    | _, _, _ => None
    end
  end.

Definition normalizeNumberInput (input : jsstring) : option float :=
  let normalized := normalizeText input no_options in
  match normalized with
  | [] => None
  | _ =>
    let numeric :=
      Number_of_string (filter (fun c => negb (c =? 0x2C)) normalized) in
    if Number_isFinite numeric then Some numeric else None
  end.

(** [normalizeText] called on the result of a table lookup: a value that
    is not a string has no [split] method, so [toHalfWidth] throws. *)
Definition normalizeText_of (v : jsvalue) (options : NormalizeOptions)
  : completion jsstring :=
  match v with
  | JString s => Normal (normalizeText s options)
  | _ => Throw (TypeError "input.split is not a function")
  end.

Definition equalsText (input expected : jsstring)
    (options : EqualsTextOptions) : completion bool :=
  let lower := {| lowercase := Some (nullish (caseInsensitive options) true) |} in
  let normalizedInput := normalizeText input lower in
  let normalizedExpected :=
    match normalizeZh options with
    | Some true => nullish (object_get zhSynonyms expected) (JString expected)
    | _ => JString expected
    end in
  match normalizeText_of normalizedExpected lower with
  | Normal normalizedTarget => Normal (str_eqb normalizedInput normalizedTarget)
  | Throw e => Throw e
  end.

End NormalizeApi.

(* ------------------------------------------------------------------ *)
(** ** types.ts *)

Record McqQuestion : Type := {
  mcq_id : jsstring;
  mcq_stem : jsstring;
  mcq_options : list jsstring;
  mcq_score : option float
}.

Inductive FillinInputType : Type := TypeText | TypeNumber | TypeDate | TypeRegex.

Record FillinQuestion : Type := {
  fillin_id : jsstring;
  fillin_stem : jsstring;
  fillin_type : FillinInputType;
  fillin_score : option float
}.

(** The parts of [QuizData] the engine reads. *)
Record QuizData : Type := {
  mcq : list McqQuestion;
  fillins : list FillinQuestion
}.

(** [FillinRule], a union tagged by [mode]; [OtherRule] stands for a rule
    document whose tag is none of the four. *)
Inductive FillinRule : Type :=
| TextRule (answer : option jsstring) (accept : option (list jsstring))
           (caseInsensitive normalizeZh : option bool)
| RegexRule (pattern : jsstring)
| NumberRule (answer : float) (tolerance : option float)
| DateRule (answer : option jsstring) (accept : option (list jsstring))
| OtherRule (mode : jsstring).

(** [AnswerData]: each map is read only by [map[id]]; [None] is
    [undefined]. *)
Record AnswerData : Type := {
  answers_mcq : jsstring -> option float;
  answers_fillins : jsstring -> option FillinRule
}.

(** A value of type [T | null | undefined]. *)
Inductive nullable (T : Type) : Type :=
| Undefined
| Null
| Value (v : T).
Arguments Undefined {T}.
Arguments Null {T}.
Arguments Value {T} v.

(** What the examinee typed into a fill-in field: [string | number]. *)
Inductive FillinInput : Type :=
| Str (s : jsstring)
| Num (n : float).

Record SectionSummary : Type := {
  correctIds : list jsstring;
  incorrectIds : list jsstring;
  score : float;
  total : float
}.

Record ObjectiveSummary : Type := {
  summary_mcq : SectionSummary;
  summary_fillins : SectionSummary;
  totalScore : float;
  totalPossible : float
}.

(* ------------------------------------------------------------------ *)
(** ** grading.ts *)

(** [Number(x)] for [x : number | undefined]. *)
Definition Number_of_optional (x : option float) : float :=
  match x with Some n => n | None => PrimFloat.nan end.

Definition gradeMcq (userChoiceIdx : nullable float) (answerIdx : option float)
  : bool :=
  match userChoiceIdx with
  | Null | Undefined => false
  | Value n => PrimFloat.eqb n (Number_of_optional answerIdx)
  end.

(** A string is truthy when it is not empty. *)
Definition truthy (s : jsstring) : bool :=
  match s with [] => false | _ => true end.

Definition lift {A : Type} (c : completion A) : eff A := (c, []).

(** [array.some(f)]: stops at the first element on which [f] is true. *)
Fixpoint some_eff {A : Type} (f : A -> eff bool) (l : list A) : eff bool :=
  match l with
  | [] => ret false
  | a :: l' => bind (f a) (fun b => if b then ret true else some_eff f l')
  end.

Section Grading.
Context {B : Builtins}.
Local Open Scope eff_scope.

(** The [switch (rule.mode)] of [gradeFillin], for an input that passed
    the guard; [value] is the input as a string. *)
Definition gradeFillin_switch (userInput : FillinInput) (value : jsstring)
    (rule : FillinRule) : eff bool :=
  match rule with
  | TextRule answer accept ci nz =>
    let options :=
      {| caseInsensitive := Some (nullish ci true);
         normalizeZh := Some (nullish nz false) |} in
    match accept with
    | Some (c :: cs) =>
      some_eff (fun candidate => lift (equalsText value candidate options))
               (c :: cs)
    | _ =>
      match answer with
      | Some (c :: a) => lift (equalsText value (c :: a) options)
      | _ => ret false
      end
    end
  | RegexRule pattern =>
    match RegExp_new pattern with
    | Some regex => ret (RegExp_test regex value)
    | None => _ <- warn (InvalidRegex pattern) ;; ret false
    end
  | NumberRule answer tolerance =>
    let userNumber :=
      match userInput with
      | Num n => Some n
      | Str _ => normalizeNumberInput value
      end in
    match userNumber with
    | None => ret false
    | Some n =>
      let tolerance := nullish tolerance PrimFloat.zero in
      ret (PrimFloat.leb (PrimFloat.abs (PrimFloat.sub n answer))
                         (PrimFloat.add tolerance Number_EPSILON))
    end
  | DateRule answer accept =>
    let accepted :=
      filter truthy
        (match answer with Some a => [a] | None => [] end ++ nullish accept []) in
    match parseDateString value with
    | None => ret false
    | Some normalizedUser =>
      if negb (truthy normalizedUser) then ret false
      else
        match accepted with
        | [] => ret false
        | _ =>
          some_eff (fun candidate =>
                      ret (match parseDateString candidate with
                           | Some normalizedCandidate =>
                             str_eqb normalizedCandidate normalizedUser
                           | None => false
                           end))
                   accepted
        end
    end
  | OtherRule _ => ret false
  end.

Definition gradeFillin (userInput : nullable FillinInput) (rule : FillinRule)
  : eff bool :=
  match userInput with
  | Null | Undefined | Value (Str []) => ret false
  | Value (Str s) => gradeFillin_switch (Str s) s rule
  | Value (Num n) => gradeFillin_switch (Num n) (Number_toString n) rule
  end.

Definition getScore (declared : option float) : float :=
  nullish declared PrimFloat.one.

Definition empty_section : SectionSummary :=
  {| correctIds := []; incorrectIds := [];
     score := PrimFloat.zero; total := PrimFloat.zero |}.

(** What one question adds to the accumulator of its section. *)
Definition accumulate (acc : SectionSummary) (id : jsstring)
    (weight : float) (correct attempted : bool) : SectionSummary :=
  let total' := PrimFloat.add (total acc) weight in
  if correct then
    {| correctIds := correctIds acc ++ [id];
       incorrectIds := incorrectIds acc;
       score := PrimFloat.add (score acc) weight;
       total := total' |}
  else if attempted then
    {| correctIds := correctIds acc;
       incorrectIds := incorrectIds acc ++ [id];
       score := score acc;
       total := total' |}
  else
    {| correctIds := correctIds acc;
       incorrectIds := incorrectIds acc;
       score := score acc;
       total := total' |}.

Definition mcq_attempted (u : nullable float) : bool :=
  match u with Value _ => true | _ => false end.

Definition fillin_attempted (u : nullable FillinInput) : bool :=
  match u with
  | Null | Undefined | Value (Str []) => false
  | _ => true
  end.

Definition mcq_step (answers : AnswerData) (userMcq : jsstring -> nullable float)
    (acc : SectionSummary) (item : McqQuestion) : SectionSummary :=
  let correct := gradeMcq (userMcq (mcq_id item)) (answers_mcq answers (mcq_id item)) in
  let score := getScore (mcq_score item) in
  accumulate acc (mcq_id item) score correct (mcq_attempted (userMcq (mcq_id item))).

(** [user ?? ''] *)
Definition or_empty (user : nullable FillinInput) : nullable FillinInput :=
  match user with
  | Null | Undefined => Value (Str [])
  | _ => user
  end.

Definition fillin_step (answers : AnswerData)
    (userFillins : jsstring -> nullable FillinInput)
    (acc : SectionSummary) (item : FillinQuestion) : eff SectionSummary :=
  let rule := answers_fillins answers (fillin_id item) in
  let user := userFillins (fillin_id item) in
  correct <- match rule with
             | Some rule => gradeFillin (or_empty user) rule
             | None => ret false
             end ;;
  let score := getScore (fillin_score item) in
  ret (accumulate acc (fillin_id item) score correct (fillin_attempted user)).

(** [array.reduce] with a callback that may throw. *)
Fixpoint reduce_eff {A S : Type} (f : S -> A -> eff S) (l : list A) (acc : S)
  : eff S :=
  match l with
  | [] => ret acc
  | a :: l' => acc' <- f acc a ;; reduce_eff f l' acc'
  end.

Definition summarizeObjective (quiz : QuizData) (answers : AnswerData)
    (userMcq : jsstring -> nullable float)
    (userFillins : jsstring -> nullable FillinInput) : eff ObjectiveSummary :=
  let mcqResult := fold_left (mcq_step answers userMcq) (mcq quiz) empty_section in
  fillinResult <- reduce_eff (fillin_step answers userFillins) (fillins quiz)
                             empty_section ;;
  ret {| summary_mcq := mcqResult;
         summary_fillins := fillinResult;
         totalScore := PrimFloat.add (score mcqResult) (score fillinResult);
         totalPossible := PrimFloat.add (total mcqResult) (total fillinResult) |}.

End Grading.

(** *** [computeObjectiveScore] and [getQuestionScoreMap] *)


(** [obj[k] = v] on the own properties of an object built by
    [Object.fromEntries] (CreateDataProperty): a known key keeps its place
    and takes the new value, a new key is added. *)
Fixpoint set_property {V : Type} (k : jsstring) (v : V)
    (own : list (jsstring * V)) : list (jsstring * V) :=
  match own with
  | [] => [(k, v)]
  | (k', v') :: own' =>
    if str_eqb k k' then (k', v) :: own' else (k', v') :: set_property k v own'
  end.

(** [Object.fromEntries(entries)]: the own properties of the result. *)
Definition Object_fromEntries {V : Type} (entries : list (jsstring * V))
  : list (jsstring * V) :=
  fold_left (fun own kv => set_property (fst kv) (snd kv) own) entries [].

(** The two maps that [getQuestionScoreMap] returns, each by its own
    properties. *)
Record QuestionScoreMap : Type := {
  mcqScores : list (jsstring * float);
  fillinScores : list (jsstring * float)
}.

(** One entry [[q.id, getScore(q)]] per question, in declaration order. *)
Definition getQuestionScoreMap (quiz : QuizData) : QuestionScoreMap :=
  {| mcqScores :=
       Object_fromEntries
         (map (fun q => (mcq_id q, getScore (mcq_score q))) (mcq quiz));
     fillinScores :=
       Object_fromEntries
         (map (fun q => (fillin_id q, getScore (fillin_score q))) (fillins quiz)) |}.

(** *** [encodeURIComponent]

    Written out from the language specification (Encode with the
    unreserved set of [encodeURIComponent]): an unreserved character is
    kept, any other code point is replaced by the escapes of its UTF-8
    octets. *)

(** The characters that are not escaped: letters, digits and
    [- _ . ! ~ * ' ( )]. *)
Definition unreserved (c : Z) : bool :=
  ((0x41 <=? c) && (c <=? 0x5A)) || ((0x61 <=? c) && (c <=? 0x7A))
  || isDigit c
  || (c =? 0x2D) || (c =? 0x5F) || (c =? 0x2E) || (c =? 0x21) || (c =? 0x7E)
  || (c =? 0x2A) || (c =? 0x27) || (c =? 0x28) || (c =? 0x29).

(** The two halves of a surrogate pair. *)
Definition isLeadingSurrogate (c : Z) : bool := (0xD800 <=? c) && (c <=? 0xDBFF).

Definition isTrailingSurrogate (c : Z) : bool := (0xDC00 <=? c) && (c <=? 0xDFFF).

(** UTF16SurrogatePairToCodePoint. *)
Definition surrogate_pair (lead trail : Z) : Z :=
  (lead - 0xD800) * 0x400 + (trail - 0xDC00) + 0x10000.

(** The UTF-8 octets of a code point. *)
Definition utf8_octets (cp : Z) : list Z :=
  if cp <? 0x80 then [cp]
  else if cp <? 0x800 then [0xC0 + cp / 64; 0x80 + cp mod 64]
  else if cp <? 0x10000 then
    [0xE0 + cp / 4096; 0x80 + (cp / 64) mod 64; 0x80 + cp mod 64]
  else
    [0xF0 + cp / 262144; 0x80 + (cp / 4096) mod 64;
     0x80 + (cp / 64) mod 64; 0x80 + cp mod 64].

(** The upper-case hexadecimal digit of a value below 16. *)
Definition hex_upper (d : Z) : Z := if d <? 10 then 0x30 + d else 0x37 + d.

(** An octet as [%XX], in upper-case hexadecimal. *)
Definition percent (octet : Z) : jsstring :=
  [0x25; hex_upper (octet / 16); hex_upper (octet mod 16)].

(** [encodeURIComponent(s)]; [None] when it throws a URIError, which it
    does on a surrogate that is not part of a pair. *)
Fixpoint encodeURIComponent (s : jsstring) : option jsstring :=
  match s with
  | [] => Some []
  | c :: r =>
    if unreserved c then option_map (cons c) (encodeURIComponent r)
    else if isTrailingSurrogate c then None
    else if isLeadingSurrogate c then
      match r with
      | d :: r' =>
        if isTrailingSurrogate d then
          option_map (app (flat_map percent (utf8_octets (surrogate_pair c d))))
                     (encodeURIComponent r')
        else None
      | [] => None
      end
    else option_map (app (flat_map percent (utf8_octets c)))
                    (encodeURIComponent r)
  end.

(** *** [essayMailTemplate] *)

(** What [essayMailTemplate] returns. *)
Record MailTemplate : Type := {
  subject : jsstring;
  body : jsstring;
  rawBody : jsstring
}.

(** [s || d] on strings. *)
Definition or_text (s d : jsstring) : jsstring := if truthy s then s else d.

(** The constant [subject] of [essayMailTemplate]: the title, the name or
    a placeholder, and the date part of the time stamp
    ([timestamp.split('T')[0]]). *)
Definition essay_subject (name timestamp : jsstring) : jsstring :=
  js "农历测试卷-综合题-" ++ or_text name (js "未署名") ++ js "-"
  ++ nth 0 (split_on 0x54 timestamp) [].

(** The line of one section in the body: its title, the score over the
    total, and the ids answered wrongly or a placeholder. *)
Definition section_line (title : jsstring) (s : SectionSummary) : jsstring :=
  title ++ js "：得分 " ++ Number_toString (score s) ++ js " / "
  ++ Number_toString (total s) ++ js "，错题："
  ++ or_text (join (js ", ") (incorrectIds s)) (js "无").

(** The constant [bodyLines]. *)
Definition essay_bodyLines (name : jsstring) (summary : ObjectiveSummary)
    (essayContent timestamp : jsstring) : list jsstring :=
  [ js "姓名：" ++ or_text name (js "未署名");
    js "时间：" ++ timestamp;
    js "客观题总分：" ++ Number_toString (totalScore summary) ++ js " / "
    ++ Number_toString (totalPossible summary);
    section_line (js "选择题") (summary_mcq summary);
    section_line (js "填空题") (summary_fillins summary);
    [];
    js "综合题作答：";
    or_text essayContent (js "(未填写)") ].

(** [None] when one of the two calls of [encodeURIComponent] throws. *)
Definition essayMailTemplate (name : jsstring) (summary : ObjectiveSummary)
    (essayContent timestamp : jsstring) : option MailTemplate :=
  let subject := essay_subject name timestamp in
  let bodyLines := essay_bodyLines name summary essayContent timestamp in
  match encodeURIComponent (join [0x0A] bodyLines) with
  | None => None
  | Some body =>
    match encodeURIComponent subject with
    | None => None
    | Some subject =>
      Some {| subject := subject; body := body;
              rawBody := join [0x0A] bodyLines |}
    end
  end.

(** App.tsx: the link of the essay form. *)
Definition mailtoHref (mailTemplate : MailTemplate) : jsstring :=
  js "mailto:lzraylzray@outlook.com?subject=" ++ subject mailTemplate
  ++ js "&body=" ++ body mailTemplate.

(* ------------------------------------------------------------------ *)
(** ** An executable runtime

    [small_builtins] implements the interface on a fragment of what an
    engine offers.  Lower-casing covers Basic Latin, Latin-1 Supplement
    and the fullwidth forms, one code unit at a time.  Regular expressions
    are those built from characters, [.], the escapes [\d \D \s \S \w \W
    \t \n \r \f \v] and escaped punctuation, classes [[...]], groups,
    [|], [* + ?] (greedy or lazy) and the assertions [^ $]; a pattern with
    another construct is refused like an ill-formed one. *)

Module Small.

Definition lower_unit (c : Z) : Z :=
  if (0x41 <=? c) && (c <=? 0x5A) then c + 32
  else if (0xC0 <=? c) && (c <=? 0xDE) && negb (c =? 0xD7) then c + 32
  else if (0xFF21 <=? c) && (c <=? 0xFF3A) then c + 32
  else c.

Definition toLowerCase (s : jsstring) : jsstring := map lower_unit s.

Inductive regex : Type :=
| Fail_
| Eps
| Chr (p : Z -> bool)
| Seq (a b : regex)
| Alt (a b : regex)
| Star (a : regex)
| Bol
| Eol.

Definition seq (a b : regex) : regex :=
  match a, b with
  | Fail_, _ => Fail_
  | _, Fail_ => Fail_
  | Eps, _ => b
  | _, _ => Seq a b
  end.

Definition alt (a b : regex) : regex :=
  match a, b with
  | Fail_, _ => b
  | _, Fail_ => a
  | _, _ => Alt a b
  end.

(** Whether [r] matches the empty string at a position that is the start
    ([atStart]) or the end ([atEnd]) of the input. *)
Fixpoint nullable (atStart atEnd : bool) (r : regex) : bool :=
  match r with
  | Fail_ => false
  | Eps => true
  | Chr _ => false
  | Seq a b => nullable atStart atEnd a && nullable atStart atEnd b
  | Alt a b => nullable atStart atEnd a || nullable atStart atEnd b
  | Star _ => true
  | Bol => atStart
  | Eol => atEnd
  end.

(** What remains to be matched after [r] has read the unit [c]. *)
Fixpoint deriv (atStart : bool) (c : Z) (r : regex) : regex :=
  match r with
  | Fail_ | Eps | Bol | Eol => Fail_
  | Chr p => if p c then Eps else Fail_
  | Seq a b =>
    alt (seq (deriv atStart c a) b)
        (if nullable atStart false a then deriv atStart c b else Fail_)
  | Alt a b => alt (deriv atStart c a) (deriv atStart c b)
  | Star a => seq (deriv atStart c a) (Star a)
  end.

Fixpoint run (atStart : bool) (r : regex) (s : jsstring) : bool :=
  match s with
  | [] => nullable atStart true r
  | c :: s' => run false (deriv atStart c r) s'
  end.

Definition anything : regex := Star (Chr (fun _ => true)).

(** [regex.test(s)]: some substring of [s] matches. *)
Definition test (r : regex) (s : jsstring) : bool :=
  run true (Seq anything (Seq r anything)) s.

Definition isLineTerminator (c : Z) : bool :=
  (c =? 0x0A) || (c =? 0x0D) || (c =? 0x2028) || (c =? 0x2029).

Definition isWordChar (c : Z) : bool :=
  ((0x41 <=? c) && (c <=? 0x5A)) || ((0x61 <=? c) && (c <=? 0x7A))
  || isDigit c || (c =? 0x5F).

(** The set an escape [\c] denotes; [None] for an escape outside the
    fragment (back references, [\b], [\x], [\u], [\c], [\k]). *)
Definition escape (inClass : bool) (c : Z) : option (Z -> bool) :=
  if c =? 0x64 then Some isDigit
  else if c =? 0x44 then Some (fun x => negb (isDigit x))
  else if c =? 0x73 then Some isWhiteSpace
  else if c =? 0x53 then Some (fun x => negb (isWhiteSpace x))
  else if c =? 0x77 then Some isWordChar
  else if c =? 0x57 then Some (fun x => negb (isWordChar x))
  else if c =? 0x74 then Some (Z.eqb 0x09)
  else if c =? 0x6E then Some (Z.eqb 0x0A)
  else if c =? 0x76 then Some (Z.eqb 0x0B)
  else if c =? 0x66 then Some (Z.eqb 0x0C)
  else if c =? 0x72 then Some (Z.eqb 0x0D)
  else if (c =? 0x62) && inClass then Some (Z.eqb 0x08)
  else if isWordChar c then None
  else Some (Z.eqb c).

(** The members of a class, after [[] or [[^]: the set and the rest of the
    pattern after the closing bracket. *)
Fixpoint class_items (s : jsstring) (acc : Z -> bool)
  : option ((Z -> bool) * jsstring) :=
  match s with
  | [] => None
  | 0x5D :: r => Some (acc, r)
  | 0x5C :: c :: r =>
    match escape true c with
    | Some p => class_items r (fun x => acc x || p x)
    | None => None
    end
  | [0x5C] => None
  | a :: 0x2D :: b :: r =>
    if b =? 0x5D then Some (fun x => acc x || (x =? a) || (x =? 0x2D), r)
    else if b =? 0x5C then None
    else if a <=? b then
      class_items r (fun x => acc x || ((a <=? x) && (x <=? b)))
    else None
  | a :: r => class_items r (fun x => acc x || (x =? a))
  end.

Definition quantified (t : regex) (s : jsstring) : option (regex * jsstring) :=
  let lazy_mark r := match r with 0x3F :: r' => r' | _ => r end in
  match s with
  | 0x2A :: r => Some (Star t, lazy_mark r)
  | 0x2B :: r => Some (Seq t (Star t), lazy_mark r)
  | 0x3F :: r => Some (Alt Eps t, lazy_mark r)
  | 0x7B :: _ => None
  | _ => Some (t, s)
  end.

(** Recursive descent over Disjunction, Alternative and Term; [fuel]
    bounds the nesting of calls. *)
Fixpoint disjunction (fuel : nat) (s : jsstring) : option (regex * jsstring) :=
  match fuel with
  | O => None
  | S fuel' =>
    match alternative fuel' s Eps with
    | Some (a, 0x7C :: r) =>
      match disjunction fuel' r with
      | Some (b, r') => Some (Alt a b, r')
      | None => None
      end
    | other => other
    end
  end
with alternative (fuel : nat) (s : jsstring) (acc : regex)
  : option (regex * jsstring) :=
  match fuel with
  | O => None
  | S fuel' =>
    match s with
    | [] => Some (acc, [])
    | 0x7C :: _ | 0x29 :: _ => Some (acc, s)
    | 0x5E :: r => alternative fuel' r (Seq acc Bol)
    | 0x24 :: r => alternative fuel' r (Seq acc Eol)
    | _ =>
      match atom fuel' s with
      | Some (t, r) =>
        match quantified t r with
        | Some (t', r') => alternative fuel' r' (Seq acc t')
        | None => None
        end
      | None => None
      end
    end
  end
with atom (fuel : nat) (s : jsstring) : option (regex * jsstring) :=
  match fuel with
  | O => None
  | S fuel' =>
    let group body :=
      match disjunction fuel' body with
      | Some (d, 0x29 :: r) => Some (d, r)
      | _ => None
      end in
    match s with
    | 0x28 :: 0x3F :: 0x3A :: r => group r
    | 0x28 :: 0x3F :: _ => None
    | 0x28 :: r => group r
    | 0x2E :: r => Some (Chr (fun x => negb (isLineTerminator x)), r)
    | 0x5C :: c :: r =>
      match escape false c with
      | Some p => Some (Chr p, r)
      | None => None
      end
    | 0x5B :: 0x5E :: r =>
      match class_items r (fun _ => false) with
      | Some (p, r') => Some (Chr (fun x => negb (p x)), r')
      | None => None
      end
    | 0x5B :: r =>
      match class_items r (fun _ => false) with
      | Some (p, r') => Some (Chr p, r')
      | None => None
      end
    | c :: r =>
      if (c =? 0x2A) || (c =? 0x2B) || (c =? 0x3F) || (c =? 0x7B)
         || (c =? 0x5C) || (c =? 0x29)
      then None
      else Some (Chr (Z.eqb c), r)
    | [] => None
    end
  end.

Definition compile (pattern : jsstring) : option regex :=
  match disjunction (4 * (List.length pattern + 1)) pattern with
  | Some (r, []) => Some r
  | _ => None
  end.

End Small.

Definition small_builtins : Builtins :=
  {| toLowerCase := Small.toLowerCase;
     RegExp := Small.regex;
     RegExp_new := Small.compile;
     RegExp_test := Small.test |}.

(* ------------------------------------------------------------------ *)
(** * Notions used in the statements *)

(** ** Text *)

(** The synonym step of [normalizeText] on one token. *)
Definition synonym (word : jsstring) : jsstring :=
  ToString (nullish (object_get zhSynonyms word) (JString word)).

(** The steps of [normalizeText] after the width, white-space and case
    passes: split at the spaces, replace, join. *)
Definition unify (lower : jsstring) : jsstring :=
  join (js " ") (map synonym (split_on 0x20 lower)).

(** The token names no member inherited from [Object.prototype]. *)
Definition not_inherited (w : jsstring) : Prop :=
  assoc w ObjectPrototype = None.

Definition starts_word (s : jsstring) : bool :=
  match s with
  | c :: _ => negb (isWhiteSpace c)
  | [] => false
  end.

(** The maximal runs of units that are not white space. *)
Fixpoint tokens (s : jsstring) : list jsstring :=
  match s with
  | [] => []
  | c :: s' =>
    if isWhiteSpace c then tokens s'
    else if starts_word s' then
      match tokens s' with
      | w :: ws => (c :: w) :: ws
      | [] => [[c]]
      end
    else [c] :: tokens s'
  end.

Definition spaceless (w : jsstring) : Prop :=
  Forall (fun c => isWhiteSpace c = false) w.

(** A word: not empty and without white space. *)
Definition word (w : jsstring) : Prop := w <> [] /\ spaceless w.

(** [toHalfWidth] leaves the unit as it is. *)
Definition width_fixed (c : Z) : Prop := toHalfWidth_char [c] = JString [c].

(** One pass of [normalizeText], [f] being the case step ([toLowerCase],
    or the identity when the caller keeps the case). *)
Definition pass (f : jsstring -> jsstring) (s : jsstring) : jsstring :=
  unify (f (normalizeWhitespace (toHalfWidth s))).

(** What idempotence asks of lower-casing: it works token by token, is
    idempotent itself, and produces neither an empty token, nor white
    space, nor a character that [toHalfWidth] would change; and it keeps
    the canonical synonym. *)
Record LowerCaseLaws (B : Builtins) : Prop := {
  lower_tokens :
    forall ws, toLowerCase (join (js " ") ws)
               = join (js " ") (map toLowerCase ws);
  lower_idempotent : forall s, toLowerCase (toLowerCase s) = toLowerCase s;
  lower_nonempty : forall s, toLowerCase s = [] -> s = [];
  lower_spaceless : forall s, spaceless s -> spaceless (toLowerCase s);
  lower_width :
    forall s, Forall width_fixed s -> Forall width_fixed (toLowerCase s);
  lower_utc : toLowerCase (js "utc+8") = js "utc+8"
}.

(** ** Numbers and dates *)

Definition strip_commas (s : jsstring) : jsstring :=
  filter (fun c => negb (c =? 0x2C)) s.

(** What [normalizeNumberInput] does with the normalized text. *)
Definition number_of_normalized (normalized : jsstring) : option float :=
  match normalized with
  | [] => None
  | _ =>
    let numeric := Number_of_string (strip_commas normalized) in
    if Number_isFinite numeric then Some numeric else None
  end.

(** The number verdict in the words of the specification:
    [|userNumber - answer| <= tolerance + epsilon], the tolerance being 0
    when the rule gives none. *)
Definition within_tolerance (userNumber answer : float)
    (tolerance : option float) : bool :=
  PrimFloat.leb
    (PrimFloat.abs (PrimFloat.sub userNumber answer))
    (PrimFloat.add (nullish tolerance PrimFloat.zero) Number_EPSILON).

(** A string of decimal digits. *)
Definition digits (ds : jsstring) : Prop :=
  Forall (fun c => isDigit c = true) ds.

(** ** Rules on which grading returns *)

(** [equalsText] with [normalizeZh] raises on [expected] when the lookup
    in [zhSynonyms] yields a value that is not a string. *)
Definition raises (expected : jsstring) : bool :=
  match object_get zhSynonyms expected with
  | Some (JString _) | None => false
  | Some _ => true
  end.

(** The strings a text rule compares the input with. *)
Definition candidates (answer : option jsstring)
    (accept : option (list jsstring)) : list jsstring :=
  match accept with
  | Some (c :: cs) => c :: cs
  | _ =>
    match answer with
    | Some (c :: a) => [c :: a]
    | _ => []
    end
  end.

(** Every rule but a text rule that asks for [normalizeZh] and has a
    candidate on which [equalsText] raises. *)
Definition rule_is_safe (rule : FillinRule) : bool :=
  match rule with
  | TextRule answer accept _ (Some true) =>
    forallb (fun c => negb (raises c)) (candidates answer accept)
  | _ => true
  end.

(** ** The objective summary *)

(** One question as the aggregation sees it: its id, its weight, its
    verdict and whether the examinee answered it. *)
Record graded : Type := {
  g_id : jsstring;
  g_weight : float;
  g_verdict : bool;
  g_attempted : bool
}.

Definition wrong_attempt (g : graded) : bool :=
  negb (g_verdict g) && g_attempted g.

(** The weights added one after the other, in declaration order, to
    [init]: the sum as the accumulator computes it. *)
Definition sum_weights (init : float) (gs : list graded) : float :=
  fold_left PrimFloat.add (map g_weight gs) init.

(** A section summary in the words of the specification, continuing the
    accumulator [acc]. *)
Definition section_of (acc : SectionSummary) (gs : list graded)
  : SectionSummary :=
  {| correctIds := correctIds acc ++ map g_id (filter g_verdict gs);
     incorrectIds := incorrectIds acc ++ map g_id (filter wrong_attempt gs);
     score := sum_weights (score acc) (filter g_verdict gs);
     total := sum_weights (total acc) gs |}.

Definition verdict_of (e : eff bool) : bool :=
  match fst e with
  | Normal b => b
  | Throw _ => false
  end.

(** [l1] is [l2] with some elements left out, the order kept. *)
Inductive subseq {A : Type} : list A -> list A -> Prop :=
| subseq_nil : subseq [] []
| subseq_skip (x : A) (l1 l2 : list A) : subseq l1 l2 -> subseq l1 (x :: l2)
| subseq_take (x : A) (l1 l2 : list A) : subseq l1 l2 -> subseq (x :: l1) (x :: l2).

Definition disjoint {A : Type} (l1 l2 : list A) : Prop :=
  forall x, In x l1 -> In x l2 -> False.

Section Graded.
Context {B : Builtins}.
Variable answers : AnswerData.
Variable userMcq : jsstring -> nullable float.
Variable userFillins : jsstring -> nullable FillinInput.

Definition mcq_graded (q : McqQuestion) : graded :=
  {| g_id := mcq_id q;
     g_weight := getScore (mcq_score q);
     g_verdict := gradeMcq (userMcq (mcq_id q)) (answers_mcq answers (mcq_id q));
     g_attempted := mcq_attempted (userMcq (mcq_id q)) |}.

(** The grading of one fill-in question: [rule ? gradeFillin(user ?? '',
    rule) : false]. *)
Definition fillin_grade (q : FillinQuestion) : eff bool :=
  match answers_fillins answers (fillin_id q) with
  | Some rule => gradeFillin (or_empty (userFillins (fillin_id q))) rule
  | None => ret false
  end.

Definition fillin_graded (q : FillinQuestion) : graded :=
  {| g_id := fillin_id q;
     g_weight := getScore (fillin_score q);
     g_verdict := verdict_of (fillin_grade q);
     g_attempted := fillin_attempted (userFillins (fillin_id q)) |}.

(** The fill-in question has a verdict: its grading returns. *)
Definition has_verdict (q : FillinQuestion) : Prop :=
  exists b w, fillin_grade q = (Normal b, w).

End Graded.

(** A small quiz: two single-choice questions (the first without a
    declared score) and two fill-in questions of weights 2 and 3. *)
Definition sample_quiz : QuizData :=
  {| mcq :=
       [ {| mcq_id := js "m1"; mcq_stem := js "first"; mcq_options := [];
            mcq_score := None |};
         {| mcq_id := js "m2"; mcq_stem := js "second"; mcq_options := [];
            mcq_score := Some 2%float |} ];
     fillins :=
       [ {| fillin_id := js "q1"; fillin_stem := js "date";
            fillin_type := TypeDate; fillin_score := Some 2%float |};
         {| fillin_id := js "q2"; fillin_stem := js "number";
            fillin_type := TypeNumber; fillin_score := Some 3%float |} ] |}.

Definition sample_answers : AnswerData :=
  {| answers_mcq := fun id =>
       if str_eqb id (js "m1") then Some 1%float
       else if str_eqb id (js "m2") then Some 0%float
       else None;
     answers_fillins := fun id =>
       if str_eqb id (js "q1") then Some (DateRule (Some (js "2034-02-19")) None)
       else if str_eqb id (js "q2")
       then Some (NumberRule 29.531%float (Some 0.002%float))
       else None |}.

(** The examinee chose the right option for [m1], a wrong one for [m2],
    typed the date of [q1] in Chinese and left [q2] empty. *)
Definition sample_userMcq (id : jsstring) : nullable float :=
  if str_eqb id (js "m1") then Value 1%float
  else if str_eqb id (js "m2") then Value 3%float
  else Undefined.

Definition sample_userFillins (id : jsstring) : nullable FillinInput :=
  if str_eqb id (js "q1") then Value (Str (js "2034年2月19日"))
  else if str_eqb id (js "q2") then Value (Str [])
  else Undefined.

(** A quiz of one fill-in question whose text rule asks for
    [normalizeZh] and expects the word "constructor"; the examinee typed
    "x". *)
Definition raising_quiz : QuizData :=
  {| mcq := [];
     fillins :=
       [ {| fillin_id := js "q1"; fillin_stem := js "word";
            fillin_type := TypeText; fillin_score := None |} ] |}.

Definition raising_answers : AnswerData :=
  {| answers_mcq := fun _ => None;
     answers_fillins := fun id =>
       if str_eqb id (js "q1")
       then Some (TextRule (Some (js "constructor")) None None (Some true))
       else None |}.

Definition raising_userFillins (id : jsstring) : nullable FillinInput :=
  if str_eqb id (js "q1") then Value (Str (js "x")) else Undefined.

(** A quiz that declares the id "m1" twice; the examinee chose the right
    option. *)
Definition twin_quiz : QuizData :=
  {| mcq :=
       [ {| mcq_id := js "m1"; mcq_stem := js "first"; mcq_options := [];
            mcq_score := None |};
         {| mcq_id := js "m1"; mcq_stem := js "again"; mcq_options := [];
            mcq_score := None |} ];
     fillins := [] |}.

Definition twin_answers : AnswerData :=
  {| answers_mcq := fun id => if str_eqb id (js "m1") then Some 1%float else None;
     answers_fillins := fun _ => None |}.

Definition twin_userMcq (id : jsstring) : nullable float :=
  if str_eqb id (js "m1") then Value 1%float else Undefined.

(** ** Notions of the further properties *)

(** The half-width form of one code unit: the digits and letters of the
    full-width block move down by 0xFEE0, the sixteen keys of
    [fullWidthMap] become their ASCII counterparts, every other unit is
    kept. *)
Definition half_unit (c : Z) : Z :=
  if ((0xFF10 <=? c) && (c <=? 0xFF19))
     || ((0xFF21 <=? c) && (c <=? 0xFF3A))
     || ((0xFF41 <=? c) && (c <=? 0xFF5A))
  then c - 0xFEE0
  else match assoc [c] fullWidthMap with
       | Some [x] => x
       | _ => c
       end.

Definition blank (s : jsstring) : Prop :=
  Forall (fun c => isWhiteSpace c = true) s.

(** The rule is not a pattern. *)
Definition not_regex (rule : FillinRule) : Prop :=
  match rule with RegexRule _ => False | _ => True end.

(** The text after the width, white-space and case steps. *)
Definition lowered {B : Builtins} (value : jsstring) (o : NormalizeOptions)
  : jsstring :=
  match lowercase o with
  | Some false => normalizeWhitespace (toHalfWidth value)
  | _ => toLowerCase (normalizeWhitespace (toHalfWidth value))
  end.

(** The names of the members that every object literal inherits. *)
Definition inherited_names : list jsstring := map fst ObjectPrototype.

(** The candidates of a text rule up to the first that decides: each of
    them is compared and found different. *)
Definition passed_over {B : Builtins} (value : jsstring)
    (o : EqualsTextOptions) (pre : list jsstring) : Prop :=
  forall x, In x pre -> equalsText value x o = Normal false.

(** The case step of a comparison: lower-casing unless the caller asked
    for a case-sensitive comparison. *)
Definition case_step {B : Builtins} (ci : option bool) : jsstring -> jsstring :=
  if nullish ci true then toLowerCase else fun s => s.

(** The tokens that [normalizeText] compares: the white-space-free runs of
    the half-width form, after the case step. *)
Definition compared_tokens {B : Builtins} (ci : option bool) (s : jsstring)
  : list jsstring :=
  map (case_step ci) (tokens (toHalfWidth s)).

(** A date as a text: four digits, a separator of the year, one or two
    digits, a separator of the month, one or two digits, and a tail that
    holds no white space and no full-width form and does not go on with a
    digit after a one-digit day. *)
Definition spelled (Y M D : jsstring) (c1 c2 : Z) (rest : jsstring) : jsstring :=
  Y ++ c1 :: M ++ c2 :: D ++ rest.

Definition one_or_two (ds : jsstring) : Prop :=
  digits ds /\ (List.length ds = 1%nat \/ List.length ds = 2%nat).

Definition date_tail (D rest : jsstring) : Prop :=
  spaceless rest /\ Forall width_fixed rest
  /\ (List.length D = 1%nat ->
      match rest with c :: _ => isDigit c = false | [] => True end).

Record date_spelling (Y M D : jsstring) (c1 c2 : Z) (rest : jsstring) : Prop := {
  spelling_year : digits Y /\ List.length Y = 4%nat;
  spelling_sep1 : yearSeparator c1 = true;
  spelling_month : one_or_two M;
  spelling_sep2 : monthSeparator c2 = true;
  spelling_day : one_or_two D;
  spelling_tail : date_tail D rest
}.

(** The number a run of digits denotes. *)
Definition decimal_number (ds : jsstring) : Z := digits_value 10 decimal_digit ds.

(** The canonical text of a date. *)
Definition canonical (y m d : Z) : jsstring :=
  decimal_text y ++ js "-" ++ pad m ++ js "-" ++ pad d.












(** A UTF-16 code unit. *)
Definition code_unit (c : Z) : bool := (0 <=? c) && (c <? 0x10000).

(** A code unit that is no surrogate. *)
Definition scalar_unit (c : Z) : bool :=
  code_unit c && negb (isLeadingSurrogate c) && negb (isTrailingSurrogate c).

(** What an encoded component is made of. *)
Definition uri_char (c : Z) : bool := unreserved c || (c =? 0x25).

(** What the template is built from: the name, the time stamp, the essay
    and the ids of the summary. *)
Definition template_units (p : Z -> bool) (name : jsstring)
    (summary : ObjectiveSummary) (essayContent timestamp : jsstring) : bool :=
  forallb p name && forallb p essayContent && forallb p timestamp
  && forallb (forallb p) (incorrectIds (summary_mcq summary))
  && forallb (forallb p) (incorrectIds (summary_fillins summary)).

(** [String.prototype.isWellFormed]: every surrogate is part of a pair. *)
Fixpoint well_formed (s : jsstring) : bool :=
  match s with
  | [] => true
  | c :: r =>
    if isTrailingSurrogate c then false
    else if isLeadingSurrogate c then
      match r with
      | d :: r' => isTrailingSurrogate d && well_formed r'
      | [] => false
      end
    else well_formed r
  end.

(** The texts the template is built from are well formed. *)
Definition template_well_formed (name : jsstring) (summary : ObjectiveSummary)
    (essayContent timestamp : jsstring) : bool :=
  well_formed name && well_formed essayContent && well_formed timestamp
  && forallb well_formed (incorrectIds (summary_mcq summary))
  && forallb well_formed (incorrectIds (summary_fillins summary)).

(** A summary and the texts of an examinee whose name holds the
    characters that separate the parts of a link. *)
Definition mail_summary : ObjectiveSummary :=
  {| summary_mcq :=
       {| correctIds := [js "m1"]; incorrectIds := [js "m2"; js "m3"];
          score := 1%float; total := 3%float |};
     summary_fillins :=
       {| correctIds := [js "q1"]; incorrectIds := [];
          score := 2%float; total := 5.5%float |};
     totalScore := 3%float;
     totalPossible := 8.5%float |}.

Definition mail_name : jsstring := js "张三 & co?cc=x".

Definition mail_essay : jsstring := js "第一行 😀 #1&body=".

Definition mail_timestamp : jsstring := js "2026-11-03T10:00:00+08:00".

(** What [scores[id]] yields on such a map: a score, or a member
    inherited from [Object.prototype]; [None] is [undefined]. *)
Definition score_get (own : list (jsstring * float)) (key : jsstring)
  : option (float + jsvalue) :=
  match assoc key own with
  | Some n => Some (inl n)
  | None => option_map inr (assoc key ObjectPrototype)
  end.

(* ------------------------------------------------------------------ *)
(** * Properties *)

(** Case analysis on the comparisons of a goal, closing each case by
    arithmetic. *)
Ltac solve_tests :=
  cbn [andb orb negb];
  first [ lia
        | reflexivity
        | lazymatch goal with
          | |- context [Z.leb ?a ?b] => destruct (Z.leb_spec a b); solve_tests
          | |- context [Z.eqb ?a ?b] => destruct (Z.eqb_spec a b); solve_tests
          end ].

Ltac decide_tests :=
  repeat match goal with
         | |- context [Z.leb ?a ?b] => destruct (Z.leb_spec a b); try lia
         | |- context [Z.eqb ?a ?b] => destruct (Z.eqb_spec a b); try lia
         end.

(** ** Text comparison *)

Section TextFacts.
Context {B : Builtins}.

Lemma normalizeText_pass (value : jsstring) (o : NormalizeOptions) :
  normalizeText value o
  = match lowercase o with
    | Some false => pass (fun s => s) value
    | _ => pass toLowerCase value
    end.
Proof.
  unfold normalizeText, pass, unify, synonym. rewrite map_map.
  destruct (lowercase o) as [[|] |]; reflexivity.
Qed.

Lemma normalizeText_lower (value : jsstring) (o : NormalizeOptions) :
  lowercase o <> Some false ->
  normalizeText value o = unify (toLowerCase (normalizeWhitespace (toHalfWidth value))).
Proof.
  intros H. rewrite normalizeText_pass.
  destruct (lowercase o) as [[|]|]; try reflexivity. congruence.
Qed.

Lemma normalizeText_keep (value : jsstring) :
  normalizeText value {| lowercase := Some false |}
  = unify (normalizeWhitespace (toHalfWidth value)).
Proof. rewrite normalizeText_pass. reflexivity. Qed.

(** Without [normalizeZh], and whatever the case option, [equalsText]
    compares the two normalized strings. *)
Lemma equalsText_plain (input expected : jsstring) (ci nz : option bool) :
  nz <> Some true ->
  equalsText input expected {| caseInsensitive := ci; normalizeZh := nz |}
  = Normal (str_eqb
              (normalizeText input {| lowercase := Some (nullish ci true) |})
              (normalizeText expected {| lowercase := Some (nullish ci true) |})).
Proof.
  intros H. unfold equalsText. cbn [normalizeZh caseInsensitive].
  destruct nz as [[|]|]; try reflexivity. congruence.
Qed.

(** With [normalizeZh], the expected side is first replaced by what the
    table holds under the whole string. *)
Lemma equalsText_zh (input expected : jsstring) (ci : option bool) :
  equalsText input expected {| caseInsensitive := ci; normalizeZh := Some true |}
  = match normalizeText_of
            (nullish (object_get zhSynonyms expected) (JString expected))
            {| lowercase := Some (nullish ci true) |} with
    | Normal target =>
      Normal (str_eqb
                (normalizeText input {| lowercase := Some (nullish ci true) |})
                target)
    | Throw e => Throw e
    end.
Proof. reflexivity. Qed.

End TextFacts.




(* ------------------------------------------------------------------ *)
(** ** Grading one fill-in answer *)

Lemma normalizeNumberInput_eq {B : Builtins} (input : jsstring) :
  normalizeNumberInput input
  = number_of_normalized (normalizeText input no_options).
Proof. reflexivity. Qed.

Section GradingFacts.
Context {B : Builtins}.

Lemma gradeFillin_absent (rule : FillinRule) :
  gradeFillin Null rule = ret false
  /\ gradeFillin Undefined rule = ret false
  /\ gradeFillin (Value (Str [])) rule = ret false.
Proof. repeat split. Qed.

Lemma gradeFillin_string (c : Z) (s : jsstring) (rule : FillinRule) :
  gradeFillin (Value (Str (c :: s))) rule
  = gradeFillin_switch (Str (c :: s)) (c :: s) rule.
Proof. reflexivity. Qed.

Lemma gradeFillin_nonempty (s : jsstring) (rule : FillinRule) :
  s <> [] ->
  gradeFillin (Value (Str s)) rule = gradeFillin_switch (Str s) s rule.
Proof. destruct s; [congruence | reflexivity]. Qed.

Lemma some_eff_pure {A : Type} (f : A -> bool) (l : list A) :
  some_eff (fun a => ret (f a)) l = ret (existsb f l).
Proof.
  induction l as [| a l IH]; [reflexivity |].
  cbn [some_eff existsb]. unfold bind, ret at 1.
  destruct (f a); [reflexivity |].
  rewrite IH. reflexivity.
Qed.

Lemma some_eff_lift_normal {A : Type} (f : A -> completion bool) (g : A -> bool)
    (l : list A) :
  (forall a, In a l -> f a = Normal (g a)) ->
  some_eff (fun a => lift (f a)) l = ret (existsb g l).
Proof.
  induction l as [| a l IH]; intros H; [reflexivity |].
  cbn [some_eff existsb]. rewrite (H a (or_introl eq_refl)).
  rewrite IH by (intros; apply H; right; assumption).
  unfold lift, bind, ret.
  destruct (g a); reflexivity.
Qed.

(** Grading returns a verdict, and writes at most the regex warning,
    on every rule that does not ask for [normalizeZh]. *)
Lemma some_eff_lift_returns {A : Type} (f : A -> completion bool) (l : list A) :
  (forall a, In a l -> exists b, f a = Normal b) ->
  exists b, some_eff (fun a => lift (f a)) l = (Normal b, []).
Proof.
  induction l as [| a l IH]; intros H; [exists false; reflexivity |].
  cbn [some_eff]. destruct (H a (or_introl eq_refl)) as [b Hb]. rewrite Hb.
  destruct b.
  - exists true. reflexivity.
  - destruct IH as [b' Hb']; [intros; apply H; right; assumption |].
    exists b'. rewrite Hb'. reflexivity.
Qed.

(** [equalsText] returns unless [normalizeZh] is set and the lookup of
    the expected string yields a value that is not a string. *)
Lemma equalsText_returns (input expected : jsstring) (o : EqualsTextOptions) :
  (normalizeZh o = Some true -> raises expected = false) ->
  exists b, equalsText input expected o = Normal b.
Proof.
  intros H. unfold equalsText.
  destruct (normalizeZh o) as [[|] |]; try (eexists; reflexivity).
  specialize (H eq_refl). unfold raises in H.
  destruct (object_get zhSynonyms expected) as [[s | | name] |];
    try discriminate H; eexists; reflexivity.
Qed.

(** And with [normalizeZh] it raises on exactly those strings. *)
Lemma equalsText_raises (input expected : jsstring) (ci : option bool) :
  raises expected = true ->
  equalsText input expected
             {| caseInsensitive := ci; normalizeZh := Some true |}
  = Throw (TypeError "input.split is not a function").
Proof.
  intros H. rewrite equalsText_zh. unfold raises in H.
  destruct (object_get zhSynonyms expected) as [[s | | name] |];
    try discriminate H; reflexivity.
Qed.

(** Grading returns a verdict, and writes at most the regex warning, on
    every safe rule. *)
Lemma gradeFillin_returns (userInput : nullable FillinInput) (rule : FillinRule) :
  rule_is_safe rule = true ->
  exists b w, gradeFillin userInput rule = (Normal b, w).
Proof.
  intros Hrule.
  assert (Hsw : forall u v, exists b w, gradeFillin_switch u v rule = (Normal b, w)).
  { intros u v.
    destruct rule as [answer accept ci nz | pattern | answer tol
                     | answer accept | mode]; cbn [gradeFillin_switch].
    - set (options := {| caseInsensitive := Some (nullish ci true);
                         normalizeZh := Some (nullish nz false) |}).
      assert (Hc : forall c, In c (candidates answer accept) ->
                             exists b, equalsText v c options = Normal b).
      { intros c Hin. apply equalsText_returns. cbn [options normalizeZh].
        destruct nz as [[|] |]; cbn [nullish]; try discriminate.
        intros _. cbn [rule_is_safe] in Hrule.
        rewrite forallb_forall in Hrule. specialize (Hrule c Hin).
        apply negb_true_iff in Hrule. exact Hrule. }
      destruct accept as [[| c cs] |]; cbn [candidates] in Hc.
      + destruct answer as [[| c a] |]; try (eexists; eexists; reflexivity).
        destruct (Hc (c :: a) (or_introl eq_refl)) as [b Hb].
        exists b, []. unfold lift. rewrite Hb. reflexivity.
      + destruct (some_eff_lift_returns
                    (fun candidate => equalsText v candidate options)
                    (c :: cs) Hc) as [b Hb].
        exists b, []. exact Hb.
      + destruct answer as [[| c a] |]; try (eexists; eexists; reflexivity).
        destruct (Hc (c :: a) (or_introl eq_refl)) as [b Hb].
        exists b, []. unfold lift. rewrite Hb. reflexivity.
    - destruct (RegExp_new pattern); eexists; eexists; reflexivity.
    - destruct (match u with Num n => Some n | Str _ => normalizeNumberInput v end);
        eexists; eexists; reflexivity.
    - destruct (parseDateString v) as [normalizedUser |]; [| eexists; eexists; reflexivity].
      destruct (negb (truthy normalizedUser)); [eexists; eexists; reflexivity |].
      destruct (filter truthy _) as [| a l]; [eexists; eexists; reflexivity |].
      rewrite some_eff_pure. eexists; eexists; reflexivity.
    - eexists; eexists; reflexivity. }
  destruct userInput as [| | [[| c s] | n]]; cbn [gradeFillin];
    try (eexists; eexists; reflexivity); apply Hsw.
Qed.

End GradingFacts.

(** C3.  On a number rule a numeric input is compared as it is and a
    string input through [normalizeNumberInput]; a failed coercion grades
    false; otherwise the verdict is [|n - answer| <= tolerance + epsilon]
    with the tolerance defaulting to 0 and epsilon the gap between 1 and
    the next representable number.  "29.531" is accepted and "29.6"
    refused for the answer 29.531 with tolerance 0.002. *)
Theorem gradeFillin_number_rule :
  forall (B : Builtins),
    toLowerCase (js "29.531") = js "29.531" ->
    toLowerCase (js "29.6") = js "29.6" ->
    (forall (answer n : float) (tolerance : option float),
        gradeFillin (Value (Num n)) (NumberRule answer tolerance)
        = ret (within_tolerance n answer tolerance))
    /\ (forall (answer : float) (tolerance : option float) (s : jsstring),
          s <> [] ->
          gradeFillin (Value (Str s)) (NumberRule answer tolerance)
          = ret (match normalizeNumberInput s with
                 | Some n => within_tolerance n answer tolerance
                 | None => false
                 end))
    /\ (forall n answer : float,
          within_tolerance n answer None
          = PrimFloat.leb (PrimFloat.abs (PrimFloat.sub n answer))
                          (PrimFloat.add PrimFloat.zero Number_EPSILON))
    /\ Number_EPSILON = PrimFloat.sub (PrimFloat.next_up PrimFloat.one) PrimFloat.one
    /\ gradeFillin (Value (Str (js "29.531")))
                   (NumberRule 29.531%float (Some 0.002%float)) = ret true
    /\ gradeFillin (Value (Str (js "29.6")))
                   (NumberRule 29.531%float (Some 0.002%float)) = ret false.
Proof.
  intros B H1 H2.
  assert (Hstr : forall (answer : float) (tolerance : option float) (s : jsstring),
             s <> [] ->
             gradeFillin (Value (Str s)) (NumberRule answer tolerance)
             = ret (match normalizeNumberInput s with
                    | Some n => within_tolerance n answer tolerance
                    | None => false
                    end)).
  { intros answer tolerance s Hs. rewrite gradeFillin_nonempty by assumption.
    cbn [gradeFillin_switch]. destruct (normalizeNumberInput s); reflexivity. }
  assert (Hnum : forall s : string,
             toLowerCase (js s) = js s ->
             normalizeWhitespace (toHalfWidth (js s)) = js s ->
             normalizeNumberInput (js s) = number_of_normalized (unify (js s))).
  { intros s Hl Hw. rewrite normalizeNumberInput_eq.
    rewrite normalizeText_lower by discriminate. rewrite Hw, Hl. reflexivity. }
  split; [reflexivity |].
  split; [exact Hstr |].
  split; [reflexivity |].
  split; [vm_compute; reflexivity |].
  split.
  - rewrite Hstr by discriminate.
    rewrite (Hnum "29.531"%string H1 eq_refl). vm_compute. reflexivity.
  - rewrite Hstr by discriminate.
    rewrite (Hnum "29.6"%string H2 eq_refl). vm_compute. reflexivity.
Qed.

Lemma gradeFillin_number_rule_witness :
  @gradeFillin small_builtins (Value (Str (js "29.531")))
               (NumberRule 29.531%float (Some 0.002%float)) = ret true
  /\ @gradeFillin small_builtins (Value (Str (js "29.6")))
                  (NumberRule 29.531%float (Some 0.002%float)) = ret false.
Proof.
  destruct (gradeFillin_number_rule small_builtins
              ltac:(reflexivity) ltac:(reflexivity))
    as (_ & _ & _ & _ & Ha & Hb).
  split; assumption.
Defined.

(** Epsilon is not the least positive number: with no tolerance a
    difference of 2^-53 is accepted, one of 2^-51 is not. *)
Example within_tolerance_epsilon :
  within_tolerance 0x1p-53%float 0%float None = true
  /\ within_tolerance 0x1p-51%float 0%float None = false.
Proof. split; reflexivity. Qed.

(** C4.  The guard holds: an absent or empty input grades false on every
    rule, before the rule is looked at; and grading returns a verdict on
    every input for every safe rule.  But grading does raise: a text rule
    with [normalizeZh] whose [answer] names a member that [zhSynonyms]
    inherits from [Object.prototype] ("constructor") makes [equalsText]
    pass a function to [normalizeText], and the call of [split] on it
    throws a TypeError, for any non-empty input such as "x". *)
Theorem gradeFillin_guard_and_throw :
  forall (B : Builtins),
    (forall rule : FillinRule,
        gradeFillin Null rule = ret false
        /\ gradeFillin Undefined rule = ret false
        /\ gradeFillin (Value (Str [])) rule = ret false)
    /\ (forall (userInput : nullable FillinInput) (rule : FillinRule),
          rule_is_safe rule = true ->
          exists b w, gradeFillin userInput rule = (Normal b, w))
    /\ rule_is_safe (TextRule (Some (js "constructor")) None None (Some true))
       = false
    /\ gradeFillin (Value (Str (js "x")))
                   (TextRule (Some (js "constructor")) None None (Some true))
       = throw (TypeError "input.split is not a function").
Proof.
  intros B. split; [| split; [| split]].
  - intros rule. apply gradeFillin_absent.
  - intros userInput rule. apply gradeFillin_returns.
  - reflexivity.
  - reflexivity.
Qed.

(** C5.  On a regex rule the pattern is compiled and tried on the input
    as typed (a number as its text), with no normalization; a pattern that
    does not compile leaves a warning and grades false, and nothing is
    thrown.  The pattern "(" is such a pattern. *)
Theorem gradeFillin_regex_rule :
  forall (B : Builtins),
    RegExp_new (js "(") = None ->
    (forall (pattern s : jsstring),
        s <> [] ->
        gradeFillin (Value (Str s)) (RegexRule pattern)
        = match RegExp_new pattern with
          | Some regex => (Normal (RegExp_test regex s), [])
          | None => (Normal false, [InvalidRegex pattern])
          end)
    /\ (forall (pattern : jsstring) (n : float),
          gradeFillin (Value (Num n)) (RegexRule pattern)
          = match RegExp_new pattern with
            | Some regex => (Normal (RegExp_test regex (Number_toString n)), [])
            | None => (Normal false, [InvalidRegex pattern])
            end)
    /\ gradeFillin (Value (Str (js "abc("))) (RegexRule (js "("))
       = (Normal false, [InvalidRegex (js "(")]).
Proof.
  intros B Hbad.
  assert (Hsw : forall u v pattern,
             gradeFillin_switch u v (RegexRule pattern)
             = match RegExp_new pattern with
               | Some regex => (Normal (RegExp_test regex v), [])
               | None => (Normal false, [InvalidRegex pattern])
               end).
  { intros u v pattern. cbn [gradeFillin_switch].
    destruct (RegExp_new pattern); reflexivity. }
  split; [| split].
  - intros pattern s Hs. rewrite gradeFillin_nonempty by assumption. apply Hsw.
  - intros pattern n. cbn [gradeFillin]. apply Hsw.
  - rewrite gradeFillin_nonempty by discriminate. rewrite Hsw, Hbad. reflexivity.
Qed.

Lemma gradeFillin_regex_rule_witness :
  @gradeFillin small_builtins (Value (Str (js "abc("))) (RegexRule (js "("))
  = (Normal false, [InvalidRegex (js "(")]).
Proof.
  exact (proj2 (proj2 (gradeFillin_regex_rule small_builtins ltac:(reflexivity)))).
Defined.


(** The regex rule of C9 on the executable runtime. *)
Example gradeFillin_blank_regex :
  @gradeFillin small_builtins (Value (Str (js " "))) (RegexRule (js "\s"))
  = ret true.
Proof. reflexivity. Qed.

(* ------------------------------------------------------------------ *)
(** ** Numbers and dates *)

(** C6.  [normalizeNumberInput] returns [null] when the normalized text
    is empty and when the text without commas does not read as a finite
    number.  The emptiness test comes before the commas are removed: for
    the input "," the remaining string is empty, it passes the test all
    the same, [Number("")] is 0 and the function returns 0; a number rule
    whose answer is 0 then accepts ",". *)
Theorem normalizeNumberInput_comma :
  forall (B : Builtins),
    toLowerCase (js ",") = js "," ->
    (forall input : jsstring,
        normalizeText input no_options = [] ->
        normalizeNumberInput input = None)
    /\ (forall input : jsstring,
          Number_isFinite
            (Number_of_string (strip_commas (normalizeText input no_options)))
          = false ->
          normalizeNumberInput input = None)
    /\ (forall (input : jsstring) (n : float),
          normalizeNumberInput input = Some n ->
          n = Number_of_string (strip_commas (normalizeText input no_options))
          /\ Number_isFinite n = true)
    /\ strip_commas (normalizeText (js ",") no_options) = []
    /\ normalizeNumberInput (js ",") = Some PrimFloat.zero
    /\ gradeFillin (Value (Str (js ","))) (NumberRule PrimFloat.zero None)
       = ret true.
Proof.
  intros B Hcomma.
  assert (Hnorm : normalizeText (js ",") no_options = js ",").
  { rewrite normalizeText_lower by discriminate.
    change (normalizeWhitespace (toHalfWidth (js ","))) with (js ",").
    rewrite Hcomma. reflexivity. }
  assert (Hzero : normalizeNumberInput (js ",") = Some PrimFloat.zero).
  { rewrite normalizeNumberInput_eq, Hnorm. vm_compute. reflexivity. }
  split; [| split; [| split; [| split; [| split]]]].
  - intros input H. rewrite normalizeNumberInput_eq, H. reflexivity.
  - intros input H. rewrite normalizeNumberInput_eq.
    unfold number_of_normalized.
    destruct (normalizeText input no_options); [reflexivity |].
    cbv zeta. rewrite H. reflexivity.
  - intros input n. rewrite normalizeNumberInput_eq.
    unfold number_of_normalized.
    destruct (normalizeText input no_options) as [| c t]; [discriminate |].
    cbv zeta.
    destruct (Number_isFinite _) eqn:Hfin; [| discriminate].
    intros H. injection H as <-. split; [reflexivity | exact Hfin].
  - rewrite Hnorm. reflexivity.
  - exact Hzero.
  - rewrite gradeFillin_nonempty by discriminate.
    cbn [gradeFillin_switch]. rewrite Hzero. vm_compute. reflexivity.
Qed.

Lemma normalizeNumberInput_comma_witness :
  @normalizeNumberInput small_builtins (js ",") = Some PrimFloat.zero.
Proof.
  exact (proj1 (proj2 (proj2 (proj2 (proj2
           (normalizeNumberInput_comma small_builtins ltac:(reflexivity))))))).
Defined.

(** *** The shape of a parsed date *)

Lemma isDigit_range (c : Z) : isDigit c = true -> 48 <= c <= 57.
Proof.
  unfold isDigit. intros H. apply andb_true_iff in H. destruct H as [A C].
  apply Z.leb_le in A, C. lia.
Qed.

Lemma digit_not_space (c : Z) : isDigit c = true -> isWhiteSpace c = false.
Proof.
  intros H. apply isDigit_range in H. unfold isWhiteSpace. solve_tests.
Qed.

Lemma take_digits_all (ds : jsstring) :
  digits ds -> take_digits ds = (ds, []).
Proof.
  induction 1 as [| c ds Hc _ IH]; [reflexivity |].
  cbn [take_digits]. rewrite Hc, IH. reflexivity.
Qed.

Lemma digits_value_range (ds : jsstring) (acc : Z) :
  digits ds -> 0 <= acc ->
  acc * 10 ^ Z.of_nat (List.length ds)
  <= fold_left (fun a c => a * 10 + decimal_digit c) ds acc
  < (acc + 1) * 10 ^ Z.of_nat (List.length ds).
Proof.
  intros H. revert acc. induction H as [| c ds Hc _ IH]; intros acc Hacc.
  - cbn. lia.
  - apply isDigit_range in Hc. cbn [fold_left List.length].
    rewrite Nat2Z.inj_succ, Z.pow_succ_r by lia.
    specialize (IH (acc * 10 + decimal_digit c)).
    unfold decimal_digit in *.
    assert (0 < 10 ^ Z.of_nat (List.length ds)) by (apply Z.pow_pos_nonneg; lia).
    nia.
Qed.

(** [parseInt] of a run of digits is its value. *)
Lemma parseInt10_digits (ds : jsstring) :
  ds <> [] -> digits ds ->
  exists v, parseInt10 ds = Some v
            /\ 0 <= v < 10 ^ Z.of_nat (List.length ds).
Proof.
  intros Hne H. destruct ds as [| c ds]; [congruence |].
  inversion H as [| ? ? Hc Hds]; subst.
  pose proof (isDigit_range c Hc) as Hr.
  unfold parseInt10. cbn [trimStart]. rewrite (digit_not_space c Hc).
  destruct (Z.eqb_spec c 0x2B); [lia |].
  destruct (Z.eqb_spec c 0x2D); [lia |].
  rewrite (take_digits_all (c :: ds) H). cbn [fst].
  eexists. split; [reflexivity |].
  unfold digits_value.
  pose proof (digits_value_range (c :: ds) 0 H ltac:(lia)) as Hv. lia.
Qed.

Lemma first_match_some {A R : Type} (alts : list A) (k : A -> option R) (r : R) :
  first_match alts k = Some r -> exists a, In a alts /\ k a = Some r.
Proof.
  induction alts as [| a alts IH]; [discriminate |].
  cbn [first_match]. destruct (k a) as [r' |] eqn:E.
  - intros H. exists a. split; [left; reflexivity | congruence].
  - intros H. destruct (IH H) as (a' & Hin & Hk).
    exists a'. split; [right; exact Hin | exact Hk].
Qed.

Lemma digits_1_2_spec (s ds r : jsstring) :
  In (ds, r) (digits_1_2 s) ->
  digits ds /\ (List.length ds = 1 \/ List.length ds = 2)%nat.
Proof.
  destruct s as [| a s]; [contradiction |].
  cbn [digits_1_2]. destruct (isDigit a) eqn:Ha; [| contradiction].
  destruct s as [| b s].
  - intros [E | []]. injection E as <- <-.
    split; [repeat constructor; exact Ha | left; reflexivity].
  - destruct (isDigit b) eqn:Hb.
    + intros [E | [E | []]]; injection E as <- <-.
      * split; [repeat constructor; assumption | right; reflexivity].
      * split; [repeat constructor; assumption | left; reflexivity].
    + intros [E | []]. injection E as <- <-.
      split; [repeat constructor; exact Ha | left; reflexivity].
Qed.

(** The groups of a match: four digits, then one or two, twice. *)
Lemma date_match_at_spec (s year month day : jsstring) :
  date_match_at s = Some (year, month, day) ->
  (digits year /\ List.length year = 4%nat)
  /\ (digits month /\ (List.length month = 1 \/ List.length month = 2)%nat)
  /\ (digits day /\ (List.length day = 1 \/ List.length day = 2)%nat).
Proof.
  unfold date_match_at, digits4.
  destruct s as [| a [| b [| c [| d r]]]]; try discriminate.
  destruct (isDigit a && isDigit b && isDigit c && isDigit d) eqn:E4;
    [| discriminate].
  destruct r as [| c1 r1]; [discriminate |].
  destruct (yearSeparator c1); [| discriminate].
  intros H. apply first_match_some in H.
  destruct H as ([m r2] & Hm & H).
  destruct r2 as [| c2 r3]; [discriminate |].
  destruct (monthSeparator c2); [| discriminate].
  apply first_match_some in H. destruct H as ([d' r4] & Hd & H).
  injection H as <- <- <-.
  apply andb_true_iff in E4. destruct E4 as [E4 Hd4].
  apply andb_true_iff in E4. destruct E4 as [E4 Hc4].
  apply andb_true_iff in E4. destruct E4 as [Ha4 Hb4].
  split; [split; [repeat constructor; assumption | reflexivity] |].
  split; eapply digits_1_2_spec; eassumption.
Qed.

Lemma date_match_spec (s year month day : jsstring) :
  date_match s = Some (year, month, day) ->
  (digits year /\ List.length year = 4%nat)
  /\ (digits month /\ (List.length month = 1 \/ List.length month = 2)%nat)
  /\ (digits day /\ (List.length day = 1 \/ List.length day = 2)%nat).
Proof.
  induction s as [| c s IH]; cbn [date_match].
  - destruct (date_match_at []) as [[[y m] d] |] eqn:E; [| discriminate].
    intros H. injection H as <- <- <-. eapply date_match_at_spec; exact E.
  - destruct (date_match_at (c :: s)) as [[[y m] d] |] eqn:E; [| exact IH].
    intros H. injection H as <- <- <-. eapply date_match_at_spec; exact E.
Qed.

Lemma below_by_cases (P : Z -> bool) (n : nat) :
  forallb P (map Z.of_nat (seq 0 n)) = true ->
  forall z, 0 <= z < Z.of_nat n -> P z = true.
Proof.
  intros H z Hz. rewrite forallb_forall in H. apply H.
  apply in_map_iff. exists (Z.to_nat z). split; [lia |].
  apply in_seq. lia.
Qed.

Lemma pad_length (m : Z) : 0 <= m < 100 -> List.length (pad m) = 2%nat.
Proof.
  intros H.
  apply (below_by_cases (fun z => Nat.eqb (List.length (pad z)) 2) 100%nat) in H;
    [apply Nat.eqb_eq; exact H | vm_compute; reflexivity].
Qed.

Lemma year_length (y : Z) :
  0 <= y < 10000 ->
  (1 <= List.length (decimal_text y) <= 4)%nat
  /\ (List.length (decimal_text y) = 4%nat <-> 1000 <= y).
Proof.
  intros H.
  apply (below_by_cases
           (fun z => let n := List.length (decimal_text z) in
                     Nat.leb 1 n && Nat.leb n 4
                     && Bool.eqb (Nat.eqb n 4) (1000 <=? z))
           (Z.to_nat 10000)) in H;
    [| vm_compute; reflexivity].
  cbv zeta in H. apply andb_true_iff in H. destruct H as [H1 H2].
  apply andb_true_iff in H1. destruct H1 as [H1 H3].
  apply Nat.leb_le in H1, H3. apply eqb_prop in H2.
  split; [lia |]. rewrite <- Nat.eqb_eq, H2. apply Z.leb_le.
Qed.

(** Every date that [parseDateString] returns is the year as an integer
    of one to four digits (four exactly when the year is 1000 or more),
    a hyphen, a two-digit month, a hyphen and a two-digit day; month and
    day are any numbers from 0 to 99. *)
Theorem parseDateString_shape :
  forall (B : Builtins) (input r : jsstring),
    parseDateString input = Some r ->
    exists y m d : Z,
      0 <= y < 10000 /\ 0 <= m < 100 /\ 0 <= d < 100
      /\ r = decimal_text y ++ js "-" ++ pad m ++ js "-" ++ pad d
      /\ List.length (pad m) = 2%nat
      /\ List.length (pad d) = 2%nat
      /\ (1 <= List.length (decimal_text y) <= 4)%nat
      /\ (List.length (decimal_text y) = 4%nat <-> 1000 <= y).
Proof.
  intros B input r. unfold parseDateString.
  destruct (date_match _) as [[[year month] day] |] eqn:E; [| discriminate].
  apply date_match_spec in E.
  destruct E as ((Hy & Ly) & (Hm & Lm) & (Hd & Ld)).
  destruct (parseInt10_digits year) as (y & Ey & Ry);
    [intros ->; discriminate | exact Hy |].
  destruct (parseInt10_digits month) as (m & Em & Rm);
    [intros ->; cbn in Lm; lia | exact Hm |].
  destruct (parseInt10_digits day) as (d & Ed & Rd);
    [intros ->; cbn in Ld; lia | exact Hd |].
  rewrite Ey, Em, Ed. intros H. injection H as <-.
  rewrite Ly in Ry. change (10 ^ Z.of_nat 4) with 10000 in Ry.
  assert (Rm' : 0 <= m < 100).
  { destruct Lm as [L | L]; rewrite L in Rm; cbn in Rm; lia. }
  assert (Rd' : 0 <= d < 100).
  { destruct Ld as [L | L]; rewrite L in Rd; cbn in Rd; lia. }
  exists y, m, d.
  repeat (split; [first [assumption | reflexivity | apply pad_length; assumption] |]).
  destruct (year_length y Ry) as [A C]. split; assumption.
Qed.

Lemma parseDateString_shape_witness :
  exists y m d : Z,
    0 <= y < 10000 /\ 0 <= m < 100 /\ 0 <= d < 100
    /\ js "2034-02-19" = decimal_text y ++ js "-" ++ pad m ++ js "-" ++ pad d
    /\ List.length (pad m) = 2%nat
    /\ List.length (pad d) = 2%nat
    /\ (1 <= List.length (decimal_text y) <= 4)%nat
    /\ (List.length (decimal_text y) = 4%nat <-> 1000 <= y).
Proof.
  exact (parseDateString_shape small_builtins (js "2034年2月19日")
           (js "2034-02-19") eq_refl).
Defined.

(** C7.  The two examples of the specification hold and no calendar check
    is made (month 13 and day 32 pass).  The year, though, is printed as
    the integer [parseInt] read, with no padding: "0034-02-19" gives
    "34-02-19", which is not of the form YYYY-MM-DD. *)
Theorem parseDateString_examples :
  forall (B : Builtins),
    parseDateString (js "2034年2月19日") = Some (js "2034-02-19")
    /\ parseDateString (js "no date here") = None
    /\ parseDateString (js "2034-13-32") = Some (js "2034-13-32")
    /\ parseDateString (js "0034-02-19") = Some (js "34-02-19").
Proof.
  intros B. repeat split; vm_compute; reflexivity.
Qed.

(* ------------------------------------------------------------------ *)
(** ** The objective summary *)

Section SummaryFacts.
Context {B : Builtins}.
Variable answers : AnswerData.
Variable userMcq : jsstring -> nullable float.
Variable userFillins : jsstring -> nullable FillinInput.

Lemma section_of_cons (acc : SectionSummary) (g : graded) (gs : list graded) :
  section_of (accumulate acc (g_id g) (g_weight g) (g_verdict g) (g_attempted g)) gs
  = section_of acc (g :: gs).
Proof.
  unfold section_of, accumulate, sum_weights, wrong_attempt.
  cbn [filter map fold_left].
  destruct (g_verdict g), (g_attempted g);
    cbn [correctIds incorrectIds score total negb andb map fold_left];
    rewrite <- ?app_assoc; reflexivity.
Qed.

Lemma mcq_fold (qs : list McqQuestion) (acc : SectionSummary) :
  fold_left (mcq_step answers userMcq) qs acc
  = section_of acc (map (mcq_graded answers userMcq) qs).
Proof.
  revert acc. induction qs as [| q qs IH]; intros acc.
  - destruct acc. unfold section_of, sum_weights. cbn.
    rewrite !app_nil_r. reflexivity.
  - cbn [fold_left map]. rewrite IH.
    rewrite <- section_of_cons. reflexivity.
Qed.

Lemma fillin_step_grade (acc : SectionSummary) (q : FillinQuestion)
    (b : bool) (w : list warning) :
  fillin_grade answers userFillins q = (Normal b, w) ->
  fillin_step answers userFillins acc q
  = (Normal (accumulate acc (g_id (fillin_graded answers userFillins q)) (g_weight (fillin_graded answers userFillins q))
                        (g_verdict (fillin_graded answers userFillins q))
                        (g_attempted (fillin_graded answers userFillins q))),
     w).
Proof.
  intros H. unfold fillin_step.
  change (match answers_fillins answers (fillin_id q) with
          | Some rule => gradeFillin (or_empty (userFillins (fillin_id q))) rule
          | None => ret false
          end) with (fillin_grade answers userFillins q).
  cbn [fillin_graded g_id g_weight g_verdict g_attempted].
  unfold verdict_of. rewrite H. cbn. rewrite app_nil_r. reflexivity.
Qed.

Lemma fillin_step_throw (acc : SectionSummary) (q : FillinQuestion)
    (e : jserror) (w : list warning) :
  fillin_grade answers userFillins q = (Throw e, w) ->
  fillin_step answers userFillins acc q = (Throw e, w).
Proof.
  intros H. unfold fillin_step.
  change (match answers_fillins answers (fillin_id q) with
          | Some rule => gradeFillin (or_empty (userFillins (fillin_id q))) rule
          | None => ret false
          end) with (fillin_grade answers userFillins q).
  rewrite H. reflexivity.
Qed.

(** The fill-in fold returns as soon as every question has a verdict, and
    then it is the section of the specification. *)
Lemma fillin_fold_total (qs : list FillinQuestion) (acc : SectionSummary) :
  Forall (has_verdict answers userFillins) qs ->
  exists w,
    reduce_eff (fillin_step answers userFillins) qs acc
    = (Normal (section_of acc (map (fillin_graded answers userFillins) qs)), w).
Proof.
  intros H. revert acc. induction H as [| q qs [b [w Hq]] _ IH]; intros acc.
  - exists []. destruct acc. unfold section_of, sum_weights. cbn.
    rewrite !app_nil_r. reflexivity.
  - cbn [reduce_eff map]. rewrite (fillin_step_grade acc q b w Hq).
    destruct (IH (accumulate acc (g_id (fillin_graded answers userFillins q))
                    (g_weight (fillin_graded answers userFillins q)) (g_verdict (fillin_graded answers userFillins q))
                    (g_attempted (fillin_graded answers userFillins q)))) as [w' Hw'].
    exists (w ++ w'). unfold bind. rewrite Hw'.
    rewrite section_of_cons. reflexivity.
Qed.

(** Conversely, a fold that returned met no question without verdict. *)
Lemma fillin_fold_normal (qs : list FillinQuestion) (acc r : SectionSummary)
    (w : list warning) :
  reduce_eff (fillin_step answers userFillins) qs acc = (Normal r, w) ->
  Forall (has_verdict answers userFillins) qs.
Proof.
  revert acc r w. induction qs as [| q qs IH]; intros acc r w H; [constructor |].
  cbn [reduce_eff] in H.
  destruct (fillin_grade answers userFillins q) as [[b | e] w1] eqn:Hq.
  - rewrite (fillin_step_grade acc q b w1 Hq) in H. unfold bind in H.
    destruct (reduce_eff _ qs _) as [[r' | e'] w2] eqn:Hrest; [| discriminate].
    constructor.
    + exists b, w1. exact Hq.
    + eapply IH. exact Hrest.
  - rewrite (fillin_step_throw acc q e w1 Hq) in H. discriminate.
Qed.

Lemma summarizeObjective_total (quiz : QuizData) :
  Forall (has_verdict answers userFillins) (fillins quiz) ->
  exists w,
    summarizeObjective quiz answers userMcq userFillins
    = (Normal
         {| summary_mcq := section_of empty_section (map (mcq_graded answers userMcq) (mcq quiz));
            summary_fillins :=
              section_of empty_section (map (fillin_graded answers userFillins) (fillins quiz));
            totalScore :=
              PrimFloat.add
                (score (section_of empty_section (map (mcq_graded answers userMcq) (mcq quiz))))
                (score (section_of empty_section (map (fillin_graded answers userFillins) (fillins quiz))));
            totalPossible :=
              PrimFloat.add
                (total (section_of empty_section (map (mcq_graded answers userMcq) (mcq quiz))))
                (total (section_of empty_section (map (fillin_graded answers userFillins) (fillins quiz))))
         |}, w).
Proof.
  intros H. unfold summarizeObjective.
  destruct (fillin_fold_total (fillins quiz) empty_section H) as [w Hw].
  rewrite Hw, mcq_fold. exists (w ++ []). reflexivity.
Qed.

Lemma summarizeObjective_normal (quiz : QuizData) (s : ObjectiveSummary)
    (w : list warning) :
  summarizeObjective quiz answers userMcq userFillins = (Normal s, w) ->
  Forall (has_verdict answers userFillins) (fillins quiz).
Proof.
  unfold summarizeObjective, bind. intros H.
  destruct (reduce_eff _ (fillins quiz) empty_section) as [[r | e] w1] eqn:Hr;
    [| discriminate].
  eapply fillin_fold_normal. exact Hr.
Qed.

End SummaryFacts.

Lemma subseq_filter_map {A C : Type} (f : A -> C) (p : A -> bool) (l : list A) :
  subseq (map f (filter p l)) (map f l).
Proof.
  induction l as [| a l IH]; cbn [filter map]; [constructor |].
  destruct (p a); cbn [map]; constructor; exact IH.
Qed.

Lemma subseq_In {A : Type} (l1 l2 : list A) (x : A) :
  subseq l1 l2 -> In x l1 -> In x l2.
Proof.
  induction 1 as [| y l1 l2 _ IH | y l1 l2 _ IH]; intros Hin.
  - exact Hin.
  - right. exact (IH Hin).
  - destruct Hin as [-> | Hin]; [left; reflexivity | right; exact (IH Hin)].
Qed.

Lemma subseq_NoDup {A : Type} (l1 l2 : list A) :
  subseq l1 l2 -> NoDup l2 -> NoDup l1.
Proof.
  induction 1 as [| y l1 l2 _ IH | y l1 l2 Hs IH]; intros Hnd.
  - constructor.
  - inversion Hnd; subst. auto.
  - inversion Hnd; subst. constructor; [| auto].
    intros Hin. eapply subseq_In in Hin; eauto.
Qed.

(** When the verdict is a function of the id, no id is both correct and
    incorrect, even if two questions share it. *)
Lemma verdict_lists_disjoint (gs : list graded) :
  (forall g1 g2, In g1 gs -> In g2 gs -> g_id g1 = g_id g2 ->
                 g_verdict g1 = g_verdict g2) ->
  disjoint (map g_id (filter g_verdict gs)) (map g_id (filter wrong_attempt gs)).
Proof.
  intros Hfun x H1 H2.
  apply in_map_iff in H1. destruct H1 as (g1 & <- & Hg1).
  apply in_map_iff in H2. destruct H2 as (g2 & Heq & Hg2).
  apply filter_In in Hg1. destruct Hg1 as [Hin1 Hv1].
  apply filter_In in Hg2. destruct Hg2 as [Hin2 Hw2].
  unfold wrong_attempt in Hw2.
  rewrite (Hfun g2 g1 Hin2 Hin1 Heq), Hv1 in Hw2. discriminate.
Qed.

Lemma mcq_verdict_by_id (answers : AnswerData)
    (userMcq : jsstring -> nullable float) (qs : list McqQuestion) :
  forall g1 g2,
    In g1 (map (mcq_graded answers userMcq) qs) ->
    In g2 (map (mcq_graded answers userMcq) qs) ->
    g_id g1 = g_id g2 -> g_verdict g1 = g_verdict g2.
Proof.
  intros g1 g2 H1 H2.
  apply in_map_iff in H1. destruct H1 as (q1 & <- & _).
  apply in_map_iff in H2. destruct H2 as (q2 & <- & _).
  cbn [mcq_graded g_id g_verdict]. intros ->. reflexivity.
Qed.

Lemma fillin_verdict_by_id {B : Builtins} (answers : AnswerData)
    (userFillins : jsstring -> nullable FillinInput) (qs : list FillinQuestion) :
  forall g1 g2,
    In g1 (map (fillin_graded answers userFillins) qs) ->
    In g2 (map (fillin_graded answers userFillins) qs) ->
    g_id g1 = g_id g2 -> g_verdict g1 = g_verdict g2.
Proof.
  intros g1 g2 H1 H2.
  apply in_map_iff in H1. destruct H1 as (q1 & <- & _).
  apply in_map_iff in H2. destruct H2 as (q2 & <- & _).
  cbn [fillin_graded g_id g_verdict]. unfold fillin_grade.
  intros ->. reflexivity.
Qed.

(** A question whose rule is safe, or that has no rule, has a verdict. *)
Lemma has_verdict_safe {B : Builtins} (answers : AnswerData)
    (userFillins : jsstring -> nullable FillinInput) (q : FillinQuestion) :
  (forall rule, answers_fillins answers (fillin_id q) = Some rule ->
                rule_is_safe rule = true) ->
  has_verdict answers userFillins q.
Proof.
  intros H. unfold has_verdict, fillin_grade.
  destruct (answers_fillins answers (fillin_id q)) as [rule |].
  - apply gradeFillin_returns. apply H. reflexivity.
  - exists false, []. reflexivity.
Qed.

(** An unanswered fill-in question is graded false, whatever its rule. *)
Lemma fillin_grade_blank {B : Builtins} (answers : AnswerData)
    (userFillins : jsstring -> nullable FillinInput) (q : FillinQuestion) :
  fillin_attempted (userFillins (fillin_id q)) = false ->
  fillin_grade answers userFillins q = ret false.
Proof.
  unfold fillin_grade. intros H.
  destruct (answers_fillins answers (fillin_id q)) as [rule |]; [| reflexivity].
  destruct (userFillins (fillin_id q)) as [| | [[| c s] | n]];
    try discriminate H; reflexivity.
Qed.

(** C2.  Whenever every fill-in question has a verdict (its grading
    returns), [summarizeObjective] returns a summary in which each
    section has: as [score] the weights of the questions with a true
    verdict, added in declaration order; as [total] the weights of all
    its questions; as [correctIds] the ids of the questions with a true
    verdict and as [incorrectIds] the ids of those with a false verdict
    and an answer, both in declaration order.  A question without a
    declared score weighs 1.  For two fill-in questions of weights 2 and
    3, the first correct and the second blank, the fill-in section is
    [{score: 2, total: 5, correctIds: [q1], incorrectIds: []}].  It does
    not hold for every quiz: when the grading of a fill-in question
    raises, as on [raising_quiz], no summary is returned. *)
Theorem summarizeObjective_sections :
  forall (B : Builtins),
    (forall (quiz : QuizData) (answers : AnswerData)
            (userMcq : jsstring -> nullable float)
            (userFillins : jsstring -> nullable FillinInput),
        Forall (has_verdict answers userFillins) (fillins quiz) ->
        exists (s : ObjectiveSummary) (w : list warning),
          summarizeObjective quiz answers userMcq userFillins = (Normal s, w)
          /\ score (summary_mcq s)
             = sum_weights PrimFloat.zero
                 (filter g_verdict (map (mcq_graded answers userMcq) (mcq quiz)))
          /\ total (summary_mcq s)
             = sum_weights PrimFloat.zero
                 (map (mcq_graded answers userMcq) (mcq quiz))
          /\ correctIds (summary_mcq s)
             = map g_id (filter g_verdict
                           (map (mcq_graded answers userMcq) (mcq quiz)))
          /\ incorrectIds (summary_mcq s)
             = map g_id (filter wrong_attempt
                           (map (mcq_graded answers userMcq) (mcq quiz)))
          /\ score (summary_fillins s)
             = sum_weights PrimFloat.zero
                 (filter g_verdict
                    (map (fillin_graded answers userFillins) (fillins quiz)))
          /\ total (summary_fillins s)
             = sum_weights PrimFloat.zero
                 (map (fillin_graded answers userFillins) (fillins quiz))
          /\ correctIds (summary_fillins s)
             = map g_id (filter g_verdict
                           (map (fillin_graded answers userFillins) (fillins quiz)))
          /\ incorrectIds (summary_fillins s)
             = map g_id (filter wrong_attempt
                           (map (fillin_graded answers userFillins) (fillins quiz))))
    /\ getScore None = PrimFloat.one
    /\ (forall (quiz : QuizData) (answers : AnswerData)
               (userMcq : jsstring -> nullable float)
               (userFillins : jsstring -> nullable FillinInput)
               (q1 q2 : FillinQuestion) (w1 : list warning),
          fillins quiz = [q1; q2] ->
          fillin_score q1 = Some 2%float ->
          fillin_score q2 = Some 3%float ->
          fillin_grade answers userFillins q1 = (Normal true, w1) ->
          fillin_attempted (userFillins (fillin_id q2)) = false ->
          exists (s : ObjectiveSummary) (w : list warning),
            summarizeObjective quiz answers userMcq userFillins = (Normal s, w)
            /\ summary_fillins s
               = {| correctIds := [fillin_id q1]; incorrectIds := [];
                    score := 2%float; total := 5%float |})
    /\ summarizeObjective raising_quiz raising_answers (fun _ => Undefined)
                          raising_userFillins
       = throw (TypeError "input.split is not a function").
Proof.
  intros B. split; [| split; [| split]].
  - intros quiz answers userMcq userFillins Hall.
    destruct (summarizeObjective_total answers userMcq userFillins quiz Hall)
      as [w Hw].
    eexists; exists w. split; [exact Hw |].
    cbn [summary_mcq summary_fillins section_of score total correctIds
         incorrectIds empty_section app].
    repeat (split; [reflexivity |]). reflexivity.
  - reflexivity.
  - intros quiz answers userMcq userFillins q1 q2 w1 Hqs Hs1 Hs2 Hv1 Hblank.
    assert (Hall : Forall (has_verdict answers userFillins) (fillins quiz)).
    { rewrite Hqs. repeat constructor.
      - exists true, w1. exact Hv1.
      - exists false, []. apply fillin_grade_blank. exact Hblank. }
    destruct (summarizeObjective_total answers userMcq userFillins quiz Hall)
      as [w Hw].
    eexists; exists w. split; [exact Hw |].
    cbn [summary_fillins]. rewrite Hqs.
    unfold section_of, sum_weights, wrong_attempt.
    cbn [map filter fillin_graded g_id g_weight g_verdict g_attempted].
    rewrite Hv1, (fillin_grade_blank answers userFillins q2 Hblank), Hblank.
    cbn [verdict_of fst ret filter map negb andb fold_left app
         correctIds incorrectIds score total empty_section].
    cbn [fillin_graded g_id g_weight].
    rewrite Hs1, Hs2. reflexivity.
  - reflexivity.
Qed.

Lemma sample_has_verdicts :
  Forall (@has_verdict small_builtins sample_answers sample_userFillins)
         (fillins sample_quiz).
Proof.
  repeat constructor; eexists; eexists; vm_compute; reflexivity.
Qed.

Lemma summarizeObjective_sections_witness :
  exists (s : ObjectiveSummary) (w : list warning),
    @summarizeObjective small_builtins sample_quiz sample_answers
                        sample_userMcq sample_userFillins = (Normal s, w)
    /\ summary_fillins s
       = {| correctIds := [js "q1"]; incorrectIds := [];
            score := 2%float; total := 5%float |}.
Proof.
  exact (proj1 (proj2 (proj2 (summarizeObjective_sections small_builtins)))
           sample_quiz sample_answers sample_userMcq sample_userFillins
           _ _ [] eq_refl eq_refl eq_refl eq_refl eq_refl).
Defined.

(** C10, as the code has it.  In a summary that [summarizeObjective]
    returned, the id lists of a section are taken from the ids of its
    questions, in declaration order and with one entry per question at
    most, so without repetition when the declared ids are distinct; no
    id is in both lists; and the two totals of the summary are the sums
    over the two sections. *)
Theorem summarizeObjective_invariant :
  forall (B : Builtins) (quiz : QuizData) (answers : AnswerData)
         (userMcq : jsstring -> nullable float)
         (userFillins : jsstring -> nullable FillinInput)
         (s : ObjectiveSummary) (w : list warning),
    summarizeObjective quiz answers userMcq userFillins = (Normal s, w) ->
    (subseq (correctIds (summary_mcq s)) (map mcq_id (mcq quiz))
     /\ subseq (incorrectIds (summary_mcq s)) (map mcq_id (mcq quiz))
     /\ disjoint (correctIds (summary_mcq s)) (incorrectIds (summary_mcq s))
     /\ (NoDup (map mcq_id (mcq quiz)) ->
         NoDup (correctIds (summary_mcq s))
         /\ NoDup (incorrectIds (summary_mcq s))))
    /\ (subseq (correctIds (summary_fillins s)) (map fillin_id (fillins quiz))
        /\ subseq (incorrectIds (summary_fillins s)) (map fillin_id (fillins quiz))
        /\ disjoint (correctIds (summary_fillins s))
                    (incorrectIds (summary_fillins s))
        /\ (NoDup (map fillin_id (fillins quiz)) ->
            NoDup (correctIds (summary_fillins s))
            /\ NoDup (incorrectIds (summary_fillins s))))
    /\ totalScore s
       = PrimFloat.add (score (summary_mcq s)) (score (summary_fillins s))
    /\ totalPossible s
       = PrimFloat.add (total (summary_mcq s)) (total (summary_fillins s)).
Proof.
  intros B quiz answers userMcq userFillins s w Hs.
  pose proof (summarizeObjective_normal answers userMcq userFillins quiz s w Hs)
    as Hall.
  destruct (summarizeObjective_total answers userMcq userFillins quiz Hall)
    as [w' Hw'].
  rewrite Hw' in Hs. injection Hs as <- _.
  cbn [summary_mcq summary_fillins totalScore totalPossible section_of
       correctIds incorrectIds empty_section app].
  assert (Hm : map mcq_id (mcq quiz)
               = map g_id (map (mcq_graded answers userMcq) (mcq quiz))).
  { rewrite map_map. reflexivity. }
  assert (Hf : map fillin_id (fillins quiz)
               = map g_id (map (fillin_graded answers userFillins) (fillins quiz))).
  { rewrite map_map. reflexivity. }
  rewrite Hm, Hf.
  split; [| split; [| split; reflexivity]].
  - split; [apply subseq_filter_map |].
    split; [apply subseq_filter_map |].
    split; [apply verdict_lists_disjoint, mcq_verdict_by_id |].
    intros Hnd. split; eapply subseq_NoDup; eauto using subseq_filter_map.
  - split; [apply subseq_filter_map |].
    split; [apply subseq_filter_map |].
    split; [apply verdict_lists_disjoint, fillin_verdict_by_id |].
    intros Hnd. split; eapply subseq_NoDup; eauto using subseq_filter_map.
Qed.

Lemma summarizeObjective_invariant_witness :
  exists s : ObjectiveSummary,
    @summarizeObjective small_builtins sample_quiz sample_answers
                        sample_userMcq sample_userFillins = (Normal s, [])
    /\ disjoint (correctIds (summary_mcq s)) (incorrectIds (summary_mcq s))
    /\ subseq (correctIds (summary_fillins s)) [js "q1"; js "q2"]
    /\ totalScore s
       = PrimFloat.add (score (summary_mcq s)) (score (summary_fillins s)).
Proof.
  eexists. split; [reflexivity |].
  pose proof (summarizeObjective_invariant small_builtins sample_quiz
                sample_answers sample_userMcq sample_userFillins
                _ _ eq_refl) as H.
  destruct H as ((_ & _ & Hd & _) & (Hsub & _) & Ht & _).
  split; [exact Hd | split; [exact Hsub | exact Ht]].
Defined.

(** C10, as it is worded, fails on a quiz that declares an id twice:
    the id is entered once per question. *)
Lemma summarizeObjective_twin_counterexample :
  exists s : ObjectiveSummary,
    @summarizeObjective small_builtins twin_quiz twin_answers twin_userMcq
                        (fun _ => Undefined) = (Normal s, [])
    /\ correctIds (summary_mcq s) = [js "m1"; js "m1"]
    /\ ~ NoDup (correctIds (summary_mcq s)).
Proof.
  eexists. split; [reflexivity |]. split; [reflexivity |].
  intros H. inversion H as [| x l Hin _]; subst.
  apply Hin. left. reflexivity.
Qed.

(* ------------------------------------------------------------------ *)
(** ** Idempotence of [normalizeText] *)

(** *** White space *)

Lemma trimStart_app (a b : jsstring) :
  trimStart (a ++ b)
  = match trimStart a with
    | [] => trimStart b
    | t => t ++ b
    end.
Proof.
  induction a as [| c a IH]; [reflexivity |].
  cbn [app trimStart]. destruct (isWhiteSpace c); [exact IH | reflexivity].
Qed.

Lemma trimEnd_cons (c : Z) (s : jsstring) :
  trimEnd (c :: s)
  = match trimEnd s with
    | [] => if isWhiteSpace c then [] else [c]
    | t => c :: t
    end.
Proof.
  unfold trimEnd. cbn [rev]. rewrite trimStart_app.
  destruct (trimStart (rev s)) as [| x t] eqn:E.
  - cbn. destruct (isWhiteSpace c); reflexivity.
  - rewrite rev_app_distr. cbn [rev app].
    destruct (rev t ++ [x]) eqn:E'; [| reflexivity].
    destruct (rev t); discriminate.
Qed.

Lemma trimEnd_word_cons (c : Z) (s : jsstring) :
  isWhiteSpace c = false -> trimEnd (c :: s) = c :: trimEnd s.
Proof.
  intros H. rewrite trimEnd_cons, H. destruct (trimEnd s); reflexivity.
Qed.

Lemma tokens_starts_word (s : jsstring) :
  starts_word s = true -> tokens s <> [].
Proof.
  destruct s as [| c s]; [discriminate |].
  cbn [starts_word tokens]. intros H. apply negb_true_iff in H. rewrite H.
  destruct (starts_word s); [destruct (tokens s) |]; discriminate.
Qed.

(** Nothing but white space: no token, and conversely. *)
Lemma trimEnd_nil_tokens (s : jsstring) :
  trimEnd s = [] <-> tokens s = [].
Proof.
  induction s as [| c s IH]; [split; reflexivity |].
  rewrite trimEnd_cons. cbn [tokens].
  destruct (isWhiteSpace c) eqn:Hc.
  - destruct (trimEnd s) eqn:E.
    + split; intros _; [apply IH; reflexivity | reflexivity].
    + split; [discriminate |]. intros H. apply IH in H. discriminate.
  - split.
    + destruct (trimEnd s); discriminate.
    + destruct (starts_word s); [destruct (tokens s) |]; discriminate.
Qed.

Lemma join_cons_cons (sep : jsstring) (c : Z) (w : jsstring) (ws : list jsstring) :
  join sep ((c :: w) :: ws) = c :: join sep (w :: ws).
Proof. destruct ws; reflexivity. Qed.

Lemma join_cons (sep w : jsstring) (ws : list jsstring) :
  ws <> [] -> join sep (w :: ws) = w ++ sep ++ join sep ws.
Proof. destruct ws; [congruence | reflexivity]. Qed.

(** [collapseRuns] on a trimmed end, in terms of the tokens: leading white
    space gives one space when it is kept ([false]) and nothing when the
    previous unit was white space already ([true]). *)
Lemma collapse_trimEnd (s : jsstring) :
  collapseRuns true (trimEnd s) = join (js " ") (tokens s)
  /\ collapseRuns false (trimEnd s)
     = if starts_word s then join (js " ") (tokens s)
       else match tokens s with
            | [] => []
            | ts => 0x20 :: join (js " ") ts
            end.
Proof.
  induction s as [| c s [IHt IHf]]; [split; reflexivity |].
  destruct (isWhiteSpace c) eqn:Hc.
  - cbn [starts_word tokens]. rewrite Hc. cbn [negb].
    destruct (tokens s) as [| w ws] eqn:Ht.
    + assert (E : trimEnd s = []) by (apply trimEnd_nil_tokens; exact Ht).
      rewrite trimEnd_cons, E, Hc. split; reflexivity.
    + assert (E : trimEnd (c :: s) = c :: trimEnd s).
      { rewrite trimEnd_cons. destruct (trimEnd s) eqn:E'; [| reflexivity].
        apply trimEnd_nil_tokens in E'. congruence. }
      rewrite E. cbn [collapseRuns]. rewrite Hc, IHt. split; reflexivity.
  - rewrite trimEnd_word_cons by exact Hc.
    cbn [collapseRuns starts_word tokens]. rewrite Hc. cbn [negb].
    rewrite IHf.
    destruct (starts_word s) eqn:Hs.
    + pose proof (tokens_starts_word s Hs) as Hne.
      destruct (tokens s) as [| w ws]; [congruence |].
      rewrite join_cons_cons. split; reflexivity.
    + destruct (tokens s) as [| w ws]; [split; reflexivity |].
      split; reflexivity.
Qed.

Lemma tokens_trimStart (s : jsstring) : tokens (trimStart s) = tokens s.
Proof.
  induction s as [| c s IH]; [reflexivity |].
  cbn [trimStart tokens]. destruct (isWhiteSpace c) eqn:Hc; [exact IH |].
  cbn [tokens]. rewrite Hc. reflexivity.
Qed.

Lemma trimStart_starts (s : jsstring) :
  trimStart s = [] \/ starts_word (trimStart s) = true.
Proof.
  induction s as [| c s IH]; [left; reflexivity |].
  cbn [trimStart]. destruct (isWhiteSpace c) eqn:Hc; [exact IH |].
  right. cbn. rewrite Hc. reflexivity.
Qed.

(** [normalizeWhitespace] joins the tokens with single spaces. *)
Lemma normalizeWhitespace_tokens (s : jsstring) :
  normalizeWhitespace s = join (js " ") (tokens s).
Proof.
  unfold normalizeWhitespace, trim.
  destruct (collapse_trimEnd (trimStart s)) as [_ H]. rewrite H.
  rewrite tokens_trimStart.
  destruct (trimStart_starts s) as [E | E].
  - rewrite E. cbn [starts_word].
    rewrite <- (tokens_trimStart s), E. reflexivity.
  - rewrite E. reflexivity.
Qed.

Lemma tokens_words (s : jsstring) : Forall word (tokens s).
Proof.
  induction s as [| c s IH]; [constructor |].
  cbn [tokens]. destruct (isWhiteSpace c) eqn:Hc; [exact IH |].
  destruct (starts_word s).
  - destruct (tokens s) as [| w ws].
    + repeat constructor; [discriminate | exact Hc].
    + inversion IH as [| ? ? [_ Hw] Hws]; subst.
      constructor; [| exact Hws].
      split; [discriminate | constructor; [exact Hc | exact Hw]].
  - constructor; [| exact IH].
    split; [discriminate | repeat constructor; exact Hc].
Qed.

(** The units of the tokens are units of the string. *)
Lemma tokens_units (P : Z -> Prop) (s : jsstring) :
  Forall P s -> Forall (Forall P) (tokens s).
Proof.
  induction 1 as [| c s Hc _ IH]; [constructor |].
  cbn [tokens]. destruct (isWhiteSpace c); [exact IH |].
  destruct (starts_word s).
  - destruct (tokens s) as [| w ws].
    + repeat constructor. exact Hc.
    + inversion IH; subst. constructor; [constructor |]; assumption.
  - constructor; [repeat constructor; exact Hc | exact IH].
Qed.

Lemma tokens_app_space (w r : jsstring) :
  word w -> tokens (w ++ 0x20 :: r) = w :: tokens r.
Proof.
  intros [Hne Hw]. induction Hw as [| c w Hc Hw IH]; [congruence |].
  cbn [app tokens]. rewrite Hc.
  destruct w as [| c' w'].
  - reflexivity.
  - inversion Hw as [| ? ? Hc' _]; subst.
    cbn [app starts_word]. rewrite Hc'. cbn [negb].
    cbn [app] in IH. rewrite IH by discriminate. reflexivity.
Qed.

Lemma tokens_word (w : jsstring) : word w -> tokens w = [w].
Proof.
  intros [Hne Hw]. induction Hw as [| c w Hc Hw IH]; [congruence |].
  cbn [tokens]. rewrite Hc.
  destruct w as [| c' w'].
  - reflexivity.
  - inversion Hw as [| ? ? Hc' _]; subst.
    cbn [starts_word]. rewrite Hc'. cbn [negb].
    rewrite IH by discriminate. reflexivity.
Qed.

Lemma tokens_join (ws : list jsstring) :
  Forall word ws -> tokens (join (js " ") ws) = ws.
Proof.
  induction 1 as [| w ws Hw Hws IH]; [reflexivity |].
  destruct ws as [| w' ws'].
  - apply tokens_word. exact Hw.
  - rewrite join_cons by discriminate.
    change (js " " ++ join (js " ") (w' :: ws'))
      with (0x20 :: join (js " ") (w' :: ws')).
    rewrite tokens_app_space by exact Hw. rewrite IH. reflexivity.
Qed.

(** A string of words joined by single spaces is left as it is. *)
Lemma normalizeWhitespace_join (ws : list jsstring) :
  Forall word ws ->
  normalizeWhitespace (join (js " ") ws) = join (js " ") ws.
Proof.
  intros H. rewrite normalizeWhitespace_tokens, tokens_join by exact H.
  reflexivity.
Qed.

Lemma spaceless_no_space (w : jsstring) :
  spaceless w -> Forall (fun c => (c =? 0x20) = false) w.
Proof.
  induction 1 as [| c w Hc _ IH]; constructor; [| exact IH].
  destruct (Z.eqb_spec c 0x20) as [-> |]; [discriminate Hc | reflexivity].
Qed.

Lemma split_on_word (w : jsstring) :
  spaceless w -> split_on 0x20 w = [w].
Proof.
  intros H. apply spaceless_no_space in H.
  induction H as [| c w Hc _ IH]; [reflexivity |].
  cbn [split_on]. rewrite Hc, IH. reflexivity.
Qed.

Lemma split_on_app_space (w r : jsstring) :
  spaceless w -> split_on 0x20 (w ++ 0x20 :: r) = w :: split_on 0x20 r.
Proof.
  intros H. apply spaceless_no_space in H.
  induction H as [| c w Hc _ IH]; [reflexivity |].
  cbn [app split_on]. rewrite Hc, IH. reflexivity.
Qed.

(** Splitting at the spaces gives the words back. *)
Lemma split_on_join (ws : list jsstring) :
  Forall word ws -> ws <> [] -> split_on 0x20 (join (js " ") ws) = ws.
Proof.
  induction 1 as [| w ws [_ Hw] Hws IH]; intros Hne; [congruence |].
  destruct ws as [| w' ws'].
  - apply split_on_word. exact Hw.
  - rewrite join_cons by discriminate.
    change (js " " ++ join (js " ") (w' :: ws'))
      with (0x20 :: join (js " ") (w' :: ws')).
    rewrite split_on_app_space by exact Hw.
    rewrite IH by discriminate. reflexivity.
Qed.

(** *** Width *)

Lemma str_eqb_length (a b : jsstring) :
  str_eqb a b = true -> List.length a = List.length b.
Proof.
  revert b. induction a as [| x a IH]; destruct b as [| y b]; cbn;
    try discriminate; [reflexivity |].
  intros H. apply andb_true_iff in H. destruct H as [_ H].
  f_equal. apply IH. exact H.
Qed.

Lemma assoc_other_length {V : Type} (k : jsstring) (l : list (jsstring * V)) :
  Forall (fun kv => List.length (fst kv) <> List.length k) l ->
  assoc k l = None.
Proof.
  induction 1 as [| [k' v] l Hk _ IH]; [reflexivity |].
  cbn [assoc]. destruct (str_eqb k k') eqn:E; [| exact IH].
  apply str_eqb_length in E. cbn in Hk. congruence.
Qed.

(** No single unit names a member of [Object.prototype]. *)
Lemma unit_not_inherited (c : Z) : assoc [c] ObjectPrototype = None.
Proof.
  apply assoc_other_length.
  repeat constructor; vm_compute; discriminate.
Qed.

Lemma land_16 (x : Z) : 0 <= x < 65536 -> Z.land x 0xFFFF = x.
Proof.
  intros H. change 0xFFFF with (Z.ones 16).
  rewrite Z.land_ones by lia. apply Z.mod_small. exact H.
Qed.

Lemma fullWidthMap_units :
  fullWidthMap
  = [ ([0xFF0C], [0x2C]); ([0x3002], [0x2E]); ([0xFF1B], [0x3B]);
      ([0xFF1A], [0x3A]); ([0xFF01], [0x21]); ([0xFF1F], [0x3F]);
      ([0xFF08], [0x28]); ([0xFF09], [0x29]); ([0x3010], [0x5B]);
      ([0x3011], [0x5D]); ([0x201C], [0x22]); ([0x201D], [0x22]);
      ([0x2018], [0x27]); ([0x2019], [0x27]); ([0x3001], [0x2C]);
      ([0x3000], [0x20]) ].
Proof. reflexivity. Qed.

(** Below the first key of the table a unit is its own half-width form. *)
Lemma width_fixed_low (c : Z) : 0 <= c < 0x2018 -> width_fixed c.
Proof.
  intros H. unfold width_fixed, toHalfWidth_char, object_get.
  rewrite unit_not_inherited, fullWidthMap_units.
  cbn [nth assoc str_eqb]. decide_tests. reflexivity.
Qed.

(** A unit is kept, or replaced by an ASCII unit. *)
Lemma toHalfWidth_char_cases (c : Z) :
  toHalfWidth_char [c] = JString [c]
  \/ exists x, 0 <= x < 128 /\ toHalfWidth_char [c] = JString [x].
Proof.
  unfold toHalfWidth_char, object_get, fromCharCode, FULLWIDTH_OFFSET.
  rewrite unit_not_inherited, fullWidthMap_units.
  cbn [nth assoc str_eqb].
  decide_tests; cbn [andb nullish];
    first [ left; reflexivity
          | right; eexists; split; [| reflexivity]; lia
          | right; exists (c - 65248);
            split; [lia | rewrite land_16 by lia; reflexivity] ].
Qed.

Lemma toHalfWidth_char_fixed (c : Z) :
  exists x, toHalfWidth_char [c] = JString [x] /\ width_fixed x.
Proof.
  destruct (toHalfWidth_char_cases c) as [H | (x & Hx & H)].
  - exists c. split; [exact H | exact H].
  - exists x. split; [exact H | apply width_fixed_low; lia].
Qed.

Lemma toHalfWidth_cons (c : Z) (s : jsstring) (x : Z) :
  toHalfWidth_char [c] = JString [x] ->
  toHalfWidth (c :: s) = x :: toHalfWidth s.
Proof.
  intros H. unfold toHalfWidth, split_units. cbn [map]. rewrite H.
  cbn [ToString]. destruct s; reflexivity.
Qed.

Lemma toHalfWidth_fixed (s : jsstring) :
  Forall width_fixed s -> toHalfWidth s = s.
Proof.
  induction 1 as [| c s Hc _ IH]; [reflexivity |].
  rewrite (toHalfWidth_cons c s c Hc), IH. reflexivity.
Qed.

Lemma toHalfWidth_result (s : jsstring) : Forall width_fixed (toHalfWidth s).
Proof.
  induction s as [| c s IH]; [constructor |].
  destruct (toHalfWidth_char_fixed c) as (x & Hx & Hfix).
  rewrite (toHalfWidth_cons c s x Hx). constructor; assumption.
Qed.

(** [toHalfWidth] is idempotent. *)
Lemma toHalfWidth_idempotent (s : jsstring) :
  toHalfWidth (toHalfWidth s) = toHalfWidth s.
Proof. apply toHalfWidth_fixed, toHalfWidth_result. Qed.

(** *** Synonyms *)

Lemma unify_synonym (lower : jsstring) :
  unify lower = join (js " ") (map synonym (split_on 0x20 lower)).
Proof. reflexivity. Qed.

Lemma zhSynonyms_values (w v : jsstring) :
  assoc w zhSynonyms = Some v -> v = js "utc+8".
Proof.
  unfold zhSynonyms. cbn [assoc].
  repeat (destruct (str_eqb w _); [intros H; injection H as <-; reflexivity |]).
  discriminate.
Qed.

(** A token that names no inherited member is kept or becomes "utc+8". *)
Lemma synonym_cases (w : jsstring) :
  not_inherited w ->
  (synonym w = w /\ assoc w zhSynonyms = None) \/ synonym w = js "utc+8".
Proof.
  intros H. unfold synonym, object_get.
  destruct (assoc w zhSynonyms) as [v |] eqn:E.
  - right. apply zhSynonyms_values in E. subst v. reflexivity.
  - left. rewrite H. split; reflexivity.
Qed.

Lemma synonym_twice (w : jsstring) :
  not_inherited w -> synonym (synonym w) = synonym w.
Proof.
  intros H. destruct (synonym_cases w H) as [[E _] | E]; rewrite E.
  - exact E.
  - reflexivity.
Qed.

Lemma utc_word : word (js "utc+8").
Proof. split; [discriminate | repeat constructor]. Qed.

Lemma utc_width : Forall width_fixed (js "utc+8").
Proof. repeat constructor. Qed.

Lemma Forall_join (P : Z -> Prop) (ws : list jsstring) :
  P 0x20 -> Forall (Forall P) ws -> Forall P (join (js " ") ws).
Proof.
  intros Hsp. induction 1 as [| w ws Hw Hws IH]; [constructor |].
  destruct ws as [| w' ws']; [exact Hw |].
  rewrite join_cons by discriminate.
  apply Forall_app. split; [exact Hw |].
  constructor; [exact Hsp | exact IH].
Qed.

Lemma space_width : width_fixed 0x20.
Proof. reflexivity. Qed.

(** *** One pass repeated

    [f] is the case step.  It is assumed to work token by token, to be
    idempotent, and to produce neither white space, nor an empty token,
    nor a character that [toHalfWidth] would change. *)
Section Pipeline.
Variable f : jsstring -> jsstring.
Hypothesis f_tokens :
  forall ws, f (join (js " ") ws) = join (js " ") (map f ws).
Hypothesis f_idempotent : forall s, f (f s) = f s.
Hypothesis f_nonempty : forall s, f s = [] -> s = [].
Hypothesis f_spaceless : forall s, spaceless s -> spaceless (f s).
Hypothesis f_width : forall s, Forall width_fixed s -> Forall width_fixed (f s).
Hypothesis f_utc : f (js "utc+8") = js "utc+8".

Lemma f_word (w : jsstring) : word w -> word (f w).
Proof.
  intros [Hne Hw]. split; [| apply f_spaceless; exact Hw].
  intros E. apply f_nonempty in E. congruence.
Qed.

Lemma f_nil : f [] = [].
Proof. exact (f_tokens []). Qed.

(** What the synonym step makes of a lowered token. *)
Lemma token_facts (t : jsstring) :
  word t -> Forall width_fixed t -> not_inherited (f t) ->
  word (synonym (f t))
  /\ Forall width_fixed (synonym (f t))
  /\ f (synonym (f t)) = synonym (f t)
  /\ synonym (synonym (f t)) = synonym (f t).
Proof.
  intros Hw Hfix Hni.
  destruct (synonym_cases (f t) Hni) as [[E _] | E].
  - rewrite E. repeat split.
    + apply f_word; exact Hw.
    + apply f_spaceless, Hw.
    + apply f_width; exact Hfix.
    + apply f_idempotent.
    + exact E.
  - rewrite E. split; [exact utc_word |].
    split; [exact utc_width |]. split; [exact f_utc | reflexivity].
Qed.

Lemma tokens_facts (T : list jsstring) :
  Forall word T -> Forall (Forall width_fixed) T ->
  Forall not_inherited (map f T) ->
  Forall word (map synonym (map f T))
  /\ Forall (Forall width_fixed) (map synonym (map f T))
  /\ map f (map synonym (map f T)) = map synonym (map f T)
  /\ map synonym (map synonym (map f T)) = map synonym (map f T).
Proof.
  induction 1 as [| t T Ht _ IH]; intros Hfix Hni.
  - repeat split; constructor.
  - inversion Hfix as [| ? ? Hfix1 Hfix2]; subst.
    cbn [map] in Hni. inversion Hni as [| ? ? Hni1 Hni2]; subst.
    destruct (token_facts t Ht Hfix1 Hni1) as (A1 & A2 & A3 & A4).
    destruct (IH Hfix2 Hni2) as (B1 & B2 & B3 & B4).
    cbn [map]. rewrite A3, A4, B3, B4.
    repeat split; try constructor; assumption.
Qed.

(** A second pass changes nothing, when no token of the first names a
    member inherited from [Object.prototype]. *)
Lemma pass_idempotent (s : jsstring) :
  Forall not_inherited
         (split_on 0x20 (f (normalizeWhitespace (toHalfWidth s)))) ->
  pass f (pass f s) = pass f s.
Proof.
  unfold pass at 2 3. rewrite normalizeWhitespace_tokens, f_tokens.
  pose proof (tokens_words (toHalfWidth s)) as Hwords.
  pose proof (tokens_units width_fixed _ (toHalfWidth_result s)) as Hwidth.
  destruct (tokens (toHalfWidth s)) as [| t ts] eqn:Et.
  - intros _. cbn [map join]. change (unify []) with (@nil Z).
    unfold pass. change (normalizeWhitespace (toHalfWidth [])) with (@nil Z).
    rewrite f_nil. reflexivity.
  - remember (t :: ts) as T eqn:ET.
    assert (HT : T <> []) by (subst T; discriminate).
    clear Et ET t ts.
    assert (HL : Forall word (map f T)).
    { apply Forall_map. eapply Forall_impl; [| exact Hwords].
      intros w Hw. apply f_word; exact Hw. }
    assert (HLne : map f T <> []) by (destruct T; [congruence | discriminate]).
    rewrite split_on_join by assumption.
    intros Hni.
    destruct (tokens_facts T Hwords Hwidth Hni) as (Sw & Sfix & Sf & Ssyn).
    assert (HSne : map synonym (map f T) <> [])
      by (destruct T; [congruence | discriminate]).
    rewrite unify_synonym, split_on_join by assumption.
    unfold pass.
    rewrite toHalfWidth_fixed
      by (apply Forall_join; [exact space_width | exact Sfix]).
    rewrite normalizeWhitespace_join by exact Sw.
    rewrite f_tokens, Sf.
    rewrite unify_synonym, split_on_join by assumption.
    rewrite Ssyn. reflexivity.
Qed.

End Pipeline.

Lemma join_map_id (ws : list jsstring) :
  join (js " ") ws = join (js " ") (map (fun s => s) ws).
Proof. rewrite map_id. reflexivity. Qed.

(** [normalizeText] is idempotent on every string whose normalized tokens
    name no member of [Object.prototype]. *)
Theorem normalizeText_idempotent_own_tokens :
  forall (B : Builtins),
    LowerCaseLaws B ->
    forall (s : jsstring) (o : NormalizeOptions),
      Forall not_inherited
        (split_on 0x20
           (match lowercase o with
            | Some false => normalizeWhitespace (toHalfWidth s)
            | _ => toLowerCase (normalizeWhitespace (toHalfWidth s))
            end)) ->
      normalizeText (normalizeText s o) o = normalizeText s o.
Proof.
  intros B [L1 L2 L3 L4 L5 L6] s o H.
  destruct (lowercase o) as [[|] |] eqn:Eo.
  - rewrite !normalizeText_lower by congruence.
    exact (pass_idempotent toLowerCase L1 L2 L3 L4 L5 L6 s H).
  - assert (Hk : forall v, normalizeText v o = pass (fun x => x) v).
    { intros v. rewrite normalizeText_pass, Eo. reflexivity. }
    rewrite !Hk.
    apply (pass_idempotent (fun x => x)); try reflexivity; try tauto.
    + intros ws. apply join_map_id.
  - rewrite !normalizeText_lower by congruence.
    exact (pass_idempotent toLowerCase L1 L2 L3 L4 L5 L6 s H).
Qed.

(** The executable runtime satisfies the laws. *)

(** [lower_unit] adds 32 to a capital letter of its three ranges and
    keeps every other unit. *)
Lemma lower_unit_cases (c : Z) :
  (Small.lower_unit c = c + 32
   /\ (65 <= c <= 90 \/ (192 <= c <= 222 /\ c <> 215) \/ 65313 <= c <= 65338))
  \/ (Small.lower_unit c = c
      /\ ~ 65 <= c <= 90 /\ ~ (192 <= c <= 222 /\ c <> 215)
      /\ ~ 65313 <= c <= 65338).
Proof.
  unfold Small.lower_unit.
  destruct (Z.leb_spec 0x41 c), (Z.leb_spec c 0x5A); cbn [andb];
    try (left; split; [reflexivity | lia]);
    destruct (Z.leb_spec 0xC0 c), (Z.leb_spec c 0xDE), (Z.eqb_spec c 0xD7);
    cbn [andb negb];
    try (left; split; [reflexivity | lia]);
    destruct (Z.leb_spec 0xFF21 c), (Z.leb_spec c 0xFF3A); cbn [andb];
    try (left; split; [reflexivity | lia]);
    right; (split; [reflexivity | lia]).
Qed.

Lemma lower_unit_idempotent (c : Z) :
  Small.lower_unit (Small.lower_unit c) = Small.lower_unit c.
Proof.
  destruct (lower_unit_cases c) as [[E H] | [E _]]; rewrite E; [| exact E].
  unfold Small.lower_unit. solve_tests.
Qed.

Lemma lower_unit_spaceless (c : Z) :
  isWhiteSpace c = false -> isWhiteSpace (Small.lower_unit c) = false.
Proof.
  destruct (lower_unit_cases c) as [[E H] | [E _]]; rewrite E; [| tauto].
  intros _. unfold isWhiteSpace. solve_tests.
Qed.

Lemma lower_unit_width (c : Z) :
  width_fixed c -> width_fixed (Small.lower_unit c).
Proof.
  destruct (lower_unit_cases c) as [[E H] | [E _]]; rewrite E; [| tauto].
  destruct H as [H | [H | H]];
    try (intros _; apply width_fixed_low; lia).
  unfold width_fixed, toHalfWidth_char, fromCharCode. cbn [nth].
  replace ((0xFF10 <=? c) && (c <=? 0xFF19)) with false
    by (symmetry; apply andb_false_iff; right; apply Z.leb_gt; lia).
  replace ((0xFF21 <=? c) && (c <=? 0xFF3A)) with true
    by (symmetry; apply andb_true_iff; split; apply Z.leb_le; lia).
  rewrite land_16 by lia. intros E'. injection E' as E'. lia.
Qed.

Lemma small_lower_tokens (ws : list jsstring) :
  Small.toLowerCase (join (js " ") ws)
  = join (js " ") (map Small.toLowerCase ws).
Proof.
  induction ws as [| w ws IH]; [reflexivity |].
  destruct ws as [| w' ws']; [reflexivity |].
  rewrite (join_cons (js " ") w (w' :: ws')) by discriminate.
  change (map Small.toLowerCase (w :: w' :: ws'))
    with (Small.toLowerCase w :: map Small.toLowerCase (w' :: ws')).
  rewrite (join_cons (js " ") (Small.toLowerCase w)
             (map Small.toLowerCase (w' :: ws'))) by discriminate.
  rewrite <- IH. unfold Small.toLowerCase. rewrite !map_app. reflexivity.
Qed.

Lemma small_laws : LowerCaseLaws small_builtins.
Proof.
  constructor; cbn [toLowerCase small_builtins].
  - exact small_lower_tokens.
  - intros s. unfold Small.toLowerCase. rewrite map_map.
    apply map_ext. exact lower_unit_idempotent.
  - intros s H. eapply map_eq_nil. exact H.
  - intros s H. unfold spaceless, Small.toLowerCase. apply Forall_map.
    eapply Forall_impl; [| exact H]. exact lower_unit_spaceless.
  - intros s H. unfold Small.toLowerCase. apply Forall_map.
    eapply Forall_impl; [| exact H]. exact lower_unit_width.
  - reflexivity.
Qed.

(** An instance: full-width letters, an ideographic space and a synonym. *)
Lemma normalizeText_idempotent_own_tokens_witness :
  @normalizeText small_builtins
     (@normalizeText small_builtins (js " Ｈello　 北京时间 ") no_options)
     no_options
  = @normalizeText small_builtins (js " Ｈello　 北京时间 ") no_options.
Proof.
  apply (normalizeText_idempotent_own_tokens small_builtins small_laws).
  repeat constructor.
Defined.

Example normalizeText_sample :
  @normalizeText small_builtins (js " Ｈello　 北京时间 ") no_options
  = js "hello utc+8".
Proof. reflexivity. Qed.

(** C8.  [normalizeText] is not idempotent on "__proto__".  The token is
    looked up in [zhSynonyms], an object literal, and the lookup finds
    the accessor that [Object.prototype] provides; the prototype object
    it returns is not nullish, so it replaces the token, and [join]
    renders it as "[object Object]".  A second pass lower-cases that
    text.  (The runtime is asked only to lower-case these two ASCII
    strings as every engine does.) *)
Theorem normalizeText_proto_not_idempotent :
  forall (B : Builtins),
    toLowerCase (js "__proto__") = js "__proto__" ->
    toLowerCase (js "[object Object]") = js "[object object]" ->
    normalizeText (js "__proto__") no_options = js "[object Object]"
    /\ normalizeText (normalizeText (js "__proto__") no_options) no_options
       = js "[object object]"
    /\ normalizeText (normalizeText (js "__proto__") no_options) no_options
       <> normalizeText (js "__proto__") no_options.
Proof.
  intros B H1 H2.
  assert (Ha : normalizeText (js "__proto__") no_options = js "[object Object]").
  { rewrite normalizeText_lower by discriminate.
    change (normalizeWhitespace (toHalfWidth (js "__proto__")))
      with (js "__proto__").
    rewrite H1. reflexivity. }
  assert (Hb : normalizeText (js "[object Object]") no_options
               = js "[object object]").
  { rewrite normalizeText_lower by discriminate.
    change (normalizeWhitespace (toHalfWidth (js "[object Object]")))
      with (js "[object Object]").
    rewrite H2. reflexivity. }
  split; [exact Ha |]. rewrite Ha, Hb.
  split; [reflexivity | discriminate].
Qed.

Lemma normalizeText_proto_not_idempotent_witness :
  @normalizeText small_builtins
     (@normalizeText small_builtins (js "__proto__") no_options) no_options
  <> @normalizeText small_builtins (js "__proto__") no_options.
Proof.
  exact (proj2 (proj2 (normalizeText_proto_not_idempotent small_builtins
                         ltac:(reflexivity) ltac:(reflexivity)))).
Defined.

(** The same happens with "constructor", which names the function
    [Object]. *)
Example normalizeText_constructor :
  @normalizeText small_builtins (js "constructor") no_options
  = js "function Object() { [native code] }"
  /\ @normalizeText small_builtins
        (js "function Object() { [native code] }") no_options
     = js "function object() { [native code] }".
Proof. split; reflexivity. Qed.

(* ------------------------------------------------------------------ *)
(** * Further properties *)

(** ** Width and white space *)

Lemma toHalfWidth_char_unit (c : Z) :
  toHalfWidth_char [c] = JString [half_unit c].
Proof.
  unfold half_unit, toHalfWidth_char, object_get, fromCharCode, FULLWIDTH_OFFSET.
  rewrite unit_not_inherited, fullWidthMap_units.
  cbn [nth assoc str_eqb].
  decide_tests; cbn [andb orb nullish];
    first [ reflexivity | rewrite land_16 by lia; reflexivity ].
Qed.

Lemma toHalfWidth_map (s : jsstring) : toHalfWidth s = map half_unit s.
Proof.
  induction s as [| c s IH]; [reflexivity |].
  rewrite (toHalfWidth_cons c s _ (toHalfWidth_char_unit c)), IH. reflexivity.
Qed.

Lemma fullwidth_not_space (c : Z) : 0xFF00 <= c -> isWhiteSpace c = false.
Proof. intros H. unfold isWhiteSpace. solve_tests. Qed.

Lemma half_unit_cases (c : Z) :
  half_unit c = c
  \/ (c = 0x3000 /\ half_unit c = 0x20)
  \/ (0x2018 <= c /\ isWhiteSpace c = false /\ 0x21 <= half_unit c < 0x7F).
Proof.
  unfold half_unit. rewrite fullWidthMap_units. cbn [assoc str_eqb].
  decide_tests; cbn [andb orb];
    first [ left; reflexivity
          | right; left; split; [assumption | reflexivity]
          | right; right; split; [lia |];
            split; [first [ apply fullwidth_not_space; lia
                          | subst c; reflexivity ]
                   | lia ] ].
Qed.

Lemma half_unit_space (c : Z) : isWhiteSpace (half_unit c) = isWhiteSpace c.
Proof.
  destruct (half_unit_cases c) as [E | [[-> E] | (H1 & H2 & H3)]].
  - rewrite E. reflexivity.
  - rewrite E. reflexivity.
  - rewrite H2. unfold isWhiteSpace. solve_tests.
Qed.

Lemma half_unit_idempotent (c : Z) : half_unit (half_unit c) = half_unit c.
Proof.
  pose proof (toHalfWidth_idempotent [c]) as H.
  rewrite !toHalfWidth_map in H. cbn [map] in H. congruence.
Qed.

Lemma tokens_map_half (s : jsstring) :
  tokens (map half_unit s) = map (map half_unit) (tokens s).
Proof.
  induction s as [| c s IH]; [reflexivity |].
  cbn [map tokens]. rewrite half_unit_space.
  destruct (isWhiteSpace c); [exact IH |].
  assert (E : starts_word (map half_unit s) = starts_word s).
  { destruct s as [| d s']; [reflexivity |]. cbn [map starts_word].
    rewrite half_unit_space. reflexivity. }
  rewrite E, IH. destruct (starts_word s); [| reflexivity].
  destruct (tokens s); reflexivity.
Qed.

Lemma tokens_blank (b : jsstring) : blank b -> tokens b = [].
Proof.
  induction 1 as [| c b Hc _ IH]; [reflexivity |].
  cbn [tokens]. rewrite Hc. exact IH.
Qed.

Lemma tokens_blank_l (a s : jsstring) : blank a -> tokens (a ++ s) = tokens s.
Proof.
  induction 1 as [| c a Hc _ IH]; [reflexivity |].
  cbn [app tokens]. rewrite Hc. exact IH.
Qed.

Lemma tokens_blank_r (s b : jsstring) : blank b -> tokens (s ++ b) = tokens s.
Proof.
  intros Hb. induction s as [| c s IH]; [apply tokens_blank; exact Hb |].
  cbn [app tokens]. rewrite IH.
  assert (E : starts_word (s ++ b) = starts_word s).
  { destruct s as [| d s']; [| reflexivity].
    destruct Hb as [| x b Hx _]; [reflexivity |].
    cbn [app starts_word]. rewrite Hx. reflexivity. }
  rewrite E. reflexivity.
Qed.

Lemma tokens_toHalfWidth (s : jsstring) :
  tokens (toHalfWidth s) = map (map half_unit) (tokens s).
Proof. rewrite toHalfWidth_map. apply tokens_map_half. Qed.

Section Insensitive.
Context {B : Builtins}.

(** [normalizeText] sees its argument through the tokens of the
    half-width form only. *)
Lemma normalizeText_tokens (a b : jsstring) (o : NormalizeOptions) :
  tokens (toHalfWidth a) = tokens (toHalfWidth b) ->
  normalizeText a o = normalizeText b o.
Proof.
  intros H. rewrite !normalizeText_pass. unfold pass.
  rewrite !normalizeWhitespace_tokens, H. reflexivity.
Qed.

Lemma some_eff_ext {A : Type} (f g : A -> eff bool) (l : list A) :
  (forall x, f x = g x) -> some_eff f l = some_eff g l.
Proof.
  intros H. induction l as [| x l IH]; [reflexivity |].
  cbn [some_eff]. rewrite H. unfold bind.
  destruct (g x) as [[[|] | e] w]; rewrite ?IH; reflexivity.
Qed.

Lemma equalsText_tokens (a b expected : jsstring) (o : EqualsTextOptions) :
  tokens (toHalfWidth a) = tokens (toHalfWidth b) ->
  equalsText a expected o = equalsText b expected o.
Proof.
  intros H. unfold equalsText.
  rewrite (normalizeText_tokens a b _ H). reflexivity.
Qed.

Lemma parseDateString_tokens (a b : jsstring) :
  tokens (toHalfWidth a) = tokens (toHalfWidth b) ->
  parseDateString a = parseDateString b.
Proof.
  intros H. unfold parseDateString.
  rewrite (normalizeText_tokens a b _ H). reflexivity.
Qed.

Lemma normalizeNumberInput_tokens (a b : jsstring) :
  tokens (toHalfWidth a) = tokens (toHalfWidth b) ->
  normalizeNumberInput a = normalizeNumberInput b.
Proof.
  intros H. unfold normalizeNumberInput.
  rewrite (normalizeText_tokens a b _ H). reflexivity.
Qed.

End Insensitive.

(** [toHalfWidth] works unit by unit: the result is the string of the
    half-width forms of the units.  It has the length of the input, white
    space where the input has it, and applying the function again changes
    nothing.  (The lookup in [fullWidthMap] goes through the prototype
    chain as well; no single unit names an inherited member.) *)
Theorem toHalfWidth_unitwise :
  forall s : jsstring,
    toHalfWidth s = map half_unit s
    /\ List.length (toHalfWidth s) = List.length s
    /\ map isWhiteSpace (toHalfWidth s) = map isWhiteSpace s
    /\ toHalfWidth (toHalfWidth s) = toHalfWidth s.
Proof.
  intros s. rewrite !toHalfWidth_map.
  split; [reflexivity |]. split; [apply length_map |].
  split.
  - rewrite map_map. apply map_ext. exact half_unit_space.
  - rewrite map_map. apply map_ext. exact half_unit_idempotent.
Qed.

(** [normalizeWhitespace] returns the white-space-free runs of the input
    joined by single spaces: nothing at either end, one U+0020 between two
    words, no other white space.  It is idempotent. *)
Theorem normalizeWhitespace_canonical :
  forall s : jsstring,
    normalizeWhitespace s = join (js " ") (tokens s)
    /\ Forall word (tokens s)
    /\ tokens (normalizeWhitespace s) = tokens s
    /\ normalizeWhitespace (normalizeWhitespace s) = normalizeWhitespace s.
Proof.
  intros s. pose proof (tokens_words s) as Hw.
  rewrite !normalizeWhitespace_tokens.
  split; [reflexivity |]. split; [exact Hw |].
  rewrite tokens_join by exact Hw. split; reflexivity.
Qed.

(** [normalizeText] does not see white space around the text, the length
    of a run of white space, or the width of the characters: padding the
    input, collapsing it or converting it beforehand gives the same
    result, whatever the case option. *)
Theorem normalizeText_spacing_and_width :
  forall (B : Builtins) (a b s : jsstring) (o : NormalizeOptions),
    blank a -> blank b ->
    normalizeText (a ++ s ++ b) o = normalizeText s o
    /\ normalizeText (toHalfWidth s) o = normalizeText s o
    /\ normalizeText (normalizeWhitespace s) o = normalizeText s o.
Proof.
  intros B a b s o Ha Hb. split; [| split]; apply normalizeText_tokens.
  - rewrite !tokens_toHalfWidth, tokens_blank_l, tokens_blank_r by assumption.
    reflexivity.
  - rewrite toHalfWidth_idempotent. reflexivity.
  - rewrite !tokens_toHalfWidth, normalizeWhitespace_tokens.
    rewrite tokens_join by apply tokens_words. reflexivity.
Qed.

Lemma normalizeText_spacing_and_width_witness :
  @normalizeText small_builtins (js "  " ++ js "Ｕ Ｔ　Ｃ" ++ js " ") no_options
  = @normalizeText small_builtins (js "Ｕ Ｔ　Ｃ") no_options.
Proof.
  refine (proj1 (normalizeText_spacing_and_width small_builtins
                   (js "  ") (js " ") (js "Ｕ Ｔ　Ｃ") no_options _ _));
    vm_compute; repeat constructor.
Defined.

(** Text, number and date rules grade two inputs alike when their
    half-width forms have the same tokens: full-width digits and letters,
    padding and the length of the white space between words play no role.
    (A pattern rule sees the input as typed.) *)
Theorem gradeFillin_tokens_only :
  forall (B : Builtins) (a b : jsstring) (rule : FillinRule),
    not_regex rule ->
    a <> [] -> b <> [] ->
    tokens (toHalfWidth a) = tokens (toHalfWidth b) ->
    gradeFillin (Value (Str a)) rule = gradeFillin (Value (Str b)) rule.
Proof.
  intros B a b rule Hr Ha Hb H.
  destruct a as [| x a]; [congruence |]. destruct b as [| y b]; [congruence |].
  cbn [gradeFillin].
  destruct rule as [answer accept ci nz | p | answer tol | answer accept | m];
    cbn [gradeFillin_switch].
  - destruct accept as [[| c cs] |].
    + destruct answer as [[| c a'] |]; try reflexivity.
      rewrite (equalsText_tokens _ _ _ _ H). reflexivity.
    + apply some_eff_ext. intros e.
      rewrite (equalsText_tokens _ _ _ _ H). reflexivity.
    + destruct answer as [[| c a'] |]; try reflexivity.
      rewrite (equalsText_tokens _ _ _ _ H). reflexivity.
  - contradiction.
  - rewrite (normalizeNumberInput_tokens _ _ H). reflexivity.
  - rewrite (parseDateString_tokens _ _ H). reflexivity.
  - reflexivity.
Qed.

Lemma gradeFillin_tokens_only_witness :
  @gradeFillin small_builtins (Value (Str (js " ２９.５３１ ")))
     (NumberRule 29.531%float (Some 0.002%float))
  = @gradeFillin small_builtins (Value (Str (js "29.531")))
     (NumberRule 29.531%float (Some 0.002%float)).
Proof.
  refine (gradeFillin_tokens_only small_builtins
            (js " ２９.５３１ ") (js "29.531")
            (NumberRule 29.531%float (Some 0.002%float)) I _ _ _);
    [discriminate | discriminate | vm_compute; reflexivity].
Defined.

(** ** Text comparison, continued *)

Lemma str_eqb_eq (a b : jsstring) : str_eqb a b = true <-> a = b.
Proof.
  revert b. induction a as [| x a IH]; destruct b as [| y b]; cbn [str_eqb];
    try (split; [discriminate | congruence]); [split; reflexivity |].
  rewrite andb_true_iff, Z.eqb_eq, IH. split.
  - intros [-> ->]. reflexivity.
  - intros E. injection E as -> ->. split; reflexivity.
Qed.

Lemma str_eqb_refl (a : jsstring) : str_eqb a a = true.
Proof. apply str_eqb_eq. reflexivity. Qed.


Lemma split_on_nonempty (sep : Z) (s : jsstring) : split_on sep s <> [].
Proof.
  destruct s as [| c s]; [discriminate |]. cbn [split_on].
  destruct (c =? sep); [discriminate |].
  destruct (split_on sep s); discriminate.
Qed.

(** Joining the pieces of [split(' ')] with a space gives the string
    back. *)
Lemma join_split_on (s : jsstring) : join (js " ") (split_on 0x20 s) = s.
Proof.
  induction s as [| c s IH]; [reflexivity |].
  cbn [split_on]. destruct (Z.eqb_spec c 0x20) as [-> | Hc].
  - rewrite join_cons by apply split_on_nonempty. rewrite IH. reflexivity.
  - pose proof (split_on_nonempty 0x20 s) as Hne.
    destruct (split_on 0x20 s) as [| w ws]; [congruence |].
    rewrite join_cons_cons, IH. reflexivity.
Qed.

Lemma unify_plain (l : jsstring) :
  Forall (fun w => object_get zhSynonyms w = None) (split_on 0x20 l) ->
  unify l = l.
Proof.
  intros H. unfold unify.
  rewrite (map_ext_in synonym (fun w => w)).
  - rewrite map_id. apply join_split_on.
  - intros w Hw. rewrite Forall_forall in H. unfold synonym.
    rewrite (H w Hw). reflexivity.
Qed.

(** On a text none of whose pieces is found in [zhSynonyms] (as an own
    key or as a member inherited from [Object.prototype]) the synonym step
    changes nothing, since splitting at the spaces and joining with a space
    gives the text back: [normalizeText] is then the half-width form with
    its white space collapsed, lower-cased unless the option says no. *)
Theorem normalizeText_without_synonyms :
  forall (B : Builtins) (s : jsstring) (o : NormalizeOptions),
    Forall (fun w => object_get zhSynonyms w = None)
           (split_on 0x20 (lowered s o)) ->
    normalizeText s o = lowered s o
    /\ join (js " ") (split_on 0x20 (lowered s o)) = lowered s o.
Proof.
  intros B s o H. split; [| apply join_split_on].
  rewrite normalizeText_pass. unfold lowered in *. unfold pass.
  destruct (lowercase o) as [[|] |]; apply unify_plain; exact H.
Qed.

Lemma normalizeText_without_synonyms_witness :
  @normalizeText small_builtins (js " Ｌunar　 New  YEAR ") no_options
  = @lowered small_builtins (js " Ｌunar　 New  YEAR ") no_options.
Proof.
  refine (proj1 (normalizeText_without_synonyms small_builtins
                   (js " Ｌunar　 New  YEAR ") no_options _)).
  vm_compute. repeat constructor.
Defined.



(** No inherited member is a string. *)
Lemma inherited_not_string (k s : jsstring) :
  assoc k ObjectPrototype <> Some (JString s).
Proof.
  unfold ObjectPrototype. cbn [assoc].
  repeat (destruct (str_eqb k _); [discriminate |]). discriminate.
Qed.

(** The keys of [zhSynonyms]. *)
Lemma zhSynonyms_keys (w v : jsstring) :
  assoc w zhSynonyms = Some v ->
  w = js "北京时间" \/ w = js "utc+8" \/ w = js "东八区".
Proof.
  unfold zhSynonyms. cbn [assoc].
  destruct (str_eqb w (js "北京时间")) eqn:E1;
    [apply str_eqb_eq in E1; tauto |].
  destruct (str_eqb w (js "utc+8")) eqn:E2;
    [apply str_eqb_eq in E2; tauto |].
  destruct (str_eqb w (js "东八区")) eqn:E3;
    [apply str_eqb_eq in E3; tauto |].
  discriminate.
Qed.

(** With [normalizeZh] the comparison throws when the expected string
    names a member that [zhSynonyms] inherits from [Object.prototype], and
    gives the verdict it gives without the option in every other case: the
    option never changes a verdict.  (The three keys of the table are
    assumed to be left alone by lower-casing.) *)
Theorem equalsText_normalizeZh_no_effect :
  forall (B : Builtins),
    toLowerCase (js "北京时间") = js "北京时间" ->
    toLowerCase (js "utc+8") = js "utc+8" ->
    toLowerCase (js "东八区") = js "东八区" ->
    forall (input expected : jsstring) (ci : option bool),
      equalsText input expected {| caseInsensitive := ci; normalizeZh := Some true |}
      = if raises expected
        then Throw (TypeError "input.split is not a function")
        else equalsText input expected
               {| caseInsensitive := ci; normalizeZh := Some false |}.
Proof.
  intros B H1 H2 H3 input expected ci.
  destruct (raises expected) eqn:Hr; [apply equalsText_raises; exact Hr |].
  rewrite equalsText_zh, equalsText_plain by discriminate.
  unfold raises, object_get in *.
  destruct (assoc expected zhSynonyms) as [v |] eqn:E.
  - pose proof (zhSynonyms_values _ _ E) as ->.
    cbn [nullish normalizeText_of].
    assert (Hkey : forall k, k = js "北京时间" \/ k = js "utc+8" \/ k = js "东八区" ->
              normalizeText k {| lowercase := Some (nullish ci true) |}
              = js "utc+8").
    { intros k Hk. rewrite normalizeText_pass. cbn [lowercase].
      destruct (nullish ci true); unfold pass;
        destruct Hk as [-> | [-> | ->]];
        match goal with
        | |- context [normalizeWhitespace (toHalfWidth ?k)] =>
          change (normalizeWhitespace (toHalfWidth k)) with k
        end;
        rewrite ?H1, ?H2, ?H3; reflexivity. }
    rewrite (Hkey expected (zhSynonyms_keys _ _ E)).
    rewrite (Hkey (js "utc+8")) by tauto. reflexivity.
  - destruct (assoc expected ObjectPrototype) as [[s | | name] |] eqn:E';
      try discriminate Hr; [| reflexivity].
    apply inherited_not_string in E'. contradiction.
Qed.

Lemma equalsText_normalizeZh_no_effect_witness :
  @equalsText small_builtins (js "UTC+8") (js "东八区")
     {| caseInsensitive := None; normalizeZh := Some true |}
  = @equalsText small_builtins (js "UTC+8") (js "东八区")
     {| caseInsensitive := None; normalizeZh := Some false |}.
Proof.
  exact (equalsText_normalizeZh_no_effect small_builtins
           eq_refl eq_refl eq_refl (js "UTC+8") (js "东八区") None).
Defined.

(** ** When the comparison throws *)

Lemma assoc_In {V : Type} (k : jsstring) (l : list (jsstring * V)) :
  assoc k l <> None <-> In k (map fst l).
Proof.
  induction l as [| [k' v] l IH]; cbn [assoc map fst In].
  - split; [congruence | contradiction].
  - destruct (str_eqb k k') eqn:E.
    + apply str_eqb_eq in E. subst k'. split; [intros _; left; reflexivity |].
      intros _. discriminate.
    + rewrite IH. split; [intros H; right; exact H |].
      intros [H | H]; [| exact H]. subst k'.
      rewrite str_eqb_refl in E. discriminate.
Qed.

Lemma raises_inherited (expected : jsstring) :
  raises expected = true <-> In expected inherited_names.
Proof.
  unfold raises, object_get, inherited_names.
  destruct (assoc expected zhSynonyms) as [v |] eqn:E.
  - split; [discriminate |]. intros H.
    apply zhSynonyms_keys in E.
    destruct E as [-> | [-> | ->]]; vm_compute in H;
      repeat (destruct H as [H | H]; [discriminate H |]); contradiction.
  - rewrite <- assoc_In.
    destruct (assoc expected ObjectPrototype) as [[s | | name] |] eqn:E';
      try (split; [intros _; discriminate | reflexivity]).
    + apply inherited_not_string in E'. contradiction.
    + split; [discriminate | congruence].
Qed.

Lemma equalsText_throw_raises {B : Builtins} (input expected : jsstring)
    (o : EqualsTextOptions) (e : jserror) :
  equalsText input expected o = Throw e ->
  normalizeZh o = Some true /\ raises expected = true.
Proof.
  destruct o as [ci nz]. cbn [normalizeZh]. intros H.
  destruct (raises expected) eqn:Hr.
  - split; [| reflexivity].
    destruct nz as [[|] |]; [reflexivity | |];
      rewrite equalsText_plain in H by discriminate; discriminate.
  - destruct (equalsText_returns input expected
                {| caseInsensitive := ci; normalizeZh := nz |}
                (fun _ => Hr)) as [b Hb].
    congruence.
Qed.

(** [equalsText] throws on exactly twelve expected strings, and only
    with [normalizeZh]: the names of the members that the object literal
    [zhSynonyms] inherits from [Object.prototype] ("constructor",
    "toString", "__proto__", ...).  The input plays no role. *)
Theorem equalsText_throws_on_inherited_names :
  forall (B : Builtins) (input expected : jsstring) (o : EqualsTextOptions),
    (exists e, equalsText input expected o = Throw e)
    <-> (normalizeZh o = Some true /\ In expected inherited_names).
Proof.
  intros B input expected o. split.
  - intros [e H]. apply equalsText_throw_raises in H. destruct H as [Hnz Hr].
    split; [exact Hnz |]. apply raises_inherited. exact Hr.
  - intros [Hnz Hin]. destruct o as [ci nz]. cbn [normalizeZh] in Hnz.
    subst nz. apply raises_inherited in Hin.
    exists (TypeError "input.split is not a function").
    apply equalsText_raises. exact Hin.
Qed.

Section TextRuleThrows.
Context {B : Builtins}.

Lemma some_eff_throws (f : jsstring -> completion bool) (l : list jsstring) :
  (exists e, fst (some_eff (fun c => lift (f c)) l) = Throw e)
  <-> exists pre c post e,
        l = pre ++ c :: post /\ f c = Throw e
        /\ forall x, In x pre -> f x = Normal false.
Proof.
  induction l as [| a l IH].
  - split; [intros [e H]; discriminate H |].
    intros (pre & c & post & e & H & _). destruct pre; discriminate H.
  - cbn [some_eff]. unfold lift, bind.
    destruct (f a) as [[|] | e0] eqn:Ea.
    + split; [intros [e H]; discriminate H |].
      intros (pre & c & post & e & H & Hc & Hpre).
      destruct pre as [| x pre]; injection H as <- _.
      * congruence.
      * specialize (Hpre a (or_introl eq_refl)). congruence.
    + destruct (some_eff _ l) as [r w] eqn:Er. cbn [fst] in *.
      rewrite IH. split.
      * intros (pre & c & post & e & -> & Hc & Hpre).
        exists (a :: pre), c, post, e. split; [reflexivity |].
        split; [exact Hc |]. intros x [<- | Hx]; [exact Ea | auto].
      * intros (pre & c & post & e & H & Hc & Hpre).
        destruct pre as [| x pre]; injection H as <- ->; [congruence |].
        exists pre, c, post, e. split; [reflexivity |].
        split; [exact Hc |]. intros y Hy. apply Hpre. right. exact Hy.
    + split; [| intros _; exists e0; reflexivity].
      intros _. exists [], a, l, e0. split; [reflexivity |].
      split; [exact Ea | intros x []].
Qed.

Lemma text_rule_some (value : jsstring) (answer : option jsstring)
    (accept : option (list jsstring)) (ci nz : option bool) :
  gradeFillin_switch (Str value) value (TextRule answer accept ci nz)
  = some_eff (fun c => lift (equalsText value c
                               {| caseInsensitive := Some (nullish ci true);
                                  normalizeZh := Some (nullish nz false) |}))
             (candidates answer accept).
Proof.
  cbn [gradeFillin_switch]. unfold candidates.
  assert (H1 : forall c, lift (equalsText value c
                               {| caseInsensitive := Some (nullish ci true);
                                  normalizeZh := Some (nullish nz false) |})
                         = some_eff (fun c => lift (equalsText value c
                               {| caseInsensitive := Some (nullish ci true);
                                  normalizeZh := Some (nullish nz false) |})) [c]).
  { intros c. cbn [some_eff]. unfold lift, bind, ret.
    destruct (equalsText _ _ _) as [[|] | e]; reflexivity. }
  destruct accept as [[| c cs] |]; try reflexivity;
    destruct answer as [[| c a] |]; try reflexivity; apply H1.
Qed.

End TextRuleThrows.

(** When grading throws.  [gradeFillin] throws on a text rule that asks
    for [normalizeZh], on a non-empty input, exactly when one of the
    candidates names an inherited member of [Object.prototype] and every
    candidate before it was compared and found different; it throws in no
    other case.  So a candidate such as "constructor" is harmless after a
    candidate that matches the input. *)
Theorem gradeFillin_throws_iff :
  forall (B : Builtins) (s : jsstring) (rule : FillinRule),
    s <> [] ->
    (exists e, fst (gradeFillin (Value (Str s)) rule) = Throw e)
    <-> exists answer accept ci pre c post,
          rule = TextRule answer accept ci (Some true)
          /\ candidates answer accept = pre ++ c :: post
          /\ In c inherited_names
          /\ passed_over s {| caseInsensitive := Some (nullish ci true);
                              normalizeZh := Some true |} pre.
Proof.
  intros B s rule Hs. rewrite gradeFillin_nonempty by exact Hs. split.
  - intros [e H].
    destruct rule as [answer accept ci nz | p | a t | a acc | m].
    + rewrite text_rule_some in H.
      destruct (proj1 (some_eff_throws _ _) (ex_intro _ e H))
        as (pre & c & post & e' & Hl & Hc & Hpre).
      destruct (equalsText_throw_raises _ _ _ _ Hc) as [Hnz Hin].
      apply raises_inherited in Hin.
      cbn [normalizeZh] in Hnz.
      assert (nz = Some true) as ->
        by (destruct nz as [[|] |]; cbn [nullish] in Hnz; congruence).
      exists answer, accept, ci, pre, c, post.
      split; [reflexivity |]. split; [exact Hl |]. split; [exact Hin |].
      exact Hpre.
    + cbn [gradeFillin_switch] in H. destruct (RegExp_new p); discriminate H.
    + cbn [gradeFillin_switch] in H.
      destruct (normalizeNumberInput s); discriminate H.
    + destruct (gradeFillin_returns (Value (Str s)) (DateRule a acc) eq_refl)
        as (b & w & Hb).
      rewrite gradeFillin_nonempty in Hb by exact Hs. rewrite Hb in H.
      discriminate H.
    + discriminate H.
  - intros (answer & accept & ci & pre & c & post & -> & Hl & Hin & Hpre).
    rewrite text_rule_some. apply some_eff_throws.
    exists pre, c, post, (TypeError "input.split is not a function").
    split; [exact Hl |]. split; [| exact Hpre].
    apply equalsText_raises, raises_inherited. exact Hin.
Qed.

Lemma gradeFillin_throws_iff_witness :
  exists e,
    fst (@gradeFillin small_builtins (Value (Str (js "x")))
           (TextRule None (Some [js "y"; js "constructor"]) None (Some true)))
    = Throw e.
Proof.
  refine (proj2 (gradeFillin_throws_iff small_builtins (js "x") _ _) _);
    [discriminate |].
  exists None, (Some [js "y"; js "constructor"]), None, [js "y"],
    (js "constructor"), [].
  split; [reflexivity |]. split; [reflexivity |].
  split; [vm_compute; tauto |].
  intros x [<- | []]. reflexivity.
Defined.

(** ** What the comparison compares *)

Section Tokenwise.
Variable f : jsstring -> jsstring.
Hypothesis f_tokens :
  forall ws, f (join (js " ") ws) = join (js " ") (map f ws).
Hypothesis f_nonempty : forall s, f s = [] -> s = [].
Hypothesis f_spaceless : forall s, spaceless s -> spaceless (f s).

Lemma pass_tokenwise (s : jsstring) :
  pass f s = join (js " ") (map synonym (map f (tokens (toHalfWidth s)))).
Proof.
  unfold pass. rewrite normalizeWhitespace_tokens, f_tokens.
  pose proof (tokens_words (toHalfWidth s)) as Hw.
  destruct (tokens (toHalfWidth s)) as [| t ts]; [reflexivity |].
  unfold unify. rewrite split_on_join; [reflexivity | | discriminate].
  apply Forall_map. eapply Forall_impl; [| exact Hw].
  intros w. apply f_word; assumption.
Qed.

Lemma synonym_word (w : jsstring) :
  word w -> not_inherited w -> word (synonym w).
Proof.
  intros Hw Hn. destruct (synonym_cases w Hn) as [[-> _] | ->];
    [exact Hw | exact utc_word].
Qed.

Lemma compared_words (T : list jsstring) :
  Forall word T -> Forall not_inherited (map f T) ->
  Forall word (map synonym (map f T)).
Proof.
  induction 1 as [| t T Ht _ IH]; intros Hn; [constructor |].
  cbn [map] in *. inversion Hn as [| ? ? Hn1 Hn2]; subst.
  constructor; [| apply IH; exact Hn2].
  apply synonym_word; [apply f_word; assumption | exact Hn1].
Qed.

Lemma pass_equal (a b : jsstring) :
  Forall not_inherited (map f (tokens (toHalfWidth a))) ->
  Forall not_inherited (map f (tokens (toHalfWidth b))) ->
  pass f a = pass f b
  <-> map synonym (map f (tokens (toHalfWidth a)))
      = map synonym (map f (tokens (toHalfWidth b))).
Proof.
  intros Ha Hb. rewrite !pass_tokenwise. split; [| intros ->; reflexivity].
  intros H. apply (f_equal tokens) in H.
  rewrite !tokens_join in H; [exact H | |];
    apply compared_words; try assumption; apply tokens_words.
Qed.

End Tokenwise.

(** What [equalsText] compares.  Without [normalizeZh], two strings are
    equal exactly when they have the same tokens after the synonym step:
    the white-space-free runs of their half-width forms, lower-cased unless
    the comparison is case-sensitive, each replaced by "utc+8" when it is a
    key of [zhSynonyms].  (For strings whose tokens name no member
    inherited from [Object.prototype], and a lower-casing that works token
    by token and yields neither an empty token nor white space.) *)
Theorem equalsText_tokenwise :
  forall (B : Builtins),
    LowerCaseLaws B ->
    forall (a b : jsstring) (ci nz : option bool),
      nz <> Some true ->
      Forall not_inherited (compared_tokens ci a) ->
      Forall not_inherited (compared_tokens ci b) ->
      (equalsText a b {| caseInsensitive := ci; normalizeZh := nz |} = Normal true
       <-> map synonym (compared_tokens ci a) = map synonym (compared_tokens ci b)).
Proof.
  intros B [L1 _ L3 L4 _ _] a b ci nz Hnz Ha Hb.
  rewrite equalsText_plain by exact Hnz.
  rewrite !normalizeText_pass. cbn [lowercase].
  unfold compared_tokens, case_step in *.
  assert (E : forall x y : jsstring, Normal (str_eqb x y) = Normal true <-> x = y).
  { intros x y. rewrite <- str_eqb_eq. split; [intros H; injection H as H; exact H |].
    intros ->. reflexivity. }
  rewrite E. destruct (nullish ci true).
  - apply pass_equal; assumption.
  - apply (pass_equal (fun s => s)); try assumption.
    + intros ws. rewrite map_id. reflexivity.
    + intros s H. exact H.
    + intros s H. exact H.
Qed.

Lemma equalsText_tokenwise_witness :
  @equalsText small_builtins (js " 北京时间　８点 ") (js "UTC+8 8点") default_equals
  = Normal true.
Proof.
  refine (proj2 (equalsText_tokenwise small_builtins small_laws
                   (js " 北京时间　８点 ") (js "UTC+8 8点") None None _ _ _) _).
  - discriminate.
  - repeat constructor.
  - repeat constructor.
  - reflexivity.
Defined.

(** ** The text rule *)

(** A text rule without [normalizeZh] accepts an input exactly when its
    normalized form is the normalized form of one of the candidates: the
    strings of [accept] when there are any, the answer otherwise (an absent
    or empty answer is no candidate).  The answer is not looked at when
    [accept] has an entry, and the rule neither throws nor warns. *)
Theorem gradeFillin_text_rule :
  forall (B : Builtins) (s : jsstring) (answer : option jsstring)
         (accept : option (list jsstring)) (ci nz : option bool),
    s <> [] -> nz <> Some true ->
    gradeFillin (Value (Str s)) (TextRule answer accept ci nz)
    = ret (existsb
             (fun c => str_eqb
                         (normalizeText s {| lowercase := Some (nullish ci true) |})
                         (normalizeText c {| lowercase := Some (nullish ci true) |}))
             (candidates answer accept)).
Proof.
  intros B s answer accept ci nz Hs Hnz.
  rewrite gradeFillin_nonempty by exact Hs. cbn [gradeFillin_switch].
  assert (Heq : forall c,
             equalsText s c {| caseInsensitive := Some (nullish ci true);
                               normalizeZh := Some (nullish nz false) |}
             = Normal (str_eqb
                         (normalizeText s {| lowercase := Some (nullish ci true) |})
                         (normalizeText c {| lowercase := Some (nullish ci true) |}))).
  { intros c. rewrite equalsText_plain; [reflexivity |].
    destruct nz as [[|] |]; [congruence | discriminate | discriminate]. }
  unfold candidates.
  destruct accept as [[| c cs] |].
  - destruct answer as [[| c a] |]; try reflexivity.
    rewrite Heq. cbn [existsb]. rewrite orb_false_r. reflexivity.
  - apply some_eff_lift_normal. intros a _. apply Heq.
  - destruct answer as [[| c a] |]; try reflexivity.
    rewrite Heq. cbn [existsb]. rewrite orb_false_r. reflexivity.
Qed.

Lemma gradeFillin_text_rule_witness :
  @gradeFillin small_builtins (Value (Str (js "Ｓpring  Festival")))
     (TextRule (Some (js "new year")) (Some [js "chunjie"; js "spring festival"])
               None None)
  = ret true.
Proof.
  refine (gradeFillin_text_rule small_builtins (js "Ｓpring  Festival")
            (Some (js "new year")) (Some [js "chunjie"; js "spring festival"])
            None None _ _); discriminate.
Defined.

(** ** Spellings of a date *)

Lemma parseInt10_number (ds : jsstring) :
  ds <> [] -> digits ds -> parseInt10 ds = Some (decimal_number ds).
Proof.
  intros Hne H. destruct ds as [| c ds]; [congruence |].
  inversion H as [| ? ? Hc Hds]; subst.
  pose proof (isDigit_range c Hc) as Hr.
  unfold parseInt10. cbn [trimStart]. rewrite (digit_not_space c Hc).
  destruct (Z.eqb_spec c 0x2B); [lia |].
  destruct (Z.eqb_spec c 0x2D); [lia |].
  rewrite (take_digits_all (c :: ds) H). reflexivity.
Qed.

Lemma yearSeparator_cases (c : Z) :
  yearSeparator c = true -> c = 0x2D \/ c = 0x2F \/ c = 0x5E74 \/ c = 0x2E.
Proof.
  unfold yearSeparator. intros H.
  repeat (apply orb_true_iff in H; destruct H as [H | H]);
    apply Z.eqb_eq in H; tauto.
Qed.

Lemma monthSeparator_cases (c : Z) :
  monthSeparator c = true -> c = 0x2D \/ c = 0x2F \/ c = 0x6708 \/ c = 0x2E.
Proof.
  unfold monthSeparator. intros H.
  repeat (apply orb_true_iff in H; destruct H as [H | H]);
    apply Z.eqb_eq in H; tauto.
Qed.

Lemma separator_plain (c : Z) :
  yearSeparator c = true \/ monthSeparator c = true ->
  isDigit c = false /\ isWhiteSpace c = false /\ width_fixed c.
Proof.
  intros [H | H];
    [apply yearSeparator_cases in H | apply monthSeparator_cases in H];
    destruct H as [-> | [-> | [-> | ->]]]; repeat split.
Qed.

Lemma digits_plain (ds : jsstring) :
  digits ds -> spaceless ds /\ Forall width_fixed ds.
Proof.
  induction 1 as [| c ds Hc _ [IH1 IH2]]; [split; constructor |].
  split; constructor; try assumption.
  - apply digit_not_space. exact Hc.
  - apply width_fixed_low. apply isDigit_range in Hc. lia.
Qed.

Lemma digits_app (a b : jsstring) : digits a -> digits b -> digits (a ++ b).
Proof. intros Ha Hb. apply Forall_app. split; assumption. Qed.

(** The pattern at the head of a spelled date: the three groups. *)
Lemma date_match_at_spelled (Y M D : jsstring) (c1 c2 : Z) (rest : jsstring) :
  date_spelling Y M D c1 c2 rest ->
  date_match_at (spelled Y M D c1 c2 rest) = Some (Y, M, D).
Proof.
  intros [[HY LY] H1 [HM LM] H2 [HD LD] (_ & _ & Ht)].
  destruct Y as [| y1 [| y2 [| y3 [| y4 [| ? ?]]]]]; try discriminate LY.
  inversion HY as [| ? ? Hy1 HY1]; subst.
  inversion HY1 as [| ? ? Hy2 HY2]; subst.
  inversion HY2 as [| ? ? Hy3 HY3]; subst.
  inversion HY3 as [| ? ? Hy4 _]; subst.
  unfold spelled, date_match_at, digits4. cbn [app].
  rewrite Hy1, Hy2, Hy3, Hy4. cbn [andb]. rewrite H1.
  destruct (separator_plain c2 (or_intror H2)) as (Hc2 & _ & _).
  assert (Hday : forall y m : jsstring,
             first_match (digits_1_2 (D ++ rest))
               (fun pat : jsstring * jsstring =>
                  let '(day, _) := pat in Some (y, m, day))
             = Some (y, m, D)).
  { intros y m. destruct LD as [LD | LD].
    - destruct D as [| d1 [| ? ?]]; try discriminate LD.
      inversion HD as [| ? ? Hd1 _]; subst.
      cbn [app digits_1_2]. rewrite Hd1.
      specialize (Ht eq_refl). destruct rest as [| x rest]; [reflexivity |].
      rewrite Ht. reflexivity.
    - destruct D as [| d1 [| d2 [| ? ?]]]; try discriminate LD.
      inversion HD as [| ? ? Hd1 HD1]; subst.
      inversion HD1 as [| ? ? Hd2 _]; subst.
      cbn [app digits_1_2]. rewrite Hd1, Hd2. reflexivity. }
  destruct LM as [LM | LM].
  - destruct M as [| m1 [| ? ?]]; try discriminate LM.
    inversion HM as [| ? ? Hm1 _]; subst.
    cbn [app digits_1_2]. rewrite Hm1, Hc2. cbn [first_match].
    rewrite H2, Hday. reflexivity.
  - destruct M as [| m1 [| m2 [| ? ?]]]; try discriminate LM.
    inversion HM as [| ? ? Hm1 HM1]; subst.
    inversion HM1 as [| ? ? Hm2 _]; subst.
    cbn [app digits_1_2]. rewrite Hm1, Hm2. cbn [first_match].
    rewrite H2, Hday. reflexivity.
Qed.

Lemma date_match_head (s : jsstring) (m : jsstring * jsstring * jsstring) :
  date_match_at s = Some m -> date_match s = Some m.
Proof. intros H. destruct s; cbn [date_match]; rewrite H; reflexivity. Qed.

(** No key of the two tables starts with a digit. *)
Lemma assoc_head {V : Type} (c : Z) (r : jsstring) (l : list (jsstring * V)) :
  Forall (fun kv => match fst kv with k :: _ => k <> c | [] => True end) l ->
  assoc (c :: r) l = None.
Proof.
  induction 1 as [| [k v] l Hk _ IH]; [reflexivity |].
  cbn [assoc]. destruct k as [| k0 k]; [exact IH |].
  cbn [str_eqb]. cbn [fst] in Hk.
  destruct (Z.eqb_spec c k0); [congruence | exact IH].
Qed.

Lemma digit_head_no_synonym (c : Z) (r : jsstring) :
  isDigit c = true -> synonym (c :: r) = c :: r.
Proof.
  intros Hc. apply isDigit_range in Hc. unfold synonym, object_get.
  rewrite (assoc_head c r zhSynonyms)
    by (repeat constructor; vm_compute; lia).
  rewrite (assoc_head c r ObjectPrototype)
    by (repeat constructor; vm_compute; lia).
  reflexivity.
Qed.

(** A word of half-width units that starts with a digit is left as it is
    when the case is kept. *)
Lemma normalizeText_keep_digit_word {B : Builtins} (c : Z) (r : jsstring) :
  isDigit c = true -> spaceless (c :: r) -> Forall width_fixed (c :: r) ->
  normalizeText (c :: r) {| lowercase := Some false |} = c :: r.
Proof.
  intros Hc Hs Hw. rewrite normalizeText_keep.
  rewrite toHalfWidth_fixed by exact Hw.
  assert (Hword : word (c :: r)) by (split; [discriminate | exact Hs]).
  rewrite normalizeWhitespace_tokens, tokens_word by exact Hword.
  cbn [join]. unfold unify. rewrite split_on_word by exact Hs.
  cbn [map join]. apply digit_head_no_synonym. exact Hc.
Qed.

Lemma spelled_plain (Y M D : jsstring) (c1 c2 : Z) (rest : jsstring) :
  date_spelling Y M D c1 c2 rest ->
  exists c r, spelled Y M D c1 c2 rest = c :: r
              /\ isDigit c = true /\ spaceless (c :: r)
              /\ Forall width_fixed (c :: r).
Proof.
  intros [[HY LY] H1 [HM LM] H2 [HD LD] (Hs & Hw & _)].
  destruct (digits_plain Y HY) as [SY WY].
  destruct (digits_plain M HM) as [SM WM].
  destruct (digits_plain D HD) as [SD WD].
  destruct (separator_plain c1 (or_introl H1)) as (_ & S1 & W1).
  destruct (separator_plain c2 (or_intror H2)) as (_ & S2 & W2).
  assert (Hsp : spaceless (spelled Y M D c1 c2 rest)).
  { unfold spelled, spaceless.
    repeat first [apply Forall_app; split | apply Forall_cons]; assumption. }
  assert (Hwf : Forall width_fixed (spelled Y M D c1 c2 rest)).
  { unfold spelled.
    repeat first [apply Forall_app; split | apply Forall_cons]; assumption. }
  destruct Y as [| y1 Y']; [discriminate LY |].
  inversion HY as [| ? ? Hy1 _]; subst.
  exists y1, (Y' ++ c1 :: M ++ c2 :: D ++ rest).
  split; [reflexivity |]. split; [exact Hy1 |]. split; assumption.
Qed.

Lemma parseDateString_reads {B : Builtins} (Y M D : jsstring) (c1 c2 : Z)
    (rest : jsstring) :
  date_spelling Y M D c1 c2 rest ->
  parseDateString (spelled Y M D c1 c2 rest)
  = Some (canonical (decimal_number Y) (decimal_number M) (decimal_number D)).
Proof.
  intros H.
  destruct (spelled_plain Y M D c1 c2 rest H) as (c & r & E & Hc & Hs & Hw).
  unfold parseDateString. rewrite E.
  rewrite (normalizeText_keep_digit_word c r Hc Hs Hw). rewrite <- E.
  rewrite (date_match_head _ _ (date_match_at_spelled Y M D c1 c2 rest H)).
  destruct H as [[HY LY] _ [HM LM] _ [HD LD] _].
  rewrite !parseInt10_number; try assumption;
    try (intros ->; cbn in *; lia).
  reflexivity.
Qed.

Lemma tokens_spelled (Y M D : jsstring) (c1 c2 : Z) (rest : jsstring) :
  date_spelling Y M D c1 c2 rest ->
  tokens (toHalfWidth (spelled Y M D c1 c2 rest)) = [spelled Y M D c1 c2 rest].
Proof.
  intros H. destruct (spelled_plain Y M D c1 c2 rest H)
    as (c & r & E & _ & Hs & Hw).
  rewrite E, toHalfWidth_fixed by exact Hw.
  apply tokens_word. split; [discriminate | exact Hs].
Qed.

(** Every spelling of a date is read: with any of the separators
    [- / .] or the characters for year and month, with one or two digits
    for month and day, whatever follows the day, with white space around
    it and in full-width digits as well (the input need only have the
    spelled date as the one token of its half-width form).  The result is
    the year as a number, then month and day on two digits. *)
Theorem parseDateString_spelled :
  forall (B : Builtins) (input Y M D : jsstring) (c1 c2 : Z) (rest : jsstring),
    date_spelling Y M D c1 c2 rest ->
    tokens (toHalfWidth input) = [spelled Y M D c1 c2 rest] ->
    parseDateString input
    = Some (canonical (decimal_number Y) (decimal_number M) (decimal_number D)).
Proof.
  intros B input Y M D c1 c2 rest H Ht.
  rewrite (parseDateString_tokens input (spelled Y M D c1 c2 rest)).
  - apply parseDateString_reads. exact H.
  - rewrite Ht. symmetry. apply tokens_spelled. exact H.
Qed.

Lemma parseDateString_spelled_witness :
  @parseDateString small_builtins (js " ２０３４年２月１９日 ")
  = Some (canonical 2034 2 19).
Proof.
  refine (parseDateString_spelled small_builtins (js " ２０３４年２月１９日 ")
            (js "2034") (js "2") (js "19") 0x5E74 0x6708 (js "日") _ _).
  - constructor.
    + split; [repeat constructor | reflexivity].
    + reflexivity.
    + split; [repeat constructor | left; reflexivity].
    + reflexivity.
    + split; [repeat constructor | right; reflexivity].
    + split; [repeat constructor |].
      split; [repeat constructor | intros H; discriminate H].
  - vm_compute. reflexivity.
Defined.

(** The texts of the numbers of a date. *)
Lemma year_text (y : Z) :
  1000 <= y < 10000 ->
  digits (decimal_text y) /\ List.length (decimal_text y) = 4%nat
  /\ decimal_number (decimal_text y) = y.
Proof.
  intros H.
  assert (H' : 0 <= y < Z.of_nat (Z.to_nat 10000)) by lia.
  apply (below_by_cases
           (fun z => if 1000 <=? z
                     then forallb isDigit (decimal_text z)
                          && Nat.eqb (List.length (decimal_text z)) 4
                          && (decimal_number (decimal_text z) =? z)
                     else true)) in H';
    [| vm_compute; reflexivity].
  destruct (Z.leb_spec 1000 y); [| lia].
  apply andb_true_iff in H'. destruct H' as [H1 H3].
  apply andb_true_iff in H1. destruct H1 as [H1 H2].
  split; [| split].
  - apply Forall_forall. rewrite forallb_forall in H1. exact H1.
  - apply Nat.eqb_eq. exact H2.
  - apply Z.eqb_eq. exact H3.
Qed.

Lemma short_year_text (y : Z) :
  0 <= y < 1000 ->
  digits (decimal_text y)
  /\ (1 <= List.length (decimal_text y) <= 3)%nat.
Proof.
  intros H.
  assert (H' : 0 <= y < Z.of_nat 1000) by lia.
  apply (below_by_cases
           (fun z => forallb isDigit (decimal_text z)
                     && Nat.leb 1 (List.length (decimal_text z))
                     && Nat.leb (List.length (decimal_text z)) 3)) in H';
    [| vm_compute; reflexivity].
  apply andb_true_iff in H'. destruct H' as [H1 H3].
  apply andb_true_iff in H1. destruct H1 as [H1 H2].
  apply Nat.leb_le in H2, H3.
  split; [| lia].
  apply Forall_forall. rewrite forallb_forall in H1. exact H1.
Qed.

Lemma pad_text (m : Z) :
  0 <= m < 100 ->
  digits (pad m) /\ List.length (pad m) = 2%nat /\ decimal_number (pad m) = m.
Proof.
  intros H.
  assert (H' : 0 <= m < Z.of_nat 100) by lia.
  apply (below_by_cases
           (fun z => forallb isDigit (pad z)
                     && Nat.eqb (List.length (pad z)) 2
                     && (decimal_number (pad z) =? z))) in H';
    [| vm_compute; reflexivity].
  apply andb_true_iff in H'. destruct H' as [H1 H3].
  apply andb_true_iff in H1. destruct H1 as [H1 H2].
  split; [| split].
  - apply Forall_forall. rewrite forallb_forall in H1. exact H1.
  - apply Nat.eqb_eq. exact H2.
  - apply Z.eqb_eq. exact H3.
Qed.

Lemma canonical_spelled (y m d : Z) :
  canonical y m d = spelled (decimal_text y) (pad m) (pad d) 0x2D 0x2D [].
Proof. unfold canonical, spelled. rewrite app_nil_r. reflexivity. Qed.

Lemma canonical_spelling (y m d : Z) :
  1000 <= y < 10000 -> 0 <= m < 100 -> 0 <= d < 100 ->
  date_spelling (decimal_text y) (pad m) (pad d) 0x2D 0x2D [].
Proof.
  intros Hy Hm Hd.
  destruct (year_text y Hy) as (Y1 & Y2 & _).
  destruct (pad_text m Hm) as (M1 & M2 & _).
  destruct (pad_text d Hd) as (D1 & D2 & _).
  constructor.
  - split; assumption.
  - reflexivity.
  - split; [assumption | right; assumption].
  - reflexivity.
  - split; [assumption | right; assumption].
  - split; [constructor |]. split; [constructor |]. intros _. exact I.
Qed.

Lemma short_year_no_match (Y a b c e : Z) (Y' : jsstring) :
  digits (Y :: Y') -> (List.length (Y :: Y') <= 3)%nat ->
  isDigit a = true -> isDigit b = true -> isDigit c = true -> isDigit e = true ->
  date_match ((Y :: Y') ++ 0x2D :: [a; b] ++ 0x2D :: [c; e]) = None.
Proof.
  intros HY LY Ha Hb Hc He.
  assert (Hdash : isDigit 0x2D = false) by reflexivity.
  inversion HY as [| ? ? H1 HY1]; subst.
  destruct Y' as [| y2 [| y3 [| ? ?]]]; [| | | cbn in LY; lia].
  - cbn [app date_match]; unfold date_match_at, digits4.
    rewrite ?H1, ?Ha, ?Hb, ?Hc, ?He. reflexivity.
  - inversion HY1 as [| ? ? H2 _]; subst.
    cbn [app date_match]; unfold date_match_at, digits4.
    rewrite ?H1, ?H2, ?Ha, ?Hb, ?Hc, ?He. reflexivity.
  - inversion HY1 as [| ? ? H2 HY2]; subst.
    inversion HY2 as [| ? ? H3 _]; subst.
    cbn [app date_match]; unfold date_match_at, digits4.
    rewrite ?H1, ?H2, ?H3, ?Ha, ?Hb, ?Hc, ?He. reflexivity.
Qed.

Lemma parseDateString_short_year {B : Builtins} (y m d : Z) :
  0 <= y < 1000 -> 0 <= m < 100 -> 0 <= d < 100 ->
  parseDateString (canonical y m d) = None.
Proof.
  intros Hy Hm Hd.
  destruct (short_year_text y Hy) as (Y1 & Y2).
  destruct (pad_text m Hm) as (M1 & M2 & _).
  destruct (pad_text d Hd) as (D1 & D2 & _).
  unfold canonical. change (js "-") with [0x2D].
  assert (HS : spaceless (decimal_text y ++ [0x2D] ++ pad m ++ [0x2D] ++ pad d)).
  { unfold spaceless.
    repeat (apply Forall_app; split);
      first [ apply digits_plain; assumption | repeat constructor ]. }
  assert (HW : Forall width_fixed
                 (decimal_text y ++ [0x2D] ++ pad m ++ [0x2D] ++ pad d)).
  { repeat (apply Forall_app; split);
      first [ apply digits_plain; assumption | repeat constructor ]. }
  destruct (decimal_text y) as [| Y Y']; [cbn in Y2; lia |].
  destruct (pad m) as [| a [| b [| ? ?]]]; try discriminate M2.
  destruct (pad d) as [| c [| e [| ? ?]]]; try discriminate D2.
  inversion M1 as [| ? ? Ha M1']; subst. inversion M1' as [| ? ? Hb _]; subst.
  inversion D1 as [| ? ? Hc D1']; subst. inversion D1' as [| ? ? He _]; subst.
  inversion Y1 as [| ? ? HY HY']; subst.
  unfold parseDateString.
  change ((Y :: Y') ++ [0x2D] ++ [a; b] ++ [0x2D] ++ [c; e])
    with (Y :: (Y' ++ 0x2D :: [a; b] ++ 0x2D :: [c; e])) in *.
  rewrite (normalizeText_keep_digit_word Y _ HY HS HW).
  change (Y :: (Y' ++ 0x2D :: [a; b] ++ 0x2D :: [c; e]))
    with ((Y :: Y') ++ 0x2D :: [a; b] ++ 0x2D :: [c; e]).
  rewrite short_year_no_match; try assumption; [reflexivity | lia].
Qed.

(** A result of [parseDateString] is read again as itself when its year
    has four digits, and is not read at all when the year is below 1000:
    the pattern asks for four digits and the result does not pad the
    year. *)
Theorem parseDateString_canonical :
  forall (B : Builtins) (y m d : Z),
    0 <= y < 10000 -> 0 <= m < 100 -> 0 <= d < 100 ->
    parseDateString (canonical y m d)
    = if 1000 <=? y then Some (canonical y m d) else None.
Proof.
  intros B y m d Hy Hm Hd. destruct (Z.leb_spec 1000 y) as [H | H].
  - rewrite canonical_spelled at 1.
    rewrite parseDateString_reads by (apply canonical_spelling; lia).
    destruct (year_text y ltac:(lia)) as (_ & _ & ->).
    destruct (pad_text m Hm) as (_ & _ & ->).
    destruct (pad_text d Hd) as (_ & _ & ->). reflexivity.
  - apply parseDateString_short_year; lia.
Qed.

Lemma parseDateString_canonical_witness :
  @parseDateString small_builtins (canonical 34 2 19) = None.
Proof.
  refine (parseDateString_canonical small_builtins 34 2 19 _ _ _); lia.
Defined.

(** ** The date rule *)



Section DateRule.
Context {B : Builtins}.




End DateRule.











(** ** What the summary reports *)

Section SummaryLog.
Context {B : Builtins}.
Variable answers : AnswerData.
Variable userMcq : jsstring -> nullable float.
Variable userFillins : jsstring -> nullable FillinInput.








End SummaryLog.






(** ** Unanswered questions *)



Lemma eqb_nan (n : float) : PrimFloat.eqb n PrimFloat.nan = false.
Proof.
  rewrite eqb_spec. change (Prim2SF PrimFloat.nan) with S754_nan.
  unfold SFeqb, SFcompare. destruct (Prim2SF n) as [[|] | [|] | | [|] m e];
    reflexivity.
Qed.

(** What [gradeMcq] never accepts: no choice at all ([null] or
    [undefined]), and any choice for a question that the answer map has no
    entry for, since [Number(undefined)] is NaN and NaN equals nothing, not
    even a choice that is NaN itself. *)
Theorem gradeMcq_never_correct :
  (forall answerIdx : option float,
      gradeMcq Null answerIdx = false /\ gradeMcq Undefined answerIdx = false)
  /\ (forall userChoiceIdx : nullable float, gradeMcq userChoiceIdx None = false)
  /\ (forall userChoiceIdx : nullable float,
         gradeMcq userChoiceIdx (Some PrimFloat.nan) = false)
  /\ gradeMcq (Value PrimFloat.nan) None = false.
Proof.
  split; [intros a; split; reflexivity |].
  split; [| split; [| reflexivity]];
    intros [| | n]; try reflexivity; apply eqb_nan.
Qed.



(** ** What the summary reads *)






(** ** The mail template *)

Lemma percent_safe (octet : Z) :
  0 <= octet < 256 -> forallb uri_char (percent octet) = true.
Proof.
  intros H.
  assert (H' : 0 <= octet < Z.of_nat 256) by lia.
  apply (below_by_cases (fun z => forallb uri_char (percent z))) in H';
    [exact H' | vm_compute; reflexivity].
Qed.

Lemma utf8_octets_range (cp : Z) :
  0 <= cp < 0x110000 -> Forall (fun o => 0 <= o < 256) (utf8_octets cp).
Proof.
  intros H. unfold utf8_octets.
  destruct (Z.ltb_spec cp 0x80); [repeat constructor; lia |].
  destruct (Z.ltb_spec cp 0x800);
    [repeat constructor; Z.to_euclidean_division_equations; lia |].
  destruct (Z.ltb_spec cp 0x10000);
    repeat constructor; Z.to_euclidean_division_equations; lia.
Qed.

Lemma escape_safe (cp : Z) :
  0 <= cp < 0x110000 ->
  forallb uri_char (flat_map percent (utf8_octets cp)) = true.
Proof.
  intros H. apply utf8_octets_range in H.
  induction H as [| o l Ho _ IH]; [reflexivity |].
  cbn [flat_map]. rewrite forallb_app, IH, percent_safe by exact Ho.
  reflexivity.
Qed.

Lemma code_unit_range (c : Z) : code_unit c = true <-> 0 <= c < 0x10000.
Proof. unfold code_unit. rewrite andb_true_iff, Z.leb_le, Z.ltb_lt. tauto. Qed.

Lemma surrogate_pair_range (c d : Z) :
  isLeadingSurrogate c = true -> isTrailingSurrogate d = true ->
  0 <= surrogate_pair c d < 0x110000.
Proof.
  unfold isLeadingSurrogate, isTrailingSurrogate, surrogate_pair.
  rewrite !andb_true_iff, !Z.leb_le. lia.
Qed.

(** What comes out of [encodeURIComponent] holds unreserved characters
    and percent signs only. *)
Lemma encodeURIComponent_safe (s r : jsstring) :
  forallb code_unit s = true -> encodeURIComponent s = Some r ->
  forallb uri_char r = true.
Proof.
  remember (List.length s) as n eqn:En.
  assert (Hn : (List.length s <= n)%nat) by lia. clear En.
  revert s r Hn. induction n as [| n IH]; intros s r Hn Hs H.
  - destruct s; [| cbn in Hn; lia]. injection H as <-. reflexivity.
  - destruct s as [| c s]; [injection H as <-; reflexivity |].
    cbn [forallb] in Hs. apply andb_true_iff in Hs. destruct Hs as [Hc Hs].
    cbn [List.length] in Hn. cbn [encodeURIComponent] in H.
    destruct (unreserved c) eqn:Eu.
    { destruct (encodeURIComponent s) as [r0 |] eqn:E0; [| discriminate].
      injection H as <-. cbn [forallb]. unfold uri_char at 1. rewrite Eu.
      apply (IH s r0); [lia | exact Hs | exact E0]. }
    destruct (isTrailingSurrogate c) eqn:Et; [discriminate |].
    destruct (isLeadingSurrogate c) eqn:El.
    + destruct s as [| d s']; [discriminate |].
      destruct (isTrailingSurrogate d) eqn:Ed; [| discriminate].
      destruct (encodeURIComponent s') as [r0 |] eqn:E0; [| discriminate].
      injection H as <-. rewrite forallb_app.
      rewrite escape_safe by (apply surrogate_pair_range; assumption).
      cbn [forallb] in Hs. apply andb_true_iff in Hs. destruct Hs as [_ Hs].
      cbn [List.length] in Hn.
      apply (IH s' r0); [lia | exact Hs | exact E0].
    + destruct (encodeURIComponent s) as [r0 |] eqn:E0; [| discriminate].
      injection H as <-. rewrite forallb_app.
      apply code_unit_range in Hc.
      rewrite escape_safe by lia.
      apply (IH s r0); [lia | exact Hs | exact E0].
Qed.

(** It throws on every string that ends with a leading surrogate. *)
Lemma encodeURIComponent_cut (s : jsstring) (c : Z) :
  isLeadingSurrogate c = true -> encodeURIComponent (s ++ [c]) = None.
Proof.
  intros Hc.
  assert (Hu : unreserved c = false).
  { unfold isLeadingSurrogate in Hc. apply andb_true_iff in Hc.
    destruct Hc as [H1 H2]. apply Z.leb_le in H1, H2.
    unfold unreserved, isDigit. solve_tests. }
  assert (Ht : isTrailingSurrogate c = false).
  { unfold isLeadingSurrogate in Hc. apply andb_true_iff in Hc.
    destruct Hc as [H1 H2]. apply Z.leb_le in H1, H2.
    unfold isTrailingSurrogate. solve_tests. }
  remember (List.length s) as n eqn:En.
  assert (Hn : (List.length s <= n)%nat) by lia. clear En.
  revert s Hn. induction n as [| n IH]; intros s Hn.
  - destruct s; [| cbn in Hn; lia]. cbn. rewrite Hu, Ht, Hc. reflexivity.
  - destruct s as [| x s]; [cbn; rewrite Hu, Ht, Hc; reflexivity |].
    cbn [List.length] in Hn. cbn [app encodeURIComponent].
    rewrite (IH s) by lia.
    destruct (unreserved x); [reflexivity |].
    destruct (isTrailingSurrogate x); [reflexivity |].
    destruct (isLeadingSurrogate x); [| reflexivity].
    destruct s as [| d s']; cbn [app].
    + rewrite Ht. reflexivity.
    + destruct (isTrailingSurrogate d); [| reflexivity].
      cbn [List.length] in Hn. rewrite (IH s') by lia. reflexivity.
Qed.

Lemma byte_values_range (s : string) :
  Forall (fun c => 0 <= c < 256) (byte_values s).
Proof.
  unfold byte_values. apply Forall_map, Forall_forall. intros a _.
  pose proof (nat_ascii_bounded a). lia.
Qed.

Lemma Forall_firstn_skipn {A : Type} (P : A -> Prop) (n : nat) (l : list A) :
  Forall P l -> Forall P (firstn n l) /\ Forall P (skipn n l).
Proof.
  intros H. rewrite <- (firstn_skipn n l) in H. apply Forall_app in H. exact H.
Qed.

Lemma literal_range (t : jsstring) :
  forallb (fun c => (0 <=? c) && (c <? 256)) t = true ->
  Forall (fun c => 0 <= c < 256) t.
Proof.
  intros H. apply Forall_forall. intros c Hc.
  rewrite forallb_forall in H. specialize (H c Hc).
  apply andb_true_iff in H. destruct H as [H1 H2].
  apply Z.leb_le in H1. apply Z.ltb_lt in H2. lia.
Qed.

Ltac bytes :=
  repeat first [ assumption
               | apply literal_range; reflexivity
               | apply byte_values_range
               | apply Forall_app; split ].

Lemma finite_text_range (x : float) (m : positive) (e : Z) :
  Forall (fun c => 0 <= c < 256) (finite_text x m e).
Proof.
  unfold finite_text.
  destruct (shortest_digits _ _ _ _ _ _) as [s0 p0].
  destruct (strip_trailing_zeros _ _ _) as [s p]. cbv zeta.
  pose proof (byte_values_range (NilZero.string_of_int (Z.to_int s))) as Hd.
  fold (decimal_text s) in Hd.
  assert (Hz : forall k, Forall (fun c => 0 <= c < 256) (zeros k)).
  { intros k. unfold zeros. apply Forall_forall. intros c Hc.
    apply repeat_spec in Hc. subst c. lia. }
  destruct (_ && _); [bytes; apply Hz |].
  destruct (_ && _).
  { destruct (Forall_firstn_skipn _ (Z.to_nat (p + Z.of_nat (List.length (decimal_text s))))
                _ Hd) as [H1 H2].
    bytes. }
  destruct (_ && _); [bytes; apply Hz |].
  assert (He : Forall (fun c => 0 <= c < 256)
                 ((if p + Z.of_nat (List.length (decimal_text s)) - 1 <? 0
                   then js "-" else js "+")
                  ++ decimal_text
                       (Z.abs (p + Z.of_nat (List.length (decimal_text s)) - 1)))).
  { apply Forall_app. split.
    - destruct (_ <? 0); apply literal_range; reflexivity.
    - apply byte_values_range. }
  destruct (decimal_text s) as [| c [| c' rest]]; [constructor | |].
  - inversion Hd as [| ? ? Hc _]; subst.
    bytes; try (constructor; [exact Hc | constructor]).
  - inversion Hd as [| ? ? Hc Hrest]; subst.
    bytes; try (constructor; [exact Hc | constructor]).
Qed.

Lemma Number_toString_range (x : float) :
  Forall (fun c => 0 <= c < 256) (Number_toString x).
Proof.
  unfold Number_toString.
  destruct (Prim2SF x) as [[|] | [|] | | [|] m e];
    bytes; try apply finite_text_range; try constructor.
Qed.

Section Units.
Variable p : Z -> bool.
Hypothesis p_scalar : forall c, scalar_unit c = true -> p c = true.

Lemma p_literal (s : jsstring) : forallb scalar_unit s = true -> forallb p s = true.
Proof.
  intros H. apply forallb_forall. intros c Hc. apply p_scalar.
  rewrite forallb_forall in H. apply H. exact Hc.
Qed.

Lemma p_bytes (s : jsstring) :
  Forall (fun c => 0 <= c < 256) s -> forallb p s = true.
Proof.
  intros H. apply forallb_forall. intros c Hc. apply p_scalar.
  rewrite Forall_forall in H. specialize (H c Hc).
  unfold scalar_unit, code_unit, isLeadingSurrogate, isTrailingSurrogate.
  solve_tests.
Qed.

Lemma p_or_text (s d : jsstring) :
  forallb p s = true -> forallb p d = true -> forallb p (or_text s d) = true.
Proof. intros Hs Hd. unfold or_text. destruct (truthy s); assumption. Qed.

Lemma p_join (sep : jsstring) (l : list jsstring) :
  forallb p sep = true -> forallb (forallb p) l = true ->
  forallb p (join sep l) = true.
Proof.
  intros Hsep. induction l as [| a l IH]; intros H; [reflexivity |].
  cbn [forallb] in H. apply andb_true_iff in H. destruct H as [Ha Hl].
  destruct l as [| b l]; [exact Ha |].
  change (join sep (a :: b :: l)) with (a ++ sep ++ join sep (b :: l)).
  rewrite !forallb_app, Ha, Hsep, IH by exact Hl. reflexivity.
Qed.

Lemma p_split_on (sep : Z) (s : jsstring) :
  forallb p s = true -> forallb (forallb p) (split_on sep s) = true.
Proof.
  induction s as [| c s IH]; intros H; [reflexivity |].
  cbn [forallb] in H. apply andb_true_iff in H. destruct H as [Hc Hs].
  specialize (IH Hs). cbn [split_on].
  destruct (c =? sep); [exact IH |].
  destruct (split_on sep s) as [| w ws]; cbn [forallb] in *.
  - rewrite Hc. reflexivity.
  - rewrite Hc. exact IH.
Qed.

Lemma p_first_piece (sep : Z) (s : jsstring) :
  forallb p s = true -> forallb p (nth 0 (split_on sep s) []) = true.
Proof.
  intros H. apply (p_split_on sep) in H.
  destruct (split_on sep s) as [| w ws]; [reflexivity |].
  cbn [forallb nth] in *. apply andb_true_iff in H. tauto.
Qed.

Lemma p_section_line (title : jsstring) (s : SectionSummary) :
  forallb scalar_unit title = true ->
  forallb (forallb p) (incorrectIds s) = true ->
  forallb p (section_line title s) = true.
Proof.
  intros Ht Hids. unfold section_line.
  rewrite !forallb_app.
  rewrite (p_literal title Ht).
  rewrite !(p_bytes _ (Number_toString_range _)).
  rewrite p_or_text;
    [| apply p_join; [apply p_literal; reflexivity | exact Hids]
     | apply p_literal; reflexivity].
  rewrite !p_literal by reflexivity. reflexivity.
Qed.

Lemma template_units_text (name : jsstring) (summary : ObjectiveSummary)
    (essayContent timestamp : jsstring) :
  template_units p name summary essayContent timestamp = true ->
  forallb p (essay_subject name timestamp) = true
  /\ forallb p (join [0x0A]
                  (essay_bodyLines name summary essayContent timestamp)) = true.
Proof.
  unfold template_units. intros H.
  apply andb_true_iff in H. destruct H as [H H5].
  apply andb_true_iff in H. destruct H as [H H4].
  apply andb_true_iff in H. destruct H as [H H3].
  apply andb_true_iff in H. destruct H as [H1 H2].
  assert (Hname : forallb p (or_text name (js "未署名")) = true)
    by (apply p_or_text; [exact H1 | apply p_literal; reflexivity]).
  split.
  - unfold essay_subject. rewrite !forallb_app, Hname.
    rewrite (p_first_piece _ _ H3).
    rewrite !p_literal by reflexivity. reflexivity.
  - apply p_join; [apply p_literal; reflexivity |].
    unfold essay_bodyLines. cbn [forallb].
    rewrite !forallb_app, Hname, H3.
    rewrite !(p_bytes _ (Number_toString_range _)).
    rewrite !p_section_line by (try reflexivity; assumption).
    rewrite p_or_text by (try exact H2; apply p_literal; reflexivity).
    rewrite !p_literal by reflexivity. reflexivity.
Qed.

End Units.

Lemma split_on_absent (sep : Z) (w : jsstring) :
  forallb (fun c => negb (c =? sep)) w = true -> split_on sep w = [w].
Proof.
  induction w as [| c w IH]; intros H; [reflexivity |].
  cbn [forallb] in H. apply andb_true_iff in H. destruct H as [Hc Hw].
  apply negb_true_iff in Hc. cbn [split_on]. rewrite Hc, (IH Hw). reflexivity.
Qed.

Lemma split_on_first (sep : Z) (w r : jsstring) :
  forallb (fun c => negb (c =? sep)) w = true ->
  split_on sep (w ++ sep :: r) = w :: split_on sep r.
Proof.
  induction w as [| c w IH]; intros H.
  - cbn [app split_on]. rewrite Z.eqb_refl. reflexivity.
  - cbn [forallb] in H. apply andb_true_iff in H. destruct H as [Hc Hw].
    apply negb_true_iff in Hc. cbn [app split_on]. rewrite Hc, (IH Hw).
    reflexivity.
Qed.

Lemma uri_char_not (sep : Z) (s : jsstring) :
  uri_char sep = false -> forallb uri_char s = true ->
  forallb (fun c => negb (c =? sep)) s = true.
Proof.
  intros Hsep H. apply forallb_forall. intros c Hc.
  rewrite forallb_forall in H. specialize (H c Hc).
  destruct (Z.eqb_spec c sep) as [-> |]; [congruence | reflexivity].
Qed.

(** The subject and the body that [essayMailTemplate] returns hold only
    unreserved characters and percent signs, whatever the name, the essay
    and the ids contain.  So the link that the application builds from
    them splits at its only question mark into the address and a query of
    exactly two parameters, [subject] and [body]: no text typed by the
    examinee can add a parameter or end the query. *)
Theorem essayMailTemplate_link :
  forall (name : jsstring) (summary : ObjectiveSummary)
         (essayContent timestamp : jsstring) (t : MailTemplate),
    template_units code_unit name summary essayContent timestamp = true ->
    essayMailTemplate name summary essayContent timestamp = Some t ->
    forallb uri_char (subject t) = true
    /\ forallb uri_char (body t) = true
    /\ rawBody t = join [0x0A] (essay_bodyLines name summary essayContent timestamp)
    /\ split_on 0x3F (mailtoHref t)
       = [ js "mailto:lzraylzray@outlook.com";
           js "subject=" ++ subject t ++ js "&body=" ++ body t ]
    /\ split_on 0x26 (js "subject=" ++ subject t ++ js "&body=" ++ body t)
       = [ js "subject=" ++ subject t; js "body=" ++ body t ].
Proof.
  intros name summary essayContent timestamp t Hu H.
  assert (Hp : forall c, scalar_unit c = true -> code_unit c = true).
  { intros c Hc. unfold scalar_unit in Hc.
    apply andb_true_iff in Hc. destruct Hc as [Hc _].
    apply andb_true_iff in Hc. tauto. }
  destruct (template_units_text code_unit Hp _ _ _ _ Hu) as [Hs Hb].
  unfold essayMailTemplate in H.
  destruct (encodeURIComponent (join _ _)) as [b |] eqn:Eb; [| discriminate].
  destruct (encodeURIComponent (essay_subject _ _)) as [s |] eqn:Es;
    [| discriminate].
  injection H as <-. cbn [subject body rawBody].
  pose proof (encodeURIComponent_safe _ _ Hs Es) as Ss.
  pose proof (encodeURIComponent_safe _ _ Hb Eb) as Sb.
  split; [exact Ss |]. split; [exact Sb |]. split; [reflexivity |].
  unfold mailtoHref. cbn [subject body].
  split.
  - change (js "mailto:lzraylzray@outlook.com?subject=" ++ s ++ js "&body=" ++ b)
      with (js "mailto:lzraylzray@outlook.com"
            ++ 0x3F :: (js "subject=" ++ s ++ js "&body=" ++ b)).
    rewrite split_on_first by reflexivity.
    rewrite split_on_absent; [reflexivity |].
    rewrite !forallb_app.
    rewrite (uri_char_not 0x3F s), (uri_char_not 0x3F b) by
      (try assumption; reflexivity).
    reflexivity.
  - change (js "subject=" ++ s ++ js "&body=" ++ b)
      with (js "subject=" ++ s ++ 0x26 :: (js "body=" ++ b)).
    rewrite app_assoc.
    rewrite split_on_first
      by (rewrite forallb_app, (uri_char_not 0x26 s) by (try assumption; reflexivity);
          reflexivity).
    rewrite split_on_absent; [reflexivity |].
    rewrite forallb_app, (uri_char_not 0x26 b) by (try assumption; reflexivity).
    reflexivity.
Qed.

Lemma unreserved_scalar (c : Z) :
  unreserved c = true ->
  isLeadingSurrogate c = false /\ isTrailingSurrogate c = false.
Proof.
  unfold unreserved, isDigit, isLeadingSurrogate, isTrailingSurrogate.
  intros H.
  assert (Hc : 0 <= c < 128).
  { repeat (apply orb_true_iff in H; destruct H as [H | H]);
      repeat (apply andb_true_iff in H; destruct H as [H H']);
      rewrite ?Z.leb_le, ?Z.eqb_eq in *; lia. }
  split; solve_tests.
Qed.

Lemma well_formed_encodes (s : jsstring) :
  well_formed s = true -> exists r, encodeURIComponent s = Some r.
Proof.
  remember (List.length s) as n eqn:En.
  assert (Hn : (List.length s <= n)%nat) by lia. clear En.
  revert s Hn. induction n as [| n IH]; intros s Hn H.
  - destruct s; [exists []; reflexivity | cbn in Hn; lia].
  - destruct s as [| c s]; [exists []; reflexivity |].
    cbn [List.length] in Hn. cbn [well_formed] in H. cbn [encodeURIComponent].
    destruct (unreserved c) eqn:Eu.
    { destruct (unreserved_scalar c Eu) as [El Et]. rewrite Et, El in H.
      destruct (IH s ltac:(lia) H) as [r ->]. eexists. reflexivity. }
    destruct (isTrailingSurrogate c); [discriminate |].
    destruct (isLeadingSurrogate c).
    + destruct s as [| d s']; [discriminate |].
      apply andb_true_iff in H. destruct H as [Hd H]. rewrite Hd.
      cbn [List.length] in Hn.
      destruct (IH s' ltac:(lia) H) as [r ->]. eexists. reflexivity.
    + destruct (IH s ltac:(lia) H) as [r ->]. eexists. reflexivity.
Qed.

Lemma well_formed_app (a b : jsstring) :
  well_formed a = true -> well_formed b = true -> well_formed (a ++ b) = true.
Proof.
  intros Ha Hb.
  remember (List.length a) as n eqn:En.
  assert (Hn : (List.length a <= n)%nat) by lia. clear En.
  revert a Hn Ha. induction n as [| n IH]; intros a Hn Ha.
  - destruct a; [exact Hb | cbn in Hn; lia].
  - destruct a as [| c a]; [exact Hb |].
    cbn [List.length] in Hn. cbn [app well_formed] in *.
    destruct (isTrailingSurrogate c); [discriminate |].
    destruct (isLeadingSurrogate c).
    + destruct a as [| d a']; [discriminate |].
      apply andb_true_iff in Ha. destruct Ha as [Hd Ha].
      cbn [app]. rewrite Hd. cbn [List.length] in Hn.
      apply IH; [lia | exact Ha].
    + apply IH; [lia | exact Ha].
Qed.

Lemma well_formed_scalar (s : jsstring) :
  forallb scalar_unit s = true -> well_formed s = true.
Proof.
  induction s as [| c s IH]; intros H; [reflexivity |].
  cbn [forallb] in H. apply andb_true_iff in H. destruct H as [Hc Hs].
  unfold scalar_unit in Hc.
  apply andb_true_iff in Hc. destruct Hc as [Hc Ht].
  apply andb_true_iff in Hc. destruct Hc as [_ Hl].
  apply negb_true_iff in Ht, Hl. cbn [well_formed]. rewrite Ht, Hl.
  apply IH. exact Hs.
Qed.

Lemma well_formed_bytes (s : jsstring) :
  Forall (fun c => 0 <= c < 256) s -> well_formed s = true.
Proof.
  intros H. apply well_formed_scalar.
  apply (p_bytes scalar_unit (fun c Hc => Hc)). exact H.
Qed.

Lemma well_formed_join (sep : jsstring) (l : list jsstring) :
  well_formed sep = true -> forallb well_formed l = true ->
  well_formed (join sep l) = true.
Proof.
  intros Hsep. induction l as [| a l IH]; intros H; [reflexivity |].
  cbn [forallb] in H. apply andb_true_iff in H. destruct H as [Ha Hl].
  destruct l as [| b l]; [exact Ha |].
  change (join sep (a :: b :: l)) with (a ++ sep ++ join sep (b :: l)).
  repeat apply well_formed_app; try assumption. apply IH. exact Hl.
Qed.

Lemma first_piece_cons (sep c : Z) (s : jsstring) :
  (c =? sep) = false ->
  nth 0 (split_on sep (c :: s)) [] = c :: nth 0 (split_on sep s) [].
Proof.
  intros H. cbn [split_on]. rewrite H.
  destruct (split_on sep s) as [| w ws] eqn:E; [| reflexivity].
  destruct s as [| x s]; [discriminate E |]. cbn [split_on] in E.
  destruct (x =? sep); [discriminate E |].
  destruct (split_on sep s); discriminate E.
Qed.

Lemma well_formed_first_piece (sep : Z) (s : jsstring) :
  isTrailingSurrogate sep = false ->
  well_formed s = true -> well_formed (nth 0 (split_on sep s) []) = true.
Proof.
  intros Hsep.
  remember (List.length s) as n eqn:En.
  assert (Hn : (List.length s <= n)%nat) by lia. clear En.
  revert s Hn. induction n as [| n IH]; intros s Hn H.
  - destruct s; [reflexivity | cbn in Hn; lia].
  - destruct s as [| c s]; [reflexivity |].
    cbn [List.length] in Hn.
    destruct (Z.eqb_spec c sep) as [-> | Hc].
    { cbn [split_on]. rewrite Z.eqb_refl. reflexivity. }
    rewrite first_piece_cons by (apply Z.eqb_neq; exact Hc).
    cbn [well_formed] in *.
    destruct (isTrailingSurrogate c); [discriminate |].
    destruct (isLeadingSurrogate c).
    + destruct s as [| d s']; [discriminate |].
      apply andb_true_iff in H. destruct H as [Hd H].
      assert (Hds : (d =? sep) = false).
      { apply Z.eqb_neq. intros ->. congruence. }
      rewrite first_piece_cons by exact Hds. rewrite Hd.
      cbn [List.length] in Hn. apply IH; [lia | exact H].
    + apply IH; [lia | exact H].
Qed.

Lemma well_formed_or_text (s d : jsstring) :
  well_formed s = true -> well_formed d = true ->
  well_formed (or_text s d) = true.
Proof. intros Hs Hd. unfold or_text. destruct (truthy s); assumption. Qed.

Ltac well_formed_parts :=
  repeat first [ assumption
               | apply well_formed_scalar; reflexivity
               | apply well_formed_bytes, Number_toString_range
               | apply well_formed_app ].

Lemma well_formed_section_line (title : jsstring) (s : SectionSummary) :
  forallb scalar_unit title = true ->
  forallb well_formed (incorrectIds s) = true ->
  well_formed (section_line title s) = true.
Proof.
  intros Ht Hids. unfold section_line.
  assert (H1 : well_formed title = true) by (apply well_formed_scalar; exact Ht).
  assert (H2 : well_formed (or_text (join (js ", ") (incorrectIds s)) (js "无"))
               = true).
  { apply well_formed_or_text; [| reflexivity].
    apply well_formed_join; [reflexivity | exact Hids]. }
  well_formed_parts.
Qed.

Lemma template_well_formed_text (name : jsstring) (summary : ObjectiveSummary)
    (essayContent timestamp : jsstring) :
  template_well_formed name summary essayContent timestamp = true ->
  well_formed (essay_subject name timestamp) = true
  /\ well_formed (join [0x0A]
                    (essay_bodyLines name summary essayContent timestamp)) = true.
Proof.
  unfold template_well_formed. intros H.
  apply andb_true_iff in H. destruct H as [H H5].
  apply andb_true_iff in H. destruct H as [H H4].
  apply andb_true_iff in H. destruct H as [H H3].
  apply andb_true_iff in H. destruct H as [H1 H2].
  assert (Hname : well_formed (or_text name (js "未署名")) = true)
    by (apply well_formed_or_text; [exact H1 | reflexivity]).
  assert (Hessay : well_formed (or_text essayContent (js "(未填写)")) = true)
    by (apply well_formed_or_text; [exact H2 | reflexivity]).
  assert (Hday : well_formed (nth 0 (split_on 0x54 timestamp) []) = true)
    by (apply well_formed_first_piece; [reflexivity | exact H3]).
  pose proof (well_formed_section_line (js "选择题") (summary_mcq summary)
                eq_refl H4) as Hl1.
  pose proof (well_formed_section_line (js "填空题") (summary_fillins summary)
                eq_refl H5) as Hl2.
  split.
  - unfold essay_subject. well_formed_parts.
  - apply well_formed_join; [reflexivity |].
    unfold essay_bodyLines. cbn [forallb].
    rewrite Hl1, Hl2, Hessay.
    repeat (apply andb_true_iff; split); try reflexivity; well_formed_parts.
Qed.

(** [essayMailTemplate] returns whenever the name, the essay, the time
    stamp and the ids are well-formed strings (every surrogate in a pair,
    as in the text of an emoji); it throws (a URIError of
    [encodeURIComponent]) when the essay ends in the first half of a
    surrogate pair, as a text cut in the middle of such a character
    does. *)
Theorem essayMailTemplate_returns :
  forall (name : jsstring) (summary : ObjectiveSummary)
         (essayContent timestamp : jsstring),
    (template_well_formed name summary essayContent timestamp = true ->
     exists t, essayMailTemplate name summary essayContent timestamp = Some t)
    /\ (forall c : Z,
           isLeadingSurrogate c = true ->
           essayMailTemplate name summary (essayContent ++ [c]) timestamp = None).
Proof.
  intros name summary essayContent timestamp. split.
  - intros Hu.
    destruct (template_well_formed_text _ _ _ _ Hu) as [Hs Hb].
    destruct (well_formed_encodes _ Hs) as [s Es].
    destruct (well_formed_encodes _ Hb) as [b Eb].
    unfold essayMailTemplate. rewrite Eb, Es. eexists. reflexivity.
  - intros c Hc. unfold essayMailTemplate.
    assert (E : exists pre,
               join [0x0A] (essay_bodyLines name summary (essayContent ++ [c])
                              timestamp)
               = pre ++ [c]).
    { unfold essay_bodyLines, or_text.
      assert (Ht : truthy (essayContent ++ [c]) = true)
        by (destruct essayContent; reflexivity).
      rewrite Ht. cbn [join].
      eexists. rewrite !app_assoc. reflexivity. }
    destruct E as [pre ->]. rewrite (encodeURIComponent_cut pre c Hc).
    reflexivity.
Qed.

Lemma essayMailTemplate_link_witness :
  exists t : MailTemplate,
    essayMailTemplate mail_name mail_summary mail_essay mail_timestamp = Some t
    /\ split_on 0x3F (mailtoHref t)
       = [ js "mailto:lzraylzray@outlook.com";
           js "subject=" ++ subject t ++ js "&body=" ++ body t ]
    /\ split_on 0x26 (js "subject=" ++ subject t ++ js "&body=" ++ body t)
       = [ js "subject=" ++ subject t; js "body=" ++ body t ].
Proof.
  eexists. split; [vm_compute; reflexivity |].
  refine (proj2 (proj2 (proj2
            (essayMailTemplate_link mail_name mail_summary mail_essay
               mail_timestamp _ _ _)))); vm_compute; reflexivity.
Defined.

Lemma essayMailTemplate_returns_witness :
  (exists t, essayMailTemplate mail_name mail_summary mail_essay mail_timestamp
             = Some t)
  /\ essayMailTemplate mail_name mail_summary (mail_essay ++ [0xD83D])
                       mail_timestamp = None.
Proof.
  destruct (essayMailTemplate_returns mail_name mail_summary mail_essay
              mail_timestamp) as [H1 H2].
  split; [apply H1; vm_compute; reflexivity | apply H2; reflexivity].
Defined.

(** ** The score maps *)

Lemma assoc_set_same {V : Type} (k : jsstring) (v : V) (own : list (jsstring * V)) :
  assoc k (set_property k v own) = Some v.
Proof.
  induction own as [| [k' v'] own IH]; cbn [set_property assoc].
  - rewrite str_eqb_refl. reflexivity.
  - destruct (str_eqb k k') eqn:E; cbn [assoc]; rewrite E; [reflexivity | exact IH].
Qed.

Lemma assoc_set_other {V : Type} (k k0 : jsstring) (v : V)
    (own : list (jsstring * V)) :
  k0 <> k -> assoc k0 (set_property k v own) = assoc k0 own.
Proof.
  intros Hne. induction own as [| [k' v'] own IH]; cbn [set_property assoc].
  - destruct (str_eqb k0 k) eqn:E; [apply str_eqb_eq in E; congruence | reflexivity].
  - destruct (str_eqb k k') eqn:E; cbn [assoc]; [| rewrite IH; reflexivity].
    apply str_eqb_eq in E. subst k'.
    destruct (str_eqb k0 k) eqn:E0; [apply str_eqb_eq in E0; congruence | reflexivity].
Qed.

Lemma fromEntries_fold {V : Type} (entries : list (jsstring * V))
    (own : list (jsstring * V)) (k : jsstring) :
  assoc k (fold_left (fun own kv => set_property (fst kv) (snd kv) own) entries own)
  = match assoc k (rev entries) with
    | Some v => Some v
    | None => assoc k own
    end.
Proof.
  revert own. induction entries as [| [k' v'] entries IH]; intros own;
    [reflexivity |].
  cbn [fold_left rev fst snd]. rewrite IH.
  assert (Happ : forall l1 l2 : list (jsstring * V),
             assoc k (l1 ++ l2)
             = match assoc k l1 with Some v => Some v | None => assoc k l2 end).
  { intros l1 l2. induction l1 as [| [a b] l1 IHl]; [reflexivity |].
    cbn [app assoc]. destruct (str_eqb k a); [reflexivity | exact IHl]. }
  rewrite Happ. destruct (assoc k (rev entries)); [reflexivity |].
  cbn [assoc]. destruct (str_eqb k k') eqn:E.
  - apply str_eqb_eq in E. subst k'. apply assoc_set_same.
  - apply assoc_set_other. intros ->. rewrite str_eqb_refl in E. discriminate.
Qed.

Lemma fromEntries_last {V : Type} (pre post : list (jsstring * V))
    (k : jsstring) (v : V) :
  ~ In k (map fst post) ->
  assoc k (Object_fromEntries (pre ++ (k, v) :: post)) = Some v.
Proof.
  intros Hpost. unfold Object_fromEntries. rewrite fromEntries_fold.
  rewrite rev_app_distr. cbn [rev]. rewrite <- app_assoc. cbn [app].
  assert (Happ : forall l1 l2 : list (jsstring * V),
             assoc k l1 = None -> assoc k (l1 ++ l2) = assoc k l2).
  { intros l1 l2. induction l1 as [| [a b] l1 IHl]; [reflexivity |].
    cbn [app assoc]. destruct (str_eqb k a); [discriminate | exact IHl]. }
  rewrite Happ.
  - cbn [assoc]. rewrite str_eqb_refl. reflexivity.
  - destruct (assoc k (rev post)) eqn:E; [| reflexivity].
    exfalso. apply Hpost.
    assert (H : assoc k (rev post) <> None) by congruence.
    apply assoc_In in H. rewrite map_rev in H. apply in_rev in H. exact H.
Qed.

Lemma fromEntries_keys {V : Type} (entries : list (jsstring * V)) (k : jsstring) :
  assoc k (Object_fromEntries entries) <> None <-> In k (map fst entries).
Proof.
  unfold Object_fromEntries. rewrite fromEntries_fold. cbn [assoc].
  rewrite (in_rev (map fst entries)), <- map_rev, <- assoc_In.
  destruct (assoc k (rev entries)); split; congruence.
Qed.

(** The score maps of [getQuestionScoreMap] hold, under each id, the
    weight of the last question declared with that id (its own weight when
    the ids are distinct) and have no other own key; looking up a name that
    no question has yields what [Object.prototype] provides under it,
    [undefined] for most names but a function for "constructor". *)
Theorem getQuestionScoreMap_lookup :
  forall (quiz : QuizData),
    (forall pre q post,
        mcq quiz = pre ++ q :: post ->
        ~ In (mcq_id q) (map mcq_id post) ->
        score_get (mcqScores (getQuestionScoreMap quiz)) (mcq_id q)
        = Some (inl (getScore (mcq_score q))))
    /\ (forall pre q post,
          fillins quiz = pre ++ q :: post ->
          ~ In (fillin_id q) (map fillin_id post) ->
          score_get (fillinScores (getQuestionScoreMap quiz)) (fillin_id q)
          = Some (inl (getScore (fillin_score q))))
    /\ (forall key,
          ~ In key (map mcq_id (mcq quiz)) ->
          score_get (mcqScores (getQuestionScoreMap quiz)) key
          = option_map inr (assoc key ObjectPrototype))
    /\ (forall key,
          ~ In key (map fillin_id (fillins quiz)) ->
          score_get (fillinScores (getQuestionScoreMap quiz)) key
          = option_map inr (assoc key ObjectPrototype)).
Proof.
  intros quiz. unfold getQuestionScoreMap, score_get. cbn [mcqScores fillinScores].
  split; [| split; [| split]].
  - intros pre q post E Hpost. rewrite E, map_app. cbn [map].
    rewrite fromEntries_last; [reflexivity |]. rewrite map_map. exact Hpost.
  - intros pre q post E Hpost. rewrite E, map_app. cbn [map].
    rewrite fromEntries_last; [reflexivity |]. rewrite map_map. exact Hpost.
  - intros key Hkey.
    destruct (assoc key (Object_fromEntries _)) eqn:E; [| reflexivity].
    exfalso. apply Hkey.
    assert (H : assoc key
                  (Object_fromEntries
                     (map (fun q => (mcq_id q, getScore (mcq_score q))) (mcq quiz)))
                <> None) by congruence.
    apply fromEntries_keys in H. rewrite map_map in H. exact H.
  - intros key Hkey.
    destruct (assoc key (Object_fromEntries _)) eqn:E; [| reflexivity].
    exfalso. apply Hkey.
    assert (H : assoc key
                  (Object_fromEntries
                     (map (fun q => (fillin_id q, getScore (fillin_score q)))
                          (fillins quiz)))
                <> None) by congruence.
    apply fromEntries_keys in H. rewrite map_map in H. exact H.
Qed.

Lemma getQuestionScoreMap_lookup_witness :
  score_get (mcqScores (getQuestionScoreMap sample_quiz)) (js "m2")
  = Some (inl 2%float)
  /\ score_get (mcqScores (getQuestionScoreMap sample_quiz)) (js "constructor")
     = Some (inr (JBuiltinFunction (js "Object"))).
Proof.
  destruct (getQuestionScoreMap_lookup sample_quiz) as (H1 & _ & H3 & _).
  split.
  - refine (H1 [_] _ [] eq_refl _). intros [].
  - refine (H3 (js "constructor") _). vm_compute.
    intros [H | [H | []]]; discriminate H.
Defined.
